(** * refinery-submodule-s3: a facade over two object-storage backends

    Shallow embedding of [enums.py], [connections/minio.py],
    [connections/aws.py] and [controller.py].

    The Python code is imperative: it reads the process environment, keeps
    one lazily built client per adapter module in a module-level global,
    talks to a storage provider through the [minio] package and raises
    exceptions.  All of this is threaded through one explicit [World] and a
    state-and-exception monad [M]; a raised exception keeps the world
    reached at the point of the raise, which is what [try]/[except] in
    [object_exists] observes. *)

From Stdlib Require Import Ascii String.
From stdpp Require Import gmap strings list fin_maps.

Open Scope Z_scope.
Open Scope string_scope.

(** ** enums.py *)

Inductive ConnectionTarget := AWS | MINIO | UNKNOWN.

#[global] Instance ConnectionTarget_eq_dec : EqDecision ConnectionTarget.
Proof. solve_decision. Defined.

(** ** Python exceptions and the effect monad *)

Inductive exn :=
| Exception (msg : string)
| ValueError (msg : string)
| FileNotFoundError (msg : string)
| TypeError (msg : string)
| S3Error (code : string).

#[global] Instance exn_eq_dec : EqDecision exn.
Proof. solve_decision. Defined.

(** [e.args[0]]: the message an exception was built with.  The [minio]
    package formats an [S3Error] as
    ["S3 operation failed; code: <code>, message: ..."]. *)
Definition args0 (e : exn) : string :=
  match e with
  | Exception m | ValueError m | FileNotFoundError m | TypeError m => m
  | S3Error code => "S3 operation failed; code: " ++ code ++ ", message: "
  end.

(** Python's [needle in haystack] on strings. *)
Definition str_in (needle haystack : string) : bool :=
  bool_decide (is_Some (String.index 0 needle haystack)).

Inductive result (A : Type) :=
| Ok (a : A)
| Raise (e : exn).
Arguments Ok {A} a.
Arguments Raise {A} e.

(** ** The storage provider

    A bucket is a flat map from object names to contents, together with the
    event-notification queues that were registered on it. *)

Record QueueConfig := {
  queue : string;
  events : list string;
  config_id : string
}.

Record Bucket := {
  objects : gmap string string;
  notification : list QueueConfig
}.

(** The client object of the [minio] package, as built by [Minio(...)]. *)
Record client := {
  endpoint : option string;
  access_key : option string;
  secret_key : option string;
  secure : bool
}.

(** JSON-like values, for the policy documents handed to the token service. *)
#[local] Unset Elimination Schemes.
Inductive json :=
| JStr (s : string)
| JList (l : list json)
| JDict (kvs : list (string * json)).
#[local] Set Elimination Schemes.

(** A client of the security token service, as built by
    [boto3.client("sts", ...)]. *)
Record StsClient := {
  region_name : option string;
  endpoint_url : option string;
  aws_access_key_id : option string;
  aws_secret_access_key : option string;
  use_ssl : bool
}.

(** One [assume_role] request as received by the security token service.
    [Policy] is the policy document itself; the code hands it over as
    [json.dumps(policy, separators=(",", ":"))]. *)
Record AssumeRole := {
  sts : StsClient;
  RoleArn : string;
  RoleSessionName : string;
  Policy : json;
  DurationSeconds : Z
}.

(** The credential block of an [assume_role] response.  The token service
    is an external collaborator: its grant is identified by the serial
    number of the request, and the expiry is kept as the granted duration. *)
Record Credentials := {
  AccessKeyId : nat;
  SecretAccessKey : nat;
  SessionToken : nat;
  Expiration : Z
}.

(** Everything the code can observe or change. *)
Record World := {
  environ : gmap string string;        (* os.environ *)
  files : gmap string string;          (* local file system, path to content *)
  stdout : list string;                (* lines written by print *)
  minio_client : option client;        (* minio.__client *)
  aws_client : option client;          (* aws.__client *)
  minio_store : gmap string Bucket;    (* the self-hosted provider *)
  aws_store : gmap string Bucket;      (* the cloud provider *)
  sts_grants : list AssumeRole         (* requests served by the token service *)
}.

Definition M (A : Type) : Type := World → result A * World.

#[global] Instance M_ret : MRet M := λ A a w, (Ok a, w).

#[global] Instance M_bind : MBind M := λ A B k m w,
  match m w with
  | (Ok a, w') => k a w'
  | (Raise e, w') => (Raise e, w')
  end.

#[global] Instance M_fmap : FMap M := λ A B f m, a ← m; mret (f a).

Definition raise {A} (e : exn) : M A := λ w, (Raise e, w).

Definition gets {A} (f : World → A) : M A := λ w, (Ok (f w), w).

Definition modify (f : World → World) : M unit := λ w, (Ok tt, f w).

(** [try: body  except Exception as e: handler e] *)
Definition try_except {A} (body : M A) (handler : exn → M A) : M A := λ w,
  match body w with
  | (Ok a, w') => (Ok a, w')
  | (Raise e, w') => handler e w'
  end.

(** [for x in l: body x] *)
Fixpoint for_each {A} (l : list A) (body : A → M unit) : M unit :=
  match l with
  | [] => mret tt
  | x :: l' => body x ;; for_each l' body
  end.

(** A call whose return value is dropped. *)
Definition call {A} (m : M A) : M unit := m ;; mret tt.

(** [if c: body] with no else branch. *)
Definition when (c : bool) (body : M unit) : M unit :=
  if c then body else mret tt.

(** [not v] for a value that is either [None] or an object. *)
Definition is_none {A} (v : option A) : bool :=
  match v with
  | None => true
  | Some _ => false
  end.

(** ** The os module *)

Definition getenv (key : string) : M (option string) :=
  gets (λ w, environ w !! key).

(** Truth value of what [os.getenv] returns: [None] and [""] are falsy. *)
Definition truthy (v : option string) : bool :=
  match v with
  | Some s => negb (String.eqb s "")
  | None => false
  end.

(** [str(v)] inside an f-string. *)
Definition py_str (v : option string) : string :=
  match v with
  | Some s => s
  | None => "None"
  end.

Definition print (line : string) : M unit :=
  modify (λ w, {| environ := environ w; files := files w;
                  stdout := stdout w ++ [line];
                  minio_client := minio_client w; aws_client := aws_client w;
                  minio_store := minio_store w; aws_store := aws_store w;
                  sts_grants := sts_grants w |}).

Definition path_exists (path : string) : M bool :=
  gets (λ w, bool_decide (is_Some (files w !! path))).

Definition set_files (fs : gmap string string) (w : World) : World :=
  {| environ := environ w; files := fs; stdout := stdout w;
     minio_client := minio_client w; aws_client := aws_client w;
     minio_store := minio_store w; aws_store := aws_store w;
     sts_grants := sts_grants w |}.

(** [os.remove(path)] *)
Definition os_remove (path : string) : M unit := λ w,
  match files w !! path with
  | None => (Raise (FileNotFoundError path), w)
  | Some _ => (Ok tt, set_files (delete path (files w)) w)
  end.

(** [datetime.timedelta(hours=n)], in seconds. *)
Definition hours (n : Z) : Z := n * 3600.

(** What a presigned URL is bound to: the host of the client that signed
    it, one HTTP method on one object, a lifetime in seconds, and the
    response headers it forces. *)
Record PresignedUrl := {
  url_host : option string;
  url_method : string;
  url_bucket : string;
  url_object : string;
  url_expires : Z;
  url_response_headers : list (string * string)
}.

(** ** The two providers *)

Inductive Site := SelfHosted | Cloud.

Definition store_at (p : Site) (w : World) : gmap string Bucket :=
  match p with
  | SelfHosted => minio_store w
  | Cloud => aws_store w
  end.

Definition set_store_at (p : Site) (s : gmap string Bucket) (w : World) : World :=
  match p with
  | SelfHosted =>
      {| environ := environ w; files := files w; stdout := stdout w;
         minio_client := minio_client w; aws_client := aws_client w;
         minio_store := s; aws_store := aws_store w;
         sts_grants := sts_grants w |}
  | Cloud =>
      {| environ := environ w; files := files w; stdout := stdout w;
         minio_client := minio_client w; aws_client := aws_client w;
         minio_store := minio_store w; aws_store := s;
         sts_grants := sts_grants w |}
  end.

Definition set_minio_client (c : option client) : M unit :=
  modify (λ w, {| environ := environ w; files := files w; stdout := stdout w;
                  minio_client := c; aws_client := aws_client w;
                  minio_store := minio_store w; aws_store := aws_store w;
                  sts_grants := sts_grants w |}).

Definition set_aws_client (c : option client) : M unit :=
  modify (λ w, {| environ := environ w; files := files w; stdout := stdout w;
                  minio_client := minio_client w; aws_client := c;
                  minio_store := minio_store w; aws_store := aws_store w;
                  sts_grants := sts_grants w |}).

(** Object [o] of bucket [b], if both exist. *)
Definition find_object (s : gmap string Bucket) (b o : string) : option string :=
  bk ← s !! b; objects bk !! o.

Definition set_objects (objs : gmap string string) (bk : Bucket) : Bucket :=
  {| objects := objs; notification := notification bk |}.

(** ** The [minio] package

    The methods of the client class the adapters call, as state transitions
    on the provider the client is connected to.  Names are opaque keys; the
    provider answers a missing bucket or object with the S3 error codes
    [NoSuchBucket] and [NoSuchKey], refuses to create a bucket twice and to
    remove a bucket that still holds objects.  A metadata probe
    ([stat_object]) is a HEAD request: its 404 carries no body, and the
    package reports it as [NoSuchKey] whenever an object name was given. *)

Module Minio.

Definition new (endpoint access_key secret_key : option string)
    (secure : bool) : client :=
  {| endpoint := endpoint; access_key := access_key;
     secret_key := secret_key; secure := secure |}.

Definition bucket_exists (p : Site) (c : client) (bucket_name : string) : M bool :=
  gets (λ w, bool_decide (is_Some (store_at p w !! bucket_name))).

Definition make_bucket (p : Site) (c : client) (bucket_name : string) : M unit := λ w,
  match store_at p w !! bucket_name with
  | Some _ => (Raise (S3Error "BucketAlreadyOwnedByYou"), w)
  | None =>
      (Ok tt, set_store_at p
                (<[bucket_name := {| objects := ∅; notification := [] |}]>
                   (store_at p w)) w)
  end.

Definition set_bucket_notification (p : Site) (c : client)
    (bucket_name : string) (config : list QueueConfig) : M unit := λ w,
  match store_at p w !! bucket_name with
  | None => (Raise (S3Error "NoSuchBucket"), w)
  | Some bk =>
      (Ok tt, set_store_at p
                (<[bucket_name := {| objects := objects bk;
                                     notification := config |}]>
                   (store_at p w)) w)
  end.

Definition remove_bucket (p : Site) (c : client) (bucket_name : string) : M unit := λ w,
  match store_at p w !! bucket_name with
  | None => (Raise (S3Error "NoSuchBucket"), w)
  | Some bk =>
      if decide (objects bk = ∅)
      then (Ok tt, set_store_at p (delete bucket_name (store_at p w)) w)
      else (Raise (S3Error "BucketNotEmpty"), w)
  end.

Definition stat_object (p : Site) (c : client)
    (bucket_name object_name : string) : M unit := λ w,
  match find_object (store_at p w) bucket_name object_name with
  | Some _ => (Ok tt, w)
  | None => (Raise (S3Error "NoSuchKey"), w)
  end.

(** [client.get_object(...).data] *)
Definition get_object (p : Site) (c : client)
    (bucket_name object_name : string) : M string := λ w,
  match store_at p w !! bucket_name with
  | None => (Raise (S3Error "NoSuchBucket"), w)
  | Some bk =>
      match objects bk !! object_name with
      | None => (Raise (S3Error "NoSuchKey"), w)
      | Some data => (Ok data, w)
      end
  end.

Definition remove_object (p : Site) (c : client)
    (bucket_name object_name : string) : M unit := λ w,
  match store_at p w !! bucket_name with
  | None => (Raise (S3Error "NoSuchBucket"), w)
  | Some bk =>
      (Ok tt, set_store_at p
                (<[bucket_name := set_objects (delete object_name (objects bk)) bk]>
                   (store_at p w)) w)
  end.

Definition fput_object (p : Site) (c : client)
    (bucket_name object_name file_path : string) : M unit := λ w,
  match files w !! file_path with
  | None => (Raise (FileNotFoundError file_path), w)
  | Some data =>
      match store_at p w !! bucket_name with
      | None => (Raise (S3Error "NoSuchBucket"), w)
      | Some bk =>
          (Ok tt, set_store_at p
                    (<[bucket_name := set_objects (<[object_name := data]> (objects bk)) bk]>
                       (store_at p w)) w)
      end
  end.

(** [client.copy_object(target_bucket, target_object,
    CopySource(source_bucket, source_object))]: a server-side copy. *)
Definition copy_object (p : Site) (c : client)
    (bucket_name object_name source_bucket source_object : string) : M unit := λ w,
  match store_at p w !! source_bucket with
  | None => (Raise (S3Error "NoSuchBucket"), w)
  | Some sbk =>
      match objects sbk !! source_object with
      | None => (Raise (S3Error "NoSuchKey"), w)
      | Some data =>
          match store_at p w !! bucket_name with
          | None => (Raise (S3Error "NoSuchBucket"), w)
          | Some bk =>
              (Ok tt, set_store_at p
                        (<[bucket_name := set_objects (<[object_name := data]> (objects bk)) bk]>
                           (store_at p w)) w)
          end
      end
  end.

(** The names of all buckets, in the provider's listing order. *)
Definition list_buckets (p : Site) (c : client) : M (list string) :=
  gets (λ w, (map_to_list (store_at p w)).*1).

Definition has_prefix (prefix : option string) (name : string) : bool :=
  match prefix with
  | None => true
  | Some pre => String.prefix pre name
  end.

(** [client.list_objects(bucket, prefix=prefix, recursive=True)], consumed
    at once by the dict comprehension of the caller. *)
Definition list_objects (p : Site) (c : client) (bucket_name : string)
    (prefix : option string) : M (list string) := λ w,
  match store_at p w !! bucket_name with
  | None => (Raise (S3Error "NoSuchBucket"), w)
  | Some bk =>
      (Ok (List.filter (has_prefix prefix) (map_to_list (objects bk)).*1), w)
  end.

(** [client.put_object(bucket_name, object_name, data, length=-1,
    content_type, part_size)]: stores the bytes of the stream [data]. *)
Definition put_object (p : Site) (c : client)
    (bucket_name object_name data content_type : string) : M unit := λ w,
  match store_at p w !! bucket_name with
  | None => (Raise (S3Error "NoSuchBucket"), w)
  | Some bk =>
      (Ok tt, set_store_at p
                (<[bucket_name := set_objects (<[object_name := data]> (objects bk)) bk]>
                   (store_at p w)) w)
  end.

(** [client.fget_object(bucket, object_name, file_path)]: writes the object
    to the local file, replacing it. *)
Definition fget_object (p : Site) (c : client)
    (bucket_name object_name file_path : string) : M unit := λ w,
  match store_at p w !! bucket_name with
  | None => (Raise (S3Error "NoSuchBucket"), w)
  | Some bk =>
      match objects bk !! object_name with
      | None => (Raise (S3Error "NoSuchKey"), w)
      | Some data => (Ok tt, set_files (<[file_path := data]> (files w)) w)
      end
  end.

(** [client.get_presigned_url(method, bucket_name, object_name, expires,
    response_headers)]: signing is local, the provider is not asked. *)
Definition get_presigned_url (p : Site) (c : client) (method : string)
    (bucket_name object_name : string) (expires : Z)
    (response_headers : list (string * string)) : M PresignedUrl :=
  mret {| url_host := endpoint c; url_method := method;
          url_bucket := bucket_name; url_object := object_name;
          url_expires := expires;
          url_response_headers := response_headers |}.

Definition presigned_put_object (p : Site) (c : client)
    (bucket_name object_name : string) (expires : Z) : M PresignedUrl :=
  get_presigned_url p c "PUT" bucket_name object_name expires [].

End Minio.

(** ** The security token service ([boto3.client("sts", ...).assume_role]) *)

Definition assume_role (sts_client : StsClient) (RoleArn RoleSessionName : string)
    (Policy : json) (DurationSeconds : Z) : M Credentials := λ w,
  let serial := length (sts_grants w) in
  (Ok {| AccessKeyId := serial; SecretAccessKey := serial;
         SessionToken := serial; Expiration := DurationSeconds |},
   {| environ := environ w; files := files w; stdout := stdout w;
      minio_client := minio_client w; aws_client := aws_client w;
      minio_store := minio_store w; aws_store := aws_store w;
      sts_grants := sts_grants w ++
        [ {| sts := sts_client; RoleArn := RoleArn;
             RoleSessionName := RoleSessionName; Policy := Policy;
             DurationSeconds := DurationSeconds |} ] |}).

(** ** connections/minio.py: the self-hosted adapter *)

Module minio.

Definition provider : Site := SelfHosted.

Definition __get_client : M client :=
  c ← gets minio_client;
  when (is_none c)
    (e ← getenv "S3_ENDPOINT_LOCAL";
     a ← getenv "S3_ACCESS_KEY";
     s ← getenv "S3_SECRET_KEY";
     when (truthy e && truthy a && truthy s)
       (set_minio_client (Some (Minio.new e a s false))));;
  c ← gets minio_client;
  match c with
  | None => raise (Exception "S3 not connected")
  | Some client => mret client
  end.

Definition bucket_exists (bucket : string) : M bool :=
  client ← __get_client;
  Minio.bucket_exists provider client bucket.

Definition create_bucket (bucket : string) : M bool :=
  client ← __get_client;
  Minio.make_bucket provider client bucket;;
  let config :=
    [ {| queue := "arn:minio:sqs::_:webhook";
         events := ["s3:ObjectCreated:*"];
         config_id := "1" |} ] in
  Minio.set_bucket_notification provider client bucket config;;
  mret true.

Definition get_object (bucket object_name : string) : M string :=
  client ← __get_client;
  be ← bucket_exists bucket;
  if negb be then mret ""
  else Minio.get_object provider client bucket object_name.

Definition object_exists (bucket object_name : string) : M bool :=
  client ← __get_client;
  try_except
    (Minio.stat_object provider client bucket object_name;; mret true)
    (λ e,
       let errnum := args0 e in
       if negb (str_in "code: NoSuchKey" errnum) then raise e
       else mret false).

Definition delete_object (bucket object_name : string) : M bool :=
  oe ← object_exists bucket object_name;
  if negb oe then mret false
  else
    client ← __get_client;
    Minio.remove_object provider client bucket object_name;;
    mret true.

Definition upload_object (bucket object_name file_path : string)
    (force : bool) : M bool :=
  client ← __get_client;
  be ← bucket_exists bucket;
  if negb be then mret false
  else
    oe ← object_exists bucket object_name;
    when oe
      (if force then call (delete_object bucket object_name)
       else raise (ValueError
         "Object name in bucket already taken -- if you want to overwrite use force = True"));;
    pe ← path_exists file_path;
    if negb pe then mret false
    else
      Minio.fput_object provider client bucket object_name file_path;;
      mret true.

Definition new_sts_client : M StsClient :=
  endpoint_url ← getenv "S3_ENDPOINT";
  key ← getenv "S3_ACCESS_KEY";
  secret ← getenv "S3_SECRET_KEY";
  mret {| region_name := Some "eu-west-1";
          endpoint_url := endpoint_url;
          aws_access_key_id := key;
          aws_secret_access_key := secret;
          use_ssl := false |}.

Definition upload_policy (target_bucket : string) : json :=
  JDict
    [ ("Version", JStr "2012-10-17");
      ("Statement", JList
         [ JDict
             [ ("Sid", JStr "PutObj");
               ("Effect", JStr "Allow");
               ("Action", JList [ JStr "s3:PutObject" ]);
               ("Resource", JStr ("arn:aws:s3:::" ++ target_bucket ++ "/*")) ] ]) ].

Definition get_upload_credentials_and_id (target_bucket : string) : M Credentials :=
  be ← bucket_exists target_bucket;
  when (negb be) (call (create_bucket target_bucket));;
  sts_client ← new_sts_client;
  let policy := upload_policy target_bucket in
  response ← assume_role sts_client
    "arn:x:ignored:by:minio:" "ignored-by-minio" policy 12000;
  mret response.

Definition download_policy (bucket object : string) : json :=
  JDict
    [ ("Version", JStr "2012-10-17");
      ("Statement", JList
         [ JDict
             [ ("Sid", JStr "GetObj");
               ("Effect", JStr "Allow");
               ("Action", JList [ JStr "s3:GetObject" ]);
               ("Resource", JStr ("arn:aws:s3:::" ++ bucket ++ "/" ++ object)) ] ]) ].

Definition get_download_credentials (bucket object : string) : M Credentials :=
  be ← bucket_exists bucket;
  when (negb be) (call (create_bucket bucket));;
  sts_client ← new_sts_client;
  let policy := download_policy bucket object in
  response ← assume_role sts_client
    "arn:x:ignored:by:minio:" "ignored-by-minio" policy 12000;
  mret response.

Definition get_all_buckets : M (list string) :=
  client ← __get_client;
  Minio.list_buckets provider client.

Definition copy_object (source_bucket source_object target_bucket
    target_object : string) : M bool :=
  client ← __get_client;
  Minio.copy_object provider client target_bucket target_object
    source_bucket source_object;;
  mret true.

Definition get_bucket_objects (bucket : string) (prefix : option string)
    : M (list string) :=
  client ← __get_client;
  Minio.list_objects provider client bucket prefix.

Definition remove_bucket (bucket : string) : M bool :=
  client ← __get_client;
  Minio.remove_bucket provider client bucket;;
  mret true.

Definition put_object (bucket object_name data : string) : M bool :=
  client ← __get_client;
  be ← bucket_exists bucket;
  when (negb be) (call (create_bucket bucket));;
  Minio.put_object provider client bucket object_name data "application/json";;
  mret true.

Definition download_object (bucket object_name file_type : string)
    (file_name : option string) : M string :=
  client ← __get_client;
  be ← bucket_exists bucket;
  if negb be then mret ""
  else
    let file_name :=
      if negb (truthy file_name) then "tmpfile." ++ file_type
      else py_str file_name in
    pe ← path_exists file_name;
    when pe (os_remove file_name);;
    Minio.fget_object provider client bucket object_name file_name;;
    mret file_name.

Definition create_access_link (bucket object_name : string) : M PresignedUrl :=
  client ← __get_client;
  oe ← object_exists bucket object_name;
  if negb oe then
    raise (FileNotFoundError
      ("Object " ++ object_name ++ " couldn't be found in bucket " ++ bucket))
  else
    Minio.get_presigned_url provider client "GET" bucket object_name
      (hours 1) [("response-content-type", "application/json")].

Definition create_data_upload_link (bucket object_name : string) : M PresignedUrl :=
  client ← __get_client;
  be ← bucket_exists bucket;
  when (negb be) (call (create_bucket bucket));;
  Minio.get_presigned_url provider client "POST" bucket object_name
    (hours 12) [].

Definition create_file_upload_link (bucket object_name : string) : M PresignedUrl :=
  client ← __get_client;
  be ← bucket_exists bucket;
  when (negb be) (call (create_bucket bucket));;
  Minio.presigned_put_object provider client bucket object_name (hours 12).

Definition get_upload_credentials_and_id_with_endpoint
    (target_bucket endpoint : string) : M Credentials :=
  be ← bucket_exists target_bucket;
  when (negb be) (call (create_bucket target_bucket));;
  key ← getenv "S3_ACCESS_KEY";
  secret ← getenv "S3_SECRET_KEY";
  let sts_client :=
    {| region_name := Some "eu-west-1";
       endpoint_url := Some endpoint;
       aws_access_key_id := key;
       aws_secret_access_key := secret;
       use_ssl := false |} in
  let policy := upload_policy target_bucket in
  response ← assume_role sts_client
    "arn:x:ignored:by:minio:" "ignored-by-minio" policy 12000;
  mret response.

End minio.

(** ** connections/aws.py: the cloud adapter *)

Module aws.

Definition provider : Site := Cloud.

Definition __init_client (force : bool) : M unit :=
  c ← gets aws_client;
  if negb (is_none c) && negb force then mret tt
  else
    current_target ← getenv "S3_TARGET";
    when (bool_decide (current_target ≠ Some "AWS"))
      (print ("os target != AWS (" ++ py_str current_target ++ ")"));;
    e ← getenv "S3_AWS_ENDPOINT";
    r ← getenv "S3_AWS_REGION";
    a ← getenv "S3_AWS_ACCESS_KEY";
    s ← getenv "S3_AWS_SECRET_KEY";
    when (truthy e && truthy r && truthy a && truthy s)
      (set_aws_client (Some (Minio.new e a s true))).

Definition __get_client : M client :=
  c ← gets aws_client;
  when (is_none c) (__init_client false);;
  c ← gets aws_client;
  match c with
  | None => raise (Exception "S3 not connected")
  | Some client => mret client
  end.

Definition bucket_exists (bucket : string) : M bool :=
  client ← __get_client;
  Minio.bucket_exists provider client bucket.

Definition create_bucket (bucket : string) : M bool :=
  client ← __get_client;
  region ← getenv "S3_AWS_REGION";
  if negb (truthy region)
  then raise (ValueError "target region is not set for bucket creation on aws")
  else
    Minio.make_bucket provider client bucket;;
    mret true.

Definition get_object (bucket object_name : string) : M string :=
  client ← __get_client;
  be ← bucket_exists bucket;
  if negb be then mret ""
  else Minio.get_object provider client bucket object_name.

Definition object_exists (bucket object_name : string) : M bool :=
  client ← __get_client;
  try_except
    (Minio.stat_object provider client bucket object_name;; mret true)
    (λ e,
       let errnum := args0 e in
       if negb (str_in "code: NoSuchKey" errnum) then raise e
       else mret false).

Definition delete_object (bucket object_name : string) : M bool :=
  oe ← object_exists bucket object_name;
  if negb oe then mret false
  else
    client ← __get_client;
    Minio.remove_object provider client bucket object_name;;
    mret true.

Definition upload_object (bucket object_name file_path : string)
    (force : bool) : M bool :=
  client ← __get_client;
  be ← bucket_exists bucket;
  if negb be then mret false
  else
    oe ← object_exists bucket object_name;
    when oe
      (if force then call (delete_object bucket object_name)
       else raise (ValueError
         "Object name in bucket already taken -- if you want to overwrite use force = True"));;
    pe ← path_exists file_path;
    if negb pe then mret false
    else
      Minio.fput_object provider client bucket object_name file_path;;
      mret true.

Definition new_sts_client : M StsClient :=
  region ← getenv "S3_REGION";
  endpoint_url ← getenv "STS_ENDPOINT";
  key ← getenv "S3_ACCESS_KEY";
  secret ← getenv "S3_SECRET_KEY";
  mret {| region_name := region;
          endpoint_url := endpoint_url;
          aws_access_key_id := key;
          aws_secret_access_key := secret;
          use_ssl := false |}.

Definition upload_policy (target_bucket : string) : json :=
  JDict
    [ ("Version", JStr "2012-10-17");
      ("Statement", JList
         [ JDict
             [ ("Sid", JStr "PutObj");
               ("Effect", JStr "Allow");
               ("Action", JList
                  [ JStr "s3:AbortMultipartUpload";
                    JStr "s3:DeleteObject";
                    JStr "s3:ListMultipartUploadParts";
                    JStr "s3:PutObject";
                    JStr "s3:GetObject" ]);
               ("Resource", JList
                  [ JStr ("arn:aws:s3:::" ++ target_bucket ++ "/*") ]) ];
           JDict
             [ ("Effect", JStr "Allow");
               ("Action", JList
                  [ JStr "s3:GetBucketLocation";
                    JStr "s3:ListBucket";
                    JStr "s3:ListBucketMultipartUploads" ]);
               ("Resource", JList
                  [ JStr ("arn:aws:s3:::" ++ target_bucket) ]) ] ]) ].

Definition get_upload_credentials_and_id (target_bucket : string) : M Credentials :=
  client ← __get_client;
  be ← bucket_exists target_bucket;
  when (negb be) (call (create_bucket target_bucket));;
  sts_client ← new_sts_client;
  let policy := upload_policy target_bucket in
  response ← assume_role sts_client
    "arn:aws:iam::151980777696:role/s3-upload-files-role-for-minio"
    "S3UploadFilesToMinioSession" policy 3600;
  mret response.

Definition download_policy (bucket object : string) : json :=
  JDict
    [ ("Statement", JList
         [ JDict
             [ ("Sid", JStr "AllowUserToReadWriteObjectInFolder");
               ("Action", JList
                  [ JStr "s3:GetObject";
                    JStr "s3:PutObject";
                    JStr "s3:DeleteObject";
                    JStr "s3:ListMultipartUploadParts";
                    JStr "s3:AbortMultipartUpload" ]);
               ("Effect", JStr "Allow");
               ("Resource", JList
                  [ JStr ("arn:aws:s3:::" ++ bucket);
                    JStr ("arn:aws:s3:::" ++ bucket ++ "/*") ]) ];
           JDict
             [ ("Sid", JStr "AllowGetBucketLocation");
               ("Action", JList [ JStr "s3:GetBucketLocation" ]);
               ("Effect", JStr "Allow");
               ("Resource", JList [ JStr ("arn:aws:s3:::" ++ bucket) ]) ];
           JDict
             [ ("Sid", JStr "AllowListBucketUploads");
               ("Action", JList [ JStr "s3:ListBucketMultipartUploads" ]);
               ("Effect", JStr "Allow");
               ("Resource", JList [ JStr ("arn:aws:s3:::" ++ bucket) ]) ] ]) ].

Definition get_download_credentials (bucket object : string) : M Credentials :=
  be ← bucket_exists bucket;
  when (negb be) (call (create_bucket bucket));;
  sts_client ← new_sts_client;
  let policy := download_policy bucket object in
  response ← assume_role sts_client
    "arn:aws:iam::151980777696:role/s3-download-files-role-for-minio"
    "S3DownloadFilesFromMinioSession" policy 3600;
  mret response.

Definition get_all_buckets : M (list string) :=
  client ← __get_client;
  Minio.list_buckets provider client.

Definition copy_object (source_bucket source_object target_bucket
    target_object : string) : M bool :=
  client ← __get_client;
  Minio.copy_object provider client target_bucket target_object
    source_bucket source_object;;
  mret true.

Definition get_bucket_objects (bucket : string) (prefix : option string)
    : M (list string) :=
  client ← __get_client;
  Minio.list_objects provider client bucket prefix.

Definition remove_bucket (bucket : string) : M bool :=
  client ← __get_client;
  Minio.remove_bucket provider client bucket;;
  mret true.

(** [data] is a [str]: with [encode_utf8] false, [bytes(data)] has no
    encoding to go by and raises. *)
Definition put_object (bucket object_name data content_type : string)
    (encode_utf8 : bool) : M bool :=
  client ← __get_client;
  be ← bucket_exists bucket;
  when (negb be) (call (create_bucket bucket));;
  if encode_utf8 then
    Minio.put_object provider client bucket object_name data content_type;;
    mret true
  else raise (TypeError "string argument without an encoding").

Definition get_object_bytes (bucket object_name : string) : M string :=
  client ← __get_client;
  be ← bucket_exists bucket;
  if negb be then mret ""
  else Minio.get_object provider client bucket object_name.

Definition download_object (bucket object_name file_type : string)
    (file_name : option string) : M string :=
  client ← __get_client;
  be ← bucket_exists bucket;
  if negb be then mret ""
  else
    let file_name :=
      if negb (truthy file_name) then "tmpfile." ++ file_type
      else py_str file_name in
    pe ← path_exists file_name;
    when pe (os_remove file_name);;
    Minio.fget_object provider client bucket object_name file_name;;
    mret file_name.

Definition create_access_link (bucket object_name : string) : M PresignedUrl :=
  client ← __get_client;
  oe ← object_exists bucket object_name;
  if negb oe then
    raise (FileNotFoundError
      ("Object " ++ object_name ++ " couldn't be found in bucket " ++ bucket))
  else
    Minio.get_presigned_url provider client "GET" bucket object_name
      (hours 1) [("response-content-type", "application/json")].

Definition create_data_upload_link (bucket object_name : string) : M PresignedUrl :=
  client ← __get_client;
  be ← bucket_exists bucket;
  when (negb be) (call (create_bucket bucket));;
  Minio.get_presigned_url provider client "POST" bucket object_name
    (hours 12) [].

Definition create_file_upload_link (bucket object_name : string) : M PresignedUrl :=
  client ← __get_client;
  be ← bucket_exists bucket;
  when (negb be) (call (create_bucket bucket));;
  Minio.presigned_put_object provider client bucket object_name (hours 12).

End aws.

(** ** controller.py: the facade *)

Module controller.

Definition ARCHIVE_BUCKET : string := "archive".

Definition get_current_target : M ConnectionTarget :=
  target ← getenv "S3_TARGET";
  if bool_decide (target = Some "AWS") then mret AWS
  else mret MINIO.

Definition bucket_exists (bucket : string) : M bool :=
  target ← get_current_target;
  match target with
  | MINIO => minio.bucket_exists bucket
  | AWS => aws.bucket_exists bucket
  | UNKNOWN => mret false
  end.

Definition create_bucket (bucket : string) : M bool :=
  target ← get_current_target;
  match target with
  | MINIO => minio.create_bucket bucket
  | AWS => aws.create_bucket bucket
  | UNKNOWN => mret false
  end.

Definition get_object (bucket object_name : string) : M (option string) :=
  target ← get_current_target;
  match target with
  | MINIO => Some <$> minio.get_object bucket object_name
  | AWS => Some <$> aws.get_object bucket object_name
  | UNKNOWN => mret None
  end.

Definition upload_object (bucket object_name file_path : string)
    (force : bool) : M bool :=
  target ← get_current_target;
  match target with
  | MINIO => minio.upload_object bucket object_name file_path force
  | AWS => aws.upload_object bucket object_name file_path force
  | UNKNOWN => mret false
  end.

Definition delete_object (bucket object_name : string) : M bool :=
  target ← get_current_target;
  match target with
  | MINIO => minio.delete_object bucket object_name
  | AWS => aws.delete_object bucket object_name
  | UNKNOWN => mret false
  end.

Definition object_exists (bucket object_name : string) : M bool :=
  target ← get_current_target;
  match target with
  | MINIO => minio.object_exists bucket object_name
  | AWS => aws.object_exists bucket object_name
  | UNKNOWN => mret false
  end.

Definition get_all_buckets : M (option (list string)) :=
  target ← get_current_target;
  match target with
  | MINIO => Some <$> minio.get_all_buckets
  | AWS => Some <$> aws.get_all_buckets
  | UNKNOWN => mret None
  end.

Definition copy_object (source_bucket source_object target_bucket
    target_object : string) : M (option bool) :=
  target ← get_current_target;
  match target with
  | MINIO => Some <$> minio.copy_object source_bucket source_object
                        target_bucket target_object
  | AWS => Some <$> aws.copy_object source_bucket source_object
                      target_bucket target_object
  | UNKNOWN => mret None
  end.

Definition get_bucket_objects (bucket : string) (prefix : option string)
    : M (option (list string)) :=
  target ← get_current_target;
  match target with
  | MINIO => Some <$> minio.get_bucket_objects bucket prefix
  | AWS => Some <$> aws.get_bucket_objects bucket prefix
  | UNKNOWN => mret None
  end.

(** Iterating over, or taking the length of, a dict that may be [None]. *)
Definition iter (d : option (list string)) : M (list string) :=
  match d with
  | Some l => mret l
  | None => raise (TypeError "'NoneType' object is not iterable")
  end.

Definition remove_bucket (bucket : string) (recursive : bool) : M bool :=
  objects ← get_bucket_objects bucket None;
  objects ← iter objects;
  let dispatch : M bool :=
    target ← get_current_target;
    match target with
    | MINIO => minio.remove_bucket bucket
    | AWS => aws.remove_bucket bucket
    | UNKNOWN => mret false
    end in
  if bool_decide (length objects ≠ 0%nat) then
    if recursive then
      for_each objects (λ obj, call (delete_object bucket obj));;
      dispatch
    else mret false
  else dispatch.

Definition archive_bucket (bucket : string) (prefix : option string)
    (delete_existing : bool) : M (option bool) :=
  be ← bucket_exists bucket;
  if negb be then mret None
  else
    ae ← bucket_exists ARCHIVE_BUCKET;
    when (negb ae) (call (create_bucket ARCHIVE_BUCKET));;
    bucket_objects ← get_bucket_objects bucket prefix;
    keys ← iter bucket_objects;
    for_each keys (λ bucket_object_name,
      let archive_object_name :=
        String.concat "/" [bucket; bucket_object_name] in
      oe ← object_exists ARCHIVE_BUCKET archive_object_name;
      when oe (call (delete_object ARCHIVE_BUCKET archive_object_name));;
      copy_object bucket bucket_object_name ARCHIVE_BUCKET archive_object_name;;
      when delete_existing (call (delete_object bucket bucket_object_name)));;
    when delete_existing (call (remove_bucket bucket false));;
    mret (Some true).

(** [[0-9a-f]] *)
Definition is_hex (c : ascii) : bool :=
  let n := nat_of_ascii c in
  ((48 <=? n) && (n <=? 57) || (97 <=? n) && (n <=? 102))%nat.

(** [[0-9a-f]{n}] at the head of [s]; the rest of [s] on a match. *)
Fixpoint hexes (n : nat) (s : string) : option string :=
  match n with
  | O => Some s
  | S n' =>
      match s with
      | String c s' => if is_hex c then hexes n' s' else None
      | EmptyString => None
      end
  end.

(** A literal [-] at the head of [s]. *)
Definition dash (s : string) : option string :=
  match s with
  | String c s' => if Ascii.eqb c "-"%char then Some s' else None
  | EmptyString => None
  end.

(** [$]: the end of the string, or just before a newline that ends it. *)
Definition at_end (s : string) : bool :=
  match s with
  | EmptyString => true
  | String c EmptyString => Ascii.eqb c "010"%char
  | _ => false
  end.

(** [re.match(r"^[0-9a-f]{8}-[0-9a-f]{4}-[0-9a-f]{4}-[0-9a-f]{4}-[0-9a-f]{12}$", name)] *)
Definition __is_uuid (name : string) : bool :=
  match
    r ← hexes 8 name; r ← dash r;
    r ← hexes 4 r; r ← dash r;
    r ← hexes 4 r; r ← dash r;
    r ← hexes 4 r; r ← dash r;
    hexes 12 r
  with
  | Some rest => at_end rest
  | None => false
  end.

Definition empty_storage (force only_uuid : bool) : M bool :=
  when force
    (buckets ← get_all_buckets;
     buckets ← iter buckets;
     for_each buckets (λ bucket,
       if only_uuid && negb (__is_uuid bucket) then mret tt
       else
         objs ← get_bucket_objects bucket None;
         objs ← iter objs;
         for_each objs (λ object, call (delete_object bucket object));;
         call (remove_bucket bucket false)));;
  mret force.

Definition put_object (bucket object_name data : string) : M bool :=
  target ← get_current_target;
  match target with
  | MINIO => minio.put_object bucket object_name data
  | AWS => aws.put_object bucket object_name data "application/json" true
  | UNKNOWN => mret false
  end.

Definition download_object (bucket object_name file_type : string)
    (file_name : option string) : M (option string) :=
  target ← get_current_target;
  match target with
  | MINIO => Some <$> minio.download_object bucket object_name file_type file_name
  | AWS => Some <$> aws.download_object bucket object_name file_type file_name
  | UNKNOWN => mret None
  end.

Definition create_access_link (bucket object_name : string)
    : M (option PresignedUrl) :=
  target ← get_current_target;
  match target with
  | MINIO => Some <$> minio.create_access_link bucket object_name
  | AWS => Some <$> aws.create_access_link bucket object_name
  | UNKNOWN => mret None
  end.

Definition create_data_upload_link (bucket object_name : string)
    : M (option PresignedUrl) :=
  target ← get_current_target;
  match target with
  | MINIO => Some <$> minio.create_data_upload_link bucket object_name
  | AWS => Some <$> aws.create_data_upload_link bucket object_name
  | UNKNOWN => mret None
  end.

Definition create_file_upload_link (bucket object_name : string)
    : M (option PresignedUrl) :=
  target ← get_current_target;
  match target with
  | MINIO => Some <$> minio.create_file_upload_link bucket object_name
  | AWS => Some <$> aws.create_file_upload_link bucket object_name
  | UNKNOWN => mret None
  end.

Definition upload_tokenizer_data (bucket project_id data : string) : M bool :=
  let object_name :=
    (if negb (String.eqb project_id "") then project_id ++ "/" else "")
    ++ "docbin_full" in
  be ← bucket_exists bucket;
  when (negb be) (call (create_bucket bucket));;
  oe ← object_exists bucket object_name;
  when oe (call (delete_object bucket object_name));;
  put_object bucket object_name data;;
  mret true.

Definition transfer_bucket_from_minio_to_aws (bucket : string)
    (remove_from_minio force_overwrite : bool) : M bool :=
  be ← minio.bucket_exists bucket;
  if negb be then mret false
  else
    ae ← aws.bucket_exists bucket;
    when (negb ae) (call (aws.create_bucket bucket));;
    objects ← minio.get_bucket_objects bucket None;
    for_each objects (λ obj,
      local_file_name ← minio.download_object bucket obj "" None;
      aws.upload_object bucket obj local_file_name force_overwrite;;
      os_remove local_file_name;;
      when remove_from_minio (call (minio.delete_object bucket obj)));;
    when remove_from_minio (call (minio.remove_bucket bucket));;
    mret true.

End controller.
(** * Reasoning about worlds *)

Section world_lemmas.

(** The client an adapter module has cached, if any. *)
Definition cached (p : Site) (w : World) : option client :=
  match p with
  | SelfHosted => minio_client w
  | Cloud => aws_client w
  end.

(** The provider the facade dispatches to in world [w]. *)
Definition selected (w : World) : Site :=
  if bool_decide (environ w !! "S3_TARGET" = Some "AWS") then Cloud
  else SelfHosted.

(** The environment holds what the adapter needs to build its client. *)
Definition configured (p : Site) (w : World) : bool :=
  match p with
  | SelfHosted =>
      truthy (environ w !! "S3_ENDPOINT_LOCAL") &&
      truthy (environ w !! "S3_ACCESS_KEY") &&
      truthy (environ w !! "S3_SECRET_KEY")
  | Cloud =>
      truthy (environ w !! "S3_AWS_ENDPOINT") &&
      truthy (environ w !! "S3_AWS_REGION") &&
      truthy (environ w !! "S3_AWS_ACCESS_KEY") &&
      truthy (environ w !! "S3_AWS_SECRET_KEY")
  end.

(** The adapter can obtain a client: it holds one already or can build it. *)
Definition connected (p : Site) (w : World) : Prop :=
  is_Some (cached p w) ∨ configured p w = true.

(** The adapter can create buckets: the cloud one needs a region. *)
Definition can_create (p : Site) (w : World) : Prop :=
  match p with
  | SelfHosted => True
  | Cloud => truthy (environ w !! "S3_AWS_REGION") = true
  end.

Definition get_client (p : Site) : M client :=
  match p with
  | SelfHosted => minio.__get_client
  | Cloud => aws.__get_client
  end.

(** The world once the adapter has fetched its client. *)
Definition warm (p : Site) (w : World) : World := (get_client p w).2.

Lemma store_at_set_eq p s w : store_at p (set_store_at p s w) = s.
Proof. by destruct p. Qed.

Lemma store_at_set_ne p q s w : p ≠ q → store_at p (set_store_at q s w) = store_at p w.
Proof. by destruct p, q. Qed.

Lemma set_store_at_twice p s s' w :
  set_store_at p s (set_store_at p s' w) = set_store_at p s w.
Proof. by destruct p. Qed.

Lemma set_store_at_id p w : set_store_at p (store_at p w) w = w.
Proof. by destruct p, w. Qed.

Lemma cached_set_store p q s w : cached p (set_store_at q s w) = cached p w.
Proof. by destruct p, q. Qed.

Lemma environ_set_store q s w : environ (set_store_at q s w) = environ w.
Proof. by destruct q. Qed.

Lemma files_set_store q s w : files (set_store_at q s w) = files w.
Proof. by destruct q. Qed.

Lemma selected_set_store q s w : selected (set_store_at q s w) = selected w.
Proof. unfold selected. by rewrite environ_set_store. Qed.

Lemma get_client_cached p w c :
  cached p w = Some c → get_client p w = (Ok c, w).
Proof.
  destruct p; simpl; intros H.
  - unfold minio.__get_client, mbind, M_bind, gets. rewrite H. simpl. by rewrite H.
  - unfold aws.__get_client, mbind, M_bind, gets. rewrite H. simpl. by rewrite H.
Qed.

Lemma get_client_connected p w :
  connected p w →
  ∃ c, get_client p w = (Ok c, warm p w) ∧ cached p (warm p w) = Some c.
Proof.
  intros [[c Hc]|Hcfg].
  - exists c. unfold warm. rewrite (get_client_cached _ _ _ Hc). done.
  - destruct (cached p w) as [c|] eqn:Hc.
    { exists c. unfold warm. rewrite (get_client_cached _ _ _ Hc). done. }
    unfold warm. destruct p; simpl in *.
    + unfold minio.__get_client, mbind, M_bind, gets, getenv, gets, when.
      rewrite Hc. simpl. rewrite Hcfg. simpl. eauto.
    + unfold aws.__get_client, aws.__init_client, mbind, M_bind, gets,
        getenv, gets, when.
      rewrite Hc. simpl. rewrite Hc. simpl.
      case_bool_decide; simpl; rewrite Hcfg; simpl; eauto.
Qed.

Lemma warm_frame p w :
  connected p w →
  environ (warm p w) = environ w ∧ files (warm p w) = files w ∧
  minio_store (warm p w) = minio_store w ∧ aws_store (warm p w) = aws_store w ∧
  sts_grants (warm p w) = sts_grants w.
Proof.
  intros [[c Hc]|Hcfg].
  - unfold warm. rewrite (get_client_cached _ _ _ Hc). done.
  - destruct (cached p w) as [c|] eqn:Hc.
    { unfold warm. rewrite (get_client_cached _ _ _ Hc). done. }
    unfold warm. destruct p; simpl in *.
    + unfold minio.__get_client, mbind, M_bind, gets, getenv, gets, when.
      rewrite Hc. simpl. rewrite Hcfg. simpl. done.
    + unfold aws.__get_client, aws.__init_client, mbind, M_bind, gets,
        getenv, gets, when.
      rewrite Hc. simpl. rewrite Hc. simpl.
      case_bool_decide; simpl; rewrite Hcfg; simpl; done.
Qed.

Lemma store_at_warm p q w : connected p w → store_at q (warm p w) = store_at q w.
Proof. intros H. destruct (warm_frame p w H) as (_ & _ & ? & ? & _). by destruct q. Qed.

Lemma warm_cached p w c : cached p w = Some c → warm p w = w.
Proof. intros H. unfold warm. by rewrite (get_client_cached _ _ _ H). Qed.

End world_lemmas.

(** * What each adapter operation does to the provider

    On a world whose adapter already holds its client, every operation is a
    function of the provider's store.  The store-level functions below are
    the closed forms; the lemmas relate the adapter code to them. *)

Definition has_bucket (s : gmap string Bucket) (b : string) : bool :=
  bool_decide (is_Some (s !! b)).

Definition has_object (s : gmap string Bucket) (b o : string) : bool :=
  bool_decide (is_Some (find_object s b o)).

Definition store_delete (s : gmap string Bucket) (b o : string) : gmap string Bucket :=
  match s !! b with
  | Some bk => <[b := set_objects (delete o (objects bk)) bk]> s
  | None => s
  end.

Definition store_put (s : gmap string Bucket) (b o data : string) : gmap string Bucket :=
  match s !! b with
  | Some bk => <[b := set_objects (<[o := data]> (objects bk)) bk]> s
  | None => s
  end.

Definition names (prefix : option string) (bk : Bucket) : list string :=
  List.filter (Minio.has_prefix prefix) (map_to_list (objects bk)).*1.

(** The bucket [create_bucket] leaves behind: the self-hosted adapter
    registers its webhook queue on it. *)
Definition fresh_bucket (p : Site) : Bucket :=
  match p with
  | SelfHosted =>
      {| objects := ∅;
         notification :=
           [ {| queue := "arn:minio:sqs::_:webhook";
                events := ["s3:ObjectCreated:*"];
                config_id := "1" |} ] |}
  | Cloud => {| objects := ∅; notification := [] |}
  end.

(** The adapter operation of provider [p]. *)
Definition on (p : Site) {A} (self_hosted cloud : A) : A :=
  match p with
  | SelfHosted => self_hosted
  | Cloud => cloud
  end.

Lemma bind_run {A B} (m : M A) (k : A → M B) w :
  (m ≫= k) w =
  match m w with
  | (Ok a, w') => k a w'
  | (Raise e, w') => (Raise e, w')
  end.
Proof. reflexivity. Qed.

Lemma bind_ok {A B} (m : M A) (k : A → M B) w a w' :
  m w = (Ok a, w') → (m ≫= k) w = k a w'.
Proof. intros H. by rewrite bind_run, H. Qed.

Lemma bind_raise {A B} (m : M A) (k : A → M B) w e w' :
  m w = (Raise e, w') → (m ≫= k) w = (Raise e, w').
Proof. intros H. by rewrite bind_run, H. Qed.

Lemma set_objects_id bk : set_objects (objects bk) bk = bk.
Proof. by destruct bk. Qed.

Lemma store_delete_absent s b o :
  find_object s b o = None → store_delete s b o = s.
Proof.
  unfold find_object, store_delete. destruct (s !! b) as [bk|] eqn:Hb; simpl; [|done].
  intros Ho. rewrite delete_id by done. rewrite set_objects_id. by apply insert_id.
Qed.

Lemma store_delete_lookup s b bk o :
  s !! b = Some bk →
  store_delete s b o = <[b := set_objects (delete o (objects bk)) bk]> s.
Proof. intros H. unfold store_delete. by rewrite H. Qed.

Lemma store_put_lookup s b bk o d :
  s !! b = Some bk →
  store_put s b o d = <[b := set_objects (<[o := d]> (objects bk)) bk]> s.
Proof. intros H. unfold store_put. by rewrite H. Qed.

Lemma find_object_Some s b o d :
  find_object s b o = Some d ↔ ∃ bk, s !! b = Some bk ∧ objects bk !! o = Some d.
Proof.
  unfold find_object. destruct (s !! b) as [bk|]; simpl.
  - split; [eauto|]. by intros (? & [= <-] & ?).
  - split; [done|]. by intros (? & ? & ?).
Qed.

Lemma has_bucket_true s b : has_bucket s b = true ↔ is_Some (s !! b).
Proof. unfold has_bucket. by rewrite bool_decide_eq_true. Qed.

Lemma has_bucket_false s b : has_bucket s b = false ↔ s !! b = None.
Proof.
  unfold has_bucket. rewrite bool_decide_eq_false. by rewrite eq_None_not_Some.
Qed.

Lemma has_object_true s b o : has_object s b o = true ↔ is_Some (find_object s b o).
Proof. unfold has_object. by rewrite bool_decide_eq_true. Qed.

Lemma has_object_false s b o : has_object s b o = false ↔ find_object s b o = None.
Proof.
  unfold has_object. rewrite bool_decide_eq_false. by rewrite eq_None_not_Some.
Qed.

(** Splits a goal about the adapter of [p] into the two modules, with the
    fact that the client is at hand. *)
Local Ltac enter p w c Hc :=
  let Hg := fresh "Hg" in
  pose proof (get_client_cached p w c Hc) as Hg;
  destruct p; simpl in *.

Lemma bucket_exists_cached p w c b :
  cached p w = Some c →
  on p minio.bucket_exists aws.bucket_exists b w =
  (Ok (has_bucket (store_at p w) b), w).
Proof.
  intros Hc. enter p w c Hc;
    [unfold minio.bucket_exists | unfold aws.bucket_exists];
    by rewrite (bind_ok _ _ _ _ _ Hg).
Qed.

Lemma object_exists_cached p w c b o :
  cached p w = Some c →
  on p minio.object_exists aws.object_exists b o w =
  (Ok (has_object (store_at p w) b o), w).
Proof.
  intros Hc. enter p w c Hc;
    [unfold minio.object_exists | unfold aws.object_exists];
    rewrite (bind_ok _ _ _ _ _ Hg);
    unfold try_except, has_object; rewrite bind_run;
    unfold Minio.stat_object; simpl;
    by destruct (find_object _ b o).
Qed.

Lemma delete_object_cached p w c b o :
  cached p w = Some c →
  on p minio.delete_object aws.delete_object b o w =
  (Ok (has_object (store_at p w) b o),
   set_store_at p (store_delete (store_at p w) b o) w).
Proof.
  intros Hc. pose proof (object_exists_cached p w c b o Hc) as Ho.
  destruct (has_object (store_at p w) b o) eqn:Hh.
  - apply has_object_true in Hh as [d Hd].
    apply find_object_Some in Hd as (bk & Hb & Hd).
    rewrite (store_delete_lookup _ _ _ _ Hb).
    enter p w c Hc;
      [unfold minio.delete_object | unfold aws.delete_object];
      rewrite (bind_ok _ _ _ _ _ Ho); simpl;
      rewrite (bind_ok _ _ _ _ _ Hg);
      rewrite bind_run; unfold Minio.remove_object; simpl;
      by rewrite Hb.
  - apply has_object_false in Hh.
    rewrite (store_delete_absent _ _ _ Hh), set_store_at_id.
    destruct p; simpl in *;
      [unfold minio.delete_object | unfold aws.delete_object];
      by rewrite (bind_ok _ _ _ _ _ Ho).
Qed.

Lemma copy_object_cached p w c sb so tb to d :
  cached p w = Some c →
  find_object (store_at p w) sb so = Some d →
  is_Some (store_at p w !! tb) →
  on p minio.copy_object aws.copy_object sb so tb to w =
  (Ok true, set_store_at p (store_put (store_at p w) tb to d) w).
Proof.
  intros Hc (sbk & Hsb & Hso)%find_object_Some [tbk Htb].
  rewrite (store_put_lookup _ _ _ _ _ Htb).
  enter p w c Hc;
    [unfold minio.copy_object | unfold aws.copy_object];
    rewrite (bind_ok _ _ _ _ _ Hg);
    rewrite bind_run; unfold Minio.copy_object; simpl;
    by rewrite Hsb, Hso, Htb.
Qed.

Lemma get_bucket_objects_cached p w c b bk prefix :
  cached p w = Some c →
  store_at p w !! b = Some bk →
  on p minio.get_bucket_objects aws.get_bucket_objects b prefix w =
  (Ok (names prefix bk), w).
Proof.
  intros Hc Hb.
  enter p w c Hc;
    [unfold minio.get_bucket_objects | unfold aws.get_bucket_objects];
    rewrite (bind_ok _ _ _ _ _ Hg);
    unfold Minio.list_objects; simpl; by rewrite Hb.
Qed.

Lemma get_all_buckets_cached p w c :
  cached p w = Some c →
  on p minio.get_all_buckets aws.get_all_buckets w =
  (Ok (map_to_list (store_at p w)).*1, w).
Proof.
  intros Hc.
  enter p w c Hc;
    [unfold minio.get_all_buckets | unfold aws.get_all_buckets];
    by rewrite (bind_ok _ _ _ _ _ Hg).
Qed.

Lemma remove_bucket_cached p w c b bk :
  cached p w = Some c →
  store_at p w !! b = Some bk →
  objects bk = ∅ →
  on p minio.remove_bucket aws.remove_bucket b w =
  (Ok true, set_store_at p (delete b (store_at p w)) w).
Proof.
  intros Hc Hb He.
  enter p w c Hc;
    [unfold minio.remove_bucket | unfold aws.remove_bucket];
    rewrite (bind_ok _ _ _ _ _ Hg);
    rewrite bind_run; unfold Minio.remove_bucket; simpl;
    rewrite Hb; by rewrite decide_True.
Qed.

Lemma create_bucket_cached p w c b :
  cached p w = Some c →
  can_create p w →
  store_at p w !! b = None →
  on p minio.create_bucket aws.create_bucket b w =
  (Ok true, set_store_at p (<[b := fresh_bucket p]> (store_at p w)) w).
Proof.
  intros Hc Hr Hb.
  enter p w c Hc.
  - unfold minio.create_bucket. rewrite (bind_ok _ _ _ _ _ Hg).
    rewrite bind_run. unfold Minio.make_bucket. simpl. rewrite Hb.
    rewrite bind_run. unfold Minio.set_bucket_notification. simpl.
    rewrite lookup_insert_eq. simpl. by rewrite insert_insert_eq.
  - unfold aws.create_bucket. rewrite (bind_ok _ _ _ _ _ Hg).
    rewrite bind_run. unfold getenv, gets. simpl in Hr. rewrite Hr. simpl.
    rewrite bind_run. unfold Minio.make_bucket. simpl. by rewrite Hb.
Qed.

(** * The facade on a ready world

    A world is ready for provider [p] when the facade dispatches to [p] and
    the adapter of [p] holds its client. *)

Definition ready (p : Site) (w : World) : Prop :=
  is_Some (cached p w) ∧ selected w = p.

Definition target_of (p : Site) : ConnectionTarget :=
  match p with
  | SelfHosted => MINIO
  | Cloud => AWS
  end.

Lemma get_current_target_run w :
  controller.get_current_target w = (Ok (target_of (selected w)), w).
Proof.
  unfold controller.get_current_target, selected. rewrite bind_run.
  unfold getenv, gets. by case_bool_decide.
Qed.

Lemma ready_set_store p q s w : ready p w → ready p (set_store_at q s w).
Proof.
  intros [Hc Hs]. split.
  - by rewrite cached_set_store.
  - by rewrite selected_set_store.
Qed.

Lemma fmap_run {A B} (f : A → B) (m : M A) w :
  (f <$> m) w =
  match m w with
  | (Ok a, w') => (Ok (f a), w')
  | (Raise e, w') => (Raise e, w')
  end.
Proof. reflexivity. Qed.

Local Ltac facade p w Hr :=
  let c := fresh "c" in
  let Hc := fresh "Hc" in
  let Hs := fresh "Hs" in
  destruct Hr as [[c Hc] Hs];
  rewrite (bind_ok _ _ _ _ _ (get_current_target_run w)), Hs.

Lemma facade_bucket_exists p w b :
  ready p w →
  controller.bucket_exists b w = (Ok (has_bucket (store_at p w) b), w).
Proof.
  intros Hr. unfold controller.bucket_exists. facade p w Hr.
  rewrite <- (bucket_exists_cached p w c b Hc). by destruct p.
Qed.

Lemma facade_object_exists p w b o :
  ready p w →
  controller.object_exists b o w = (Ok (has_object (store_at p w) b o), w).
Proof.
  intros Hr. unfold controller.object_exists. facade p w Hr.
  rewrite <- (object_exists_cached p w c b o Hc). by destruct p.
Qed.

Lemma facade_delete_object p w b o :
  ready p w →
  controller.delete_object b o w =
  (Ok (has_object (store_at p w) b o),
   set_store_at p (store_delete (store_at p w) b o) w).
Proof.
  intros Hr. unfold controller.delete_object. facade p w Hr.
  rewrite <- (delete_object_cached p w c b o Hc). by destruct p.
Qed.

Lemma facade_copy_object p w sb so tb to d :
  ready p w →
  find_object (store_at p w) sb so = Some d →
  is_Some (store_at p w !! tb) →
  controller.copy_object sb so tb to w =
  (Ok (Some true), set_store_at p (store_put (store_at p w) tb to d) w).
Proof.
  intros Hr Hd Ht. unfold controller.copy_object. facade p w Hr.
  pose proof (copy_object_cached p w c sb so tb to d Hc Hd Ht) as H.
  destruct p; simpl in *; by rewrite fmap_run, H.
Qed.

Lemma facade_get_bucket_objects p w b bk prefix :
  ready p w →
  store_at p w !! b = Some bk →
  controller.get_bucket_objects b prefix w = (Ok (Some (names prefix bk)), w).
Proof.
  intros Hr Hb. unfold controller.get_bucket_objects. facade p w Hr.
  pose proof (get_bucket_objects_cached p w c b bk prefix Hc Hb) as H.
  destruct p; simpl in *; by rewrite fmap_run, H.
Qed.

Lemma facade_get_all_buckets p w :
  ready p w →
  controller.get_all_buckets w = (Ok (Some (map_to_list (store_at p w)).*1), w).
Proof.
  intros Hr. unfold controller.get_all_buckets. facade p w Hr.
  pose proof (get_all_buckets_cached p w c Hc) as H.
  destruct p; simpl in *; by rewrite fmap_run, H.
Qed.

Lemma facade_create_bucket p w b :
  ready p w →
  can_create p w →
  store_at p w !! b = None →
  controller.create_bucket b w =
  (Ok true, set_store_at p (<[b := fresh_bucket p]> (store_at p w)) w).
Proof.
  intros Hr Hcr Hb. unfold controller.create_bucket. facade p w Hr.
  rewrite <- (create_bucket_cached p w c b Hc Hcr Hb). by destruct p.
Qed.

Lemma names_all_nil bk : names None bk = [] ↔ objects bk = ∅.
Proof.
  unfold names. simpl.
  assert (∀ l : list string, List.filter (λ _, true) l = l) as ->.
  { induction l as [|x l IH]; simpl; by rewrite ?IH. }
  rewrite <- map_to_list_empty_iff. split.
  - apply fmap_nil_inv.
  - by intros ->.
Qed.

Lemma names_elem prefix bk n :
  n ∈ names prefix bk ↔
  is_Some (objects bk !! n) ∧ Minio.has_prefix prefix n = true.
Proof.
  unfold names. rewrite list_elem_of_In, filter_In, <- list_elem_of_In.
  rewrite list_elem_of_fmap. split.
  - intros [([k v] & -> & Hkv%elem_of_map_to_list) Hp]. eauto.
  - intros [[v Hv] Hp]. split; [|done].
    exists (n, v). split; [done|]. by apply elem_of_map_to_list.
Qed.

Lemma names_NoDup prefix bk : NoDup (names prefix bk).
Proof.
  unfold names. apply NoDup_ListNoDup, List.NoDup_filter, NoDup_ListNoDup.
  apply NoDup_fst_map_to_list.
Qed.

(** [remove_bucket(bucket)] with [recursive] left at [False]: an empty
    bucket is removed, any other is left alone. *)
Lemma facade_remove_bucket p w b bk :
  ready p w →
  store_at p w !! b = Some bk →
  controller.remove_bucket b false w =
  if decide (objects bk = ∅)
  then (Ok true, set_store_at p (delete b (store_at p w)) w)
  else (Ok false, w).
Proof.
  intros Hr Hb. unfold controller.remove_bucket.
  rewrite (bind_ok _ _ _ _ _ (facade_get_bucket_objects p w b bk None Hr Hb)).
  simpl. rewrite bind_run. simpl.
  destruct (decide (objects bk = ∅)) as [He|Hne].
  - pose proof (proj2 (names_all_nil bk) He) as Hn. rewrite Hn. simpl.
    facade p w Hr.
    rewrite <- (remove_bucket_cached p w c b bk Hc Hb He). by destruct p.
  - destruct (names None bk) as [|x l] eqn:Hn; [|done].
    by apply names_all_nil in Hn.
Qed.

(** A loop whose body is a function of the store runs as a fold. *)
Lemma for_each_fold {A} (p : Site) (body : A → M unit)
    (step : gmap string Bucket → A → gmap string Bucket)
    (Inv : list A → gmap string Bucket → Prop) :
  (∀ x l s, Inv (x :: l) s → Inv l (step s x)) →
  (∀ x l w, ready p w → Inv (x :: l) (store_at p w) →
     body x w = (Ok tt, set_store_at p (step (store_at p w) x) w)) →
  ∀ l w, ready p w → Inv l (store_at p w) →
    for_each l body w = (Ok tt, set_store_at p (foldl step (store_at p w) l) w).
Proof.
  intros Hinv Hbody l. induction l as [|x l IH]; intros w Hr HI; simpl.
  - by rewrite set_store_at_id.
  - rewrite (bind_ok _ _ _ _ _ (Hbody x l w Hr HI)).
    rewrite IH.
    + by rewrite store_at_set_eq, set_store_at_twice.
    + by apply ready_set_store.
    + rewrite store_at_set_eq. by eapply Hinv.
Qed.

(** * Lookups through the store-level functions *)

Lemma lookup_store_delete s b o b' :
  is_Some (store_delete s b o !! b') ↔ is_Some (s !! b').
Proof.
  unfold store_delete. destruct (s !! b) as [bk|] eqn:Hb; [|done].
  destruct (decide (b = b')) as [<-|Hne].
  - rewrite lookup_insert_eq, Hb. split; eauto.
  - by rewrite lookup_insert_ne.
Qed.

Lemma lookup_store_put s b o d b' :
  is_Some (store_put s b o d !! b') ↔ is_Some (s !! b').
Proof.
  unfold store_put. destruct (s !! b) as [bk|] eqn:Hb; [|done].
  destruct (decide (b = b')) as [<-|Hne].
  - rewrite lookup_insert_eq, Hb. split; eauto.
  - by rewrite lookup_insert_ne.
Qed.

Lemma lookup_store_delete_ne s b o b' :
  b ≠ b' → store_delete s b o !! b' = s !! b'.
Proof.
  intros Hne. unfold store_delete. destruct (s !! b); [|done].
  by rewrite lookup_insert_ne.
Qed.

Lemma lookup_store_put_ne s b o d b' :
  b ≠ b' → store_put s b o d !! b' = s !! b'.
Proof.
  intros Hne. unfold store_put. destruct (s !! b); [|done].
  by rewrite lookup_insert_ne.
Qed.

Lemma find_object_store_delete s b o b' o' :
  find_object (store_delete s b o) b' o' =
  if decide (b = b' ∧ o = o') then None else find_object s b' o'.
Proof.
  unfold store_delete, find_object.
  destruct (s !! b) as [bk|] eqn:Hb.
  - destruct (decide (b = b')) as [<-|Hne].
    + rewrite lookup_insert_eq, Hb. simpl.
      destruct (decide (o = o')) as [<-|Hno].
      * rewrite decide_True by done. apply lookup_delete_eq.
      * rewrite decide_False by (by intros [? ?]). by apply lookup_delete_ne.
    + rewrite lookup_insert_ne by done. by rewrite decide_False by (by intros [? ?]).
  - case_decide as H; [|done]. destruct H as [<- _]. by rewrite Hb.
Qed.

Lemma find_object_store_put s b o d b' o' :
  find_object (store_put s b o d) b' o' =
  if decide (b = b' ∧ o = o')
  then (if has_bucket s b then Some d else None)
  else find_object s b' o'.
Proof.
  unfold store_put, find_object, has_bucket.
  destruct (s !! b) as [bk|] eqn:Hb.
  - rewrite bool_decide_eq_true_2 by eauto.
    destruct (decide (b = b')) as [<-|Hne].
    + rewrite lookup_insert_eq, Hb. simpl.
      destruct (decide (o = o')) as [<-|Hno].
      * rewrite decide_True by done. apply lookup_insert_eq.
      * rewrite decide_False by (by intros [? ?]). by apply lookup_insert_ne.
    + rewrite lookup_insert_ne by done. by rewrite decide_False by (by intros [? ?]).
  - rewrite bool_decide_eq_false_2 by (by intros [? ?]).
    case_decide as H; [|done]. destruct H as [<- _]. by rewrite Hb.
Qed.

(** * Adapters on a connected world

    Every adapter operation fetches the client first, so on a connected
    world it runs as it does once the client is cached. *)

Lemma get_client_warm p w :
  connected p w → get_client p w = get_client p (warm p w).
Proof.
  intros H. destruct (get_client_connected p w H) as (c & Hg & Hc).
  by rewrite Hg, (get_client_cached _ _ _ Hc).
Qed.

Lemma connected_warm p w : connected p w → ∃ c, cached p (warm p w) = Some c.
Proof. intros H. destruct (get_client_connected p w H) as (c & _ & Hc). eauto. Qed.

Local Ltac warm_up p w H :=
  let Hw := fresh "Hw" in
  pose proof (get_client_warm p w H) as Hw;
  destruct p; simpl in Hw; cbv beta iota;
  rewrite !bind_run; rewrite ?Hw; reflexivity.

Lemma bucket_exists_warm p w b :
  connected p w →
  on p minio.bucket_exists aws.bucket_exists b w =
  on p minio.bucket_exists aws.bucket_exists b (warm p w).
Proof.
  intros H. unfold on, minio.bucket_exists, aws.bucket_exists. warm_up p w H.
Qed.

Lemma object_exists_warm p w b o :
  connected p w →
  on p minio.object_exists aws.object_exists b o w =
  on p minio.object_exists aws.object_exists b o (warm p w).
Proof.
  intros H. unfold on, minio.object_exists, aws.object_exists. warm_up p w H.
Qed.

Lemma delete_object_warm p w b o :
  connected p w →
  on p minio.delete_object aws.delete_object b o w =
  on p minio.delete_object aws.delete_object b o (warm p w).
Proof.
  intros H. pose proof (object_exists_warm p w b o H) as Hw.
  unfold on in *.
  destruct p; unfold minio.delete_object, aws.delete_object;
    by rewrite !bind_run, Hw.
Qed.

Lemma get_object_warm p w b o :
  connected p w →
  on p minio.get_object aws.get_object b o w =
  on p minio.get_object aws.get_object b o (warm p w).
Proof.
  intros H. unfold on, minio.get_object, aws.get_object. warm_up p w H.
Qed.

Lemma upload_object_warm p w b o path force :
  connected p w →
  on p minio.upload_object aws.upload_object b o path force w =
  on p minio.upload_object aws.upload_object b o path force (warm p w).
Proof.
  intros H. unfold on, minio.upload_object, aws.upload_object. warm_up p w H.
Qed.

Lemma get_all_buckets_warm p w :
  connected p w →
  on p minio.get_all_buckets aws.get_all_buckets w =
  on p minio.get_all_buckets aws.get_all_buckets (warm p w).
Proof.
  intros H. unfold on, minio.get_all_buckets, aws.get_all_buckets. warm_up p w H.
Qed.

Definition conflict_message : string :=
  "Object name in bucket already taken -- if you want to overwrite use force = True".

Lemma get_object_cached p w c b o :
  cached p w = Some c →
  on p minio.get_object aws.get_object b o w =
  match store_at p w !! b with
  | None => (Ok "", w)
  | Some bk =>
      match objects bk !! o with
      | Some data => (Ok data, w)
      | None => (Raise (S3Error "NoSuchKey"), w)
      end
  end.
Proof.
  intros Hc. pose proof (bucket_exists_cached p w c b Hc) as Hb.
  unfold has_bucket in Hb.
  enter p w c Hc;
    [unfold minio.get_object | unfold aws.get_object];
    rewrite (bind_ok _ _ _ _ _ Hg), (bind_ok _ _ _ _ _ Hb);
    unfold Minio.get_object; simpl;
    destruct (_ !! b) as [bk|] eqn:E; simpl; rewrite ?E; reflexivity.
Qed.

Lemma upload_object_cached p w c b o path force :
  cached p w = Some c →
  on p minio.upload_object aws.upload_object b o path force w =
  if negb (has_bucket (store_at p w) b) then (Ok false, w)
  else if has_object (store_at p w) b o && negb force
  then (Raise (ValueError conflict_message), w)
  else
    match files w !! path with
    | None => (Ok false, set_store_at p (store_delete (store_at p w) b o) w)
    | Some data =>
        (Ok true,
         set_store_at p
           (store_put (store_delete (store_at p w) b o) b o data) w)
    end.
Proof.
  intros Hc.
  pose proof (bucket_exists_cached p w c b Hc) as Hb.
  pose proof (object_exists_cached p w c b o Hc) as Ho.
  pose proof (delete_object_cached p w c b o Hc) as Hd.
  set (s := store_at p w) in *.
  assert (Hput : ∀ w1 data, store_at p w1 = store_delete s b o →
            files w1 !! path = Some data → has_bucket s b = true →
            Minio.fput_object p c b o path w1 =
            (Ok tt, set_store_at p (store_put (store_delete s b o) b o data) w1)).
  { intros w1 data Hs Hf [bk Hbk]%has_bucket_true.
    unfold Minio.fput_object. rewrite Hf, Hs.
    assert (is_Some (store_delete s b o !! b)) as [bk' Hbk']
      by (apply lookup_store_delete; eauto).
    by rewrite Hbk', (store_put_lookup _ _ _ _ _ Hbk'). }
  assert (Hrest : ∀ w1, store_at p w1 = store_delete s b o →
            files w1 = files w → has_bucket s b = true →
            (pe ← path_exists path;
             if negb pe then mret false
             else Minio.fput_object p c b o path;; mret true) w1 =
            match files w !! path with
            | None => (Ok false, w1)
            | Some data =>
                (Ok true,
                 set_store_at p (store_put (store_delete s b o) b o data) w1)
            end).
  { intros w1 Hs Hf Hbk. rewrite bind_run. unfold path_exists, gets.
    rewrite Hf. destruct (files w !! path) as [data|] eqn:Hp; simpl; [|done].
    rewrite bind_run, (Hput w1 data); [done|done| |done]. by rewrite Hf. }
  destruct (has_bucket s b) eqn:Hhb; simpl.
  2:{ enter p w c Hc;
        [unfold minio.upload_object | unfold aws.upload_object];
        by rewrite (bind_ok _ _ _ _ _ Hg), (bind_ok _ _ _ _ _ Hb). }
  destruct (has_object s b o) eqn:Hho; simpl.
  - destruct force; simpl.
    + enter p w c Hc;
        [unfold minio.upload_object | unfold aws.upload_object];
        rewrite (bind_ok _ _ _ _ _ Hg), (bind_ok _ _ _ _ _ Hb); simpl;
        rewrite (bind_ok _ _ _ _ _ Ho); simpl;
        rewrite bind_run; unfold call; rewrite (bind_ok _ _ _ _ _ Hd); simpl;
        (rewrite Hrest; [|done|done|done]);
        by destruct (files w !! path).
    + enter p w c Hc;
        [unfold minio.upload_object | unfold aws.upload_object];
        by rewrite (bind_ok _ _ _ _ _ Hg), (bind_ok _ _ _ _ _ Hb); simpl;
        rewrite (bind_ok _ _ _ _ _ Ho).
  - assert (store_delete s b o = s) as Hid
      by (by apply store_delete_absent, has_object_false).
    enter p w c Hc;
      [unfold minio.upload_object | unfold aws.upload_object];
      rewrite (bind_ok _ _ _ _ _ Hg), (bind_ok _ _ _ _ _ Hb); simpl;
      rewrite (bind_ok _ _ _ _ _ Ho); simpl;
      rewrite bind_run; simpl;
      (rewrite Hrest; [|by rewrite Hid|done|done]);
      rewrite Hid;
      (destruct (files w !! path); [done|]);
      by destruct w.
Qed.

(** * Worlds used to run the code on concrete inputs *)

Definition example_environ : gmap string string :=
  list_to_map
    [ ("S3_ENDPOINT_LOCAL", "minio:9000"); ("S3_ACCESS_KEY", "key");
      ("S3_SECRET_KEY", "secret") ].

Definition example_bucket (objs : list (string * string)) : Bucket :=
  {| objects := list_to_map objs; notification := [] |}.

(** A process configured for the self-hosted provider, before its first
    call, with the given buckets on that provider. *)
Definition example_world (buckets : list (string * Bucket)) : World :=
  {| environ := example_environ; files := ∅; stdout := [];
     minio_client := None; aws_client := None;
     minio_store := list_to_map buckets; aws_store := ∅;
     sts_grants := [] |}.

Definition project_world : World :=
  example_world
    [ ("proj", example_bucket [("x", "X"); ("y", "Y")]);
      ("archive", example_bucket [("a", "A")]);
      ("3fa85f64-5717-4562-b3fc-2c963f66afa6", example_bucket [("q", "Q")]) ].

(** * The target resolver *)

(** C4: whatever the value of the target selector, absent included,
    [get_current_target] returns without raising; it answers AWS exactly for
    the literal "AWS" and MINIO otherwise, hence never UNKNOWN. *)
Theorem get_current_target_resolves (w : World) :
  controller.get_current_target w =
    (Ok (if bool_decide (environ w !! "S3_TARGET" = Some "AWS")
         then AWS else MINIO), w) ∧
  (controller.get_current_target w).1 ≠ Ok UNKNOWN.
Proof.
  rewrite get_current_target_run. unfold selected.
  case_bool_decide; simpl; split; congruence.
Qed.

(** * Deleting objects *)

(** C8: on a connected adapter, [delete_object] returns without raising; on
    an object that does not exist it returns [False] and changes nothing but
    the cached client; and a second call right after the first returns
    [False] and leaves the world exactly as the first call left it. *)
Theorem delete_object_idempotent (p : Site) (w : World) (b o : string) :
  connected p w →
  ∃ r w1,
    on p minio.delete_object aws.delete_object b o w = (Ok r, w1) ∧
    (find_object (store_at p w) b o = None →
       r = false ∧ w1 = warm p w ∧
       minio_store w1 = minio_store w ∧ aws_store w1 = aws_store w) ∧
    on p minio.delete_object aws.delete_object b o w1 = (Ok false, w1).
Proof.
  intros Hcon. destruct (connected_warm p w Hcon) as [c Hc].
  rewrite (delete_object_warm p w b o Hcon).
  rewrite (delete_object_cached _ _ _ b o Hc).
  rewrite (store_at_warm p p w Hcon).
  eexists _, _. split; [done|]. split.
  - intros Hnone. rewrite (store_delete_absent _ _ _ Hnone).
    rewrite (proj2 (has_object_false _ _ _) Hnone).
    replace (set_store_at p (store_at p w) (warm p w)) with (warm p w)
      by (rewrite <- (store_at_warm p p w Hcon); by rewrite set_store_at_id).
    destruct (warm_frame p w Hcon) as (_ & _ & ? & ? & _). done.
  - assert (cached p (set_store_at p (store_delete (store_at p w) b o) (warm p w))
            = Some c) as Hc' by (by rewrite cached_set_store).
    rewrite (delete_object_cached _ _ _ b o Hc').
    rewrite store_at_set_eq, set_store_at_twice.
    assert (find_object (store_delete (store_at p w) b o) b o = None) as Hgone.
    { rewrite find_object_store_delete. by rewrite decide_True. }
    rewrite (proj2 (has_object_false _ _ _) Hgone).
    by rewrite (store_delete_absent _ _ _ Hgone).
Qed.

Lemma delete_object_idempotent_witness :
  ∃ r w1,
    minio.delete_object "proj" "x" project_world = (Ok r, w1) ∧
    (find_object (minio_store project_world) "proj" "x" = None →
       r = false ∧ w1 = warm SelfHosted project_world ∧
       minio_store w1 = minio_store project_world ∧
       aws_store w1 = aws_store project_world) ∧
    minio.delete_object "proj" "x" w1 = (Ok false, w1).
Proof.
  apply (delete_object_idempotent SelfHosted project_world "proj" "x").
  right. reflexivity.
Defined.

(** * Reading objects *)

(** C6, as the code has it: on a connected adapter, [get_object] on a bucket
    that does not exist returns the empty string without raising; on an
    existing bucket that lacks the object, the provider's [NoSuchKey] error
    reaches the caller. *)
Theorem get_object_not_found (p : Site) (w : World) (b o : string) :
  connected p w →
  (store_at p w !! b = None →
     on p minio.get_object aws.get_object b o w = (Ok "", warm p w)) ∧
  (∀ bk, store_at p w !! b = Some bk → objects bk !! o = None →
     on p minio.get_object aws.get_object b o w =
     (Raise (S3Error "NoSuchKey"), warm p w)).
Proof.
  intros Hcon. destruct (connected_warm p w Hcon) as [c Hc].
  rewrite (get_object_warm p w b o Hcon).
  rewrite (get_object_cached _ _ _ b o Hc).
  rewrite (store_at_warm p p w Hcon). split.
  - by intros ->.
  - by intros bk -> ->.
Qed.

Lemma get_object_not_found_witness :
  (minio_store project_world !! "nope" = None →
     minio.get_object "nope" "x" project_world =
     (Ok "", warm SelfHosted project_world)) ∧
  (∀ bk, minio_store project_world !! "proj" = Some bk →
     objects bk !! "missing" = None →
     minio.get_object "proj" "missing" project_world =
     (Raise (S3Error "NoSuchKey"), warm SelfHosted project_world)).
Proof.
  split.
  - apply (get_object_not_found SelfHosted project_world "nope" "x").
    right. reflexivity.
  - apply (get_object_not_found SelfHosted project_world "proj" "missing").
    right. reflexivity.
Defined.

(** C6 as stated fails: the bucket exists, the object does not, and the
    call raises instead of returning an empty value. *)
Lemma get_object_missing_object_raises :
  find_object (minio_store project_world) "proj" "missing" = None ∧
  ¬ ∃ v w', minio.get_object "proj" "missing" project_world = (Ok v, w').
Proof.
  split; [reflexivity|].
  intros (v & w' & H). vm_compute in H. discriminate.
Qed.

(** * Uploading files *)

(** What [upload_object] does on a connected adapter, case by case. *)
Lemma upload_object_connected p w b o path force :
  connected p w →
  on p minio.upload_object aws.upload_object b o path force w =
  if negb (has_bucket (store_at p w) b) then (Ok false, warm p w)
  else if has_object (store_at p w) b o && negb force
  then (Raise (ValueError conflict_message), warm p w)
  else
    match files w !! path with
    | None =>
        (Ok false, set_store_at p (store_delete (store_at p w) b o) (warm p w))
    | Some data =>
        (Ok true,
         set_store_at p
           (store_put (store_delete (store_at p w) b o) b o data) (warm p w))
    end.
Proof.
  intros Hcon. destruct (connected_warm p w Hcon) as [c Hc].
  rewrite (upload_object_warm p w b o path force Hcon).
  rewrite (upload_object_cached _ _ _ b o path force Hc).
  rewrite (store_at_warm p p w Hcon).
  destruct (warm_frame p w Hcon) as (_ & -> & _). done.
Qed.

Lemma has_object_has_bucket s b o :
  has_object s b o = true → has_bucket s b = true.
Proof.
  intros [d (bk & Hb & _)%find_object_Some]%has_object_true.
  apply has_bucket_true. eauto.
Qed.

(** What [delete_object] does on a connected adapter. *)
Lemma delete_object_connected p w b o :
  connected p w →
  on p minio.delete_object aws.delete_object b o w =
  (Ok (has_object (store_at p w) b o),
   set_store_at p (store_delete (store_at p w) b o) (warm p w)).
Proof.
  intros Hcon. destruct (connected_warm p w Hcon) as [c Hc].
  rewrite (delete_object_warm p w b o Hcon).
  rewrite (delete_object_cached _ _ _ b o Hc).
  by rewrite (store_at_warm p p w Hcon).
Qed.

(** C5, as the code has it: on a connected adapter, [upload_object] raises
    the conflict error exactly when the target object exists and [force] is
    false, and raises nothing else; with [force] true and the object there,
    the call runs [delete_object] first, which leaves a world [w1] without
    the object and with every other object as before, and only then looks
    for the local file: the file is put into [w1], or, when it is missing,
    [w1] is what remains; and when the local file does not exist and no
    conflict is raised, the call returns [False], having deleted the object
    if there was one. *)
Theorem upload_object_conflict (p : Site) (w : World)
    (b o path : string) (force : bool) :
  connected p w →
  let s := store_at p w in
  let run := on p minio.upload_object aws.upload_object b o path force w in
  (run.1 = Raise (ValueError conflict_message) ↔
     has_object s b o = true ∧ force = false) ∧
  (∀ e, run.1 = Raise e → e = ValueError conflict_message) ∧
  (force = true → has_object s b o = true →
     ∃ w1,
       on p minio.delete_object aws.delete_object b o w = (Ok true, w1) ∧
       store_at p w1 = store_delete s b o ∧
       find_object (store_at p w1) b o = None ∧
       (∀ b' o', ¬ (b = b' ∧ o = o') →
          find_object (store_at p w1) b' o' = find_object s b' o') ∧
       run = match files w !! path with
             | Some data =>
                 (Ok true,
                  set_store_at p (store_put (store_at p w1) b o data) w1)
             | None => (Ok false, w1)
             end) ∧
  (∀ data, force = true → has_object s b o = true →
     files w !! path = Some data →
     find_object (store_delete s b o) b o = None ∧
     run = (Ok true,
            set_store_at p (store_put (store_delete s b o) b o data)
              (warm p w))) ∧
  (files w !! path = None →
     ¬ (has_object s b o = true ∧ force = false) →
     run = (Ok false, set_store_at p (store_delete s b o) (warm p w))).
Proof.
  intros Hcon s run. subst run.
  rewrite (upload_object_connected p w b o path force Hcon).
  rewrite (delete_object_connected p w b o Hcon). fold s.
  assert (find_object (store_delete s b o) b o = None) as Hgone.
  { rewrite find_object_store_delete. by rewrite decide_True. }
  assert (has_bucket s b = false →
          set_store_at p (store_delete s b o) (warm p w) = warm p w) as Hsame.
  { intros Hb%has_bucket_false. unfold store_delete. rewrite Hb. unfold s.
    rewrite <- (store_at_warm p p w Hcon). apply set_store_at_id. }
  destruct (has_object s b o) eqn:Ho.
  - rewrite (has_object_has_bucket _ _ _ Ho). simpl.
    destruct force; simpl.
    + split; [split; [by destruct (files w !! path)|by intros [_ ?]]|].
      split; [intros e; by destruct (files w !! path)|].
      split; [|split].
      * intros _ _. eexists. split; [reflexivity|].
        rewrite store_at_set_eq.
        split; [done|]. split; [done|]. split.
        -- intros b' o' Hne. rewrite find_object_store_delete.
           by rewrite decide_False.
        -- destruct (files w !! path); [by rewrite set_store_at_twice|done].
      * intros data _ _ ->. done.
      * by intros -> _.
    + split; [done|]. split; [by intros e [= <-]|].
      split; [done|]. split; [done|]. intros _ Hn. by destruct Hn.
  - simpl. destruct (has_bucket s b) eqn:Hb; simpl.
    + split; [split; [by destruct (files w !! path)|by intros [? _]]|].
      split; [intros e; by destruct (files w !! path)|].
      split; [done|]. split; [done|]. by intros -> _.
    + split; [split; [done|by intros [? _]]|].
      split; [done|]. split; [done|]. split; [done|].
      intros _ _. by rewrite Hsame.
Qed.

Definition upload_world : World :=
  {| environ := example_environ;
     files := {[ "/tmp/new" := "NEW" ]};
     stdout := []; minio_client := None; aws_client := None;
     minio_store := {[ "proj" := example_bucket [("x", "X")] ]};
     aws_store := ∅; sts_grants := [] |}.

Lemma upload_object_conflict_witness :
  ∃ w1,
    minio.delete_object "proj" "x" upload_world = (Ok true, w1) ∧
    minio_store w1 = store_delete (minio_store upload_world) "proj" "x" ∧
    find_object (minio_store w1) "proj" "x" = None ∧
    (∀ b' o', ¬ ("proj" = b' ∧ "x" = o') →
       find_object (minio_store w1) b' o' =
       find_object (minio_store upload_world) b' o') ∧
    minio.upload_object "proj" "x" "/tmp/new" true upload_world =
    (Ok true, set_store_at SelfHosted (store_put (minio_store w1) "proj" "x" "NEW") w1).
Proof.
  apply (proj1 (proj2 (proj2
    (upload_object_conflict SelfHosted upload_world "proj" "x" "/tmp/new" true
       (or_intror eq_refl))))); reflexivity.
Defined.

(** C5 as stated fails: the local file does not exist, yet the call raises
    the conflict error instead of returning [False]. *)
Lemma upload_object_missing_file_raises :
  files project_world !! "/tmp/none" = None ∧
  (minio.upload_object "proj" "x" "/tmp/none" false project_world).1 ≠ Ok false.
Proof. split; [reflexivity|]. vm_compute. discriminate. Qed.

(** C10: on a connected adapter of either kind, [upload_object] with
    [force] true onto an existing object whose local source file is missing
    returns [False] after deleting the object: the object is gone and
    nothing took its place, every other object being as before. *)
Theorem upload_object_force_missing_file (p : Site) (w : World)
    (b o path : string) :
  connected p w →
  has_object (store_at p w) b o = true →
  files w !! path = None →
  ∃ w',
    on p minio.upload_object aws.upload_object b o path true w = (Ok false, w') ∧
    store_at p w' = store_delete (store_at p w) b o ∧
    find_object (store_at p w') b o = None.
Proof.
  intros Hcon Ho Hf.
  rewrite (upload_object_connected p w b o path true Hcon).
  rewrite (has_object_has_bucket _ _ _ Ho), Ho, Hf. simpl.
  eexists. split; [done|]. rewrite store_at_set_eq. split; [done|].
  rewrite find_object_store_delete. by rewrite decide_True.
Qed.

Lemma upload_object_force_missing_file_witness :
  ∃ w',
    minio.upload_object "proj" "x" "/tmp/none" true project_world = (Ok false, w') ∧
    minio_store w' = store_delete (minio_store project_world) "proj" "x" ∧
    find_object (minio_store w') "proj" "x" = None.
Proof.
  apply (upload_object_force_missing_file SelfHosted project_world
           "proj" "x" "/tmp/none").
  - right. reflexivity.
  - reflexivity.
  - reflexivity.
Defined.

(** * Reading a policy document

    How the token service reads the policy it is handed: the statements of
    the document, and for each allowing statement its actions and resources,
    each of which may be a single string or a list of strings. *)

Definition dict_get (key : string) (j : json) : option json :=
  match j with
  | JDict kvs => snd <$> List.find (λ kv, String.eqb kv.1 key) kvs
  | _ => None
  end.

Definition strings_of (j : option json) : list string :=
  match j with
  | Some (JStr s) => [s]
  | Some (JList l) =>
      omap (λ x, match x with JStr s => Some s | _ => None end) l
  | _ => []
  end.

Definition statements (policy : json) : list json :=
  match dict_get "Statement" policy with
  | Some (JList l) => l
  | Some (JDict kvs) => [JDict kvs]
  | _ => []
  end.

Definition allows (statement : json) : bool :=
  match dict_get "Effect" statement with
  | Some (JStr effect) => String.eqb effect "Allow"
  | _ => false
  end.

(** Every (action, resource) pair the policy allows. *)
Definition allowed (policy : json) : list (string * string) :=
  st ← statements policy;
  if allows st then
    a ← strings_of (dict_get "Action" st);
    r ← strings_of (dict_get "Resource" st);
    [(a, r)]
  else [].

(** Read-level and list-level S3 actions. *)
Definition read_only (action : string) : bool :=
  String.prefix "s3:Get" action || String.prefix "s3:List" action.

Definition arn (resource : string) : string := "arn:aws:s3:::" ++ resource.

Definition object_actions : list string :=
  [ "s3:PutObject"; "s3:GetObject"; "s3:DeleteObject";
    "s3:AbortMultipartUpload"; "s3:ListMultipartUploadParts" ].

Definition bucket_actions : list string :=
  [ "s3:GetBucketLocation"; "s3:ListBucket"; "s3:ListBucketMultipartUploads" ].

(** * Issuing credentials *)

(** The world after [if not bucket_exists(b): create_bucket(b)]. *)
Definition ensured (p : Site) (b : string) (w : World) : World :=
  if has_bucket (store_at p w) b then w
  else set_store_at p (<[b := fresh_bucket p]> (store_at p w)) w.

Lemma ensure_bucket_cached p w c b :
  cached p w = Some c →
  can_create p w →
  (be ← on p minio.bucket_exists aws.bucket_exists b;
   when (negb be) (call (on p minio.create_bucket aws.create_bucket b))) w =
  (Ok tt, ensured p b w).
Proof.
  intros Hc Hcr. rewrite (bind_ok _ _ _ _ _ (bucket_exists_cached p w c b Hc)).
  unfold ensured. destruct (has_bucket (store_at p w) b) eqn:Hb; simpl; [done|].
  apply has_bucket_false in Hb. unfold call.
  by rewrite (bind_ok _ _ _ _ _ (create_bucket_cached p w c b Hc Hcr Hb)).
Qed.

Lemma ensured_lookup p b w : is_Some (store_at p (ensured p b w) !! b).
Proof.
  unfold ensured. destruct (has_bucket (store_at p w) b) eqn:Hb.
  - by apply has_bucket_true.
  - rewrite store_at_set_eq, lookup_insert_eq. eauto.
Qed.

Lemma ensured_lookup_ne p b b' w :
  b' ≠ b → store_at p (ensured p b w) !! b' = store_at p w !! b'.
Proof.
  intros Hne. unfold ensured. destruct (has_bucket (store_at p w) b); [done|].
  rewrite store_at_set_eq. by rewrite lookup_insert_ne.
Qed.

Lemma ensured_grants p b w : sts_grants (ensured p b w) = sts_grants w.
Proof. unfold ensured. destruct (has_bucket _ _); [done|]. by destruct p. Qed.

Lemma can_create_warm p w : connected p w → can_create p w → can_create p (warm p w).
Proof.
  intros Hcon H. destruct (warm_frame p w Hcon) as (He & _).
  destruct p; simpl in *; [done|]. by rewrite He.
Qed.

(** The policy each adapter asks the token service to attach. *)
Definition upload_policy_of (p : Site) (b : string) : json :=
  on p (minio.upload_policy b) (aws.upload_policy b).

Definition download_policy_of (p : Site) (b o : string) : json :=
  on p (minio.download_policy b o) (aws.download_policy b o).

(** The block [assume_role] returns names the request it answers: its
    serial number is the position of the request among the grants, and it
    expires after the duration asked for. *)
Lemma assume_role_issues (g : AssumeRole) (w : World) creds w' :
  assume_role (sts g) (RoleArn g) (RoleSessionName g) (Policy g)
    (DurationSeconds g) w = (Ok creds, w') →
  sts_grants w' = (sts_grants w ++ [g])%list ∧
  sts_grants w' !! AccessKeyId creds = Some g ∧
  Expiration creds = DurationSeconds g ∧
  minio_store w' = minio_store w ∧ aws_store w' = aws_store w.
Proof.
  unfold assume_role. intros [= <- <-]. destruct g. simpl.
  split; [done|]. split; [|done].
  rewrite lookup_app_r by done. by rewrite Nat.sub_diag.
Qed.

(** [get_upload_credentials_and_id] on a connected adapter: the bucket is
    made sure of, and what is returned is the answer of the token service to
    one request, made with the upload policy of the adapter. *)
Lemma get_upload_credentials_issued p w b :
  connected p w → can_create p w →
  ∃ creds w' g,
    on p minio.get_upload_credentials_and_id
         aws.get_upload_credentials_and_id b w = (Ok creds, w') ∧
    assume_role (sts g) (RoleArn g) (RoleSessionName g) (Policy g)
      (DurationSeconds g) (ensured p b (warm p w)) = (Ok creds, w') ∧
    Policy g = upload_policy_of p b ∧
    DurationSeconds g = on p 12000 3600.
Proof.
  intros Hcon Hcr. destruct (connected_warm p w Hcon) as [c Hc].
  pose proof (ensure_bucket_cached p _ c b Hc (can_create_warm p w Hcon Hcr)) as He.
  pose proof (bucket_exists_warm p w b Hcon) as Hw.
  pose proof (get_client_connected p w Hcon) as (c' & Hg & Hc').
  destruct p; simpl in *.
  - unfold minio.get_upload_credentials_and_id.
    rewrite !bind_run. rewrite bind_run in He. rewrite Hw.
    destruct (minio.bucket_exists b (warm SelfHosted w)) as [[be|e] w1]; [|done].
    rewrite (bind_ok _ _ _ _ _ He).
    eexists _, _, {| sts := _; RoleArn := _; RoleSessionName := _;
                     Policy := _; DurationSeconds := _ |}.
    split; [reflexivity|]. simpl. split; [reflexivity|]. done.
  - unfold aws.get_upload_credentials_and_id.
    rewrite (bind_ok _ _ _ _ _ Hg).
    rewrite !bind_run. rewrite bind_run in He.
    destruct (aws.bucket_exists b (warm Cloud w)) as [[be|e] w1]; [|done].
    rewrite (bind_ok _ _ _ _ _ He).
    eexists _, _, {| sts := _; RoleArn := _; RoleSessionName := _;
                     Policy := _; DurationSeconds := _ |}.
    split; [reflexivity|]. simpl. split; [reflexivity|]. done.
Qed.

Lemma get_download_credentials_issued p w b o :
  connected p w → can_create p w →
  ∃ creds w' g,
    on p minio.get_download_credentials
         aws.get_download_credentials b o w = (Ok creds, w') ∧
    assume_role (sts g) (RoleArn g) (RoleSessionName g) (Policy g)
      (DurationSeconds g) (ensured p b (warm p w)) = (Ok creds, w') ∧
    Policy g = download_policy_of p b o ∧
    DurationSeconds g = on p 12000 3600.
Proof.
  intros Hcon Hcr. destruct (connected_warm p w Hcon) as [c Hc].
  pose proof (ensure_bucket_cached p _ c b Hc (can_create_warm p w Hcon Hcr)) as He.
  pose proof (bucket_exists_warm p w b Hcon) as Hw.
  destruct p; simpl in *;
    [unfold minio.get_download_credentials
    |unfold aws.get_download_credentials];
    rewrite !bind_run; rewrite bind_run in He; rewrite Hw;
    (destruct (_ b (warm _ w)) as [[be|e] w1]; [|done]);
    rewrite (bind_ok _ _ _ _ _ He);
    (eexists _, _, {| sts := _; RoleArn := _; RoleSessionName := _;
                      Policy := _; DurationSeconds := _ |};
     split; [reflexivity|]); simpl; (split; [reflexivity|]); done.
Qed.

Lemma get_upload_credentials_run p w b :
  connected p w → can_create p w →
  ∃ creds w' g,
    on p minio.get_upload_credentials_and_id
         aws.get_upload_credentials_and_id b w = (Ok creds, w') ∧
    sts_grants w' = (sts_grants w ++ [g])%list ∧
    Policy g = upload_policy_of p b ∧
    store_at p w' = store_at p (ensured p b (warm p w)).
Proof.
  intros Hcon Hcr.
  destruct (get_upload_credentials_issued p w b Hcon Hcr)
    as (creds & w' & g & Hrun & Hg & Hp & _).
  destruct (assume_role_issues _ _ _ _ Hg) as (Hgs & _ & _ & Hm & Ha).
  rewrite ensured_grants in Hgs.
  destruct (warm_frame p w Hcon) as (_ & _ & _ & _ & Hgw). rewrite Hgw in Hgs.
  exists creds, w', g. repeat split; try done. by destruct p.
Qed.

Lemma get_download_credentials_run p w b o :
  connected p w → can_create p w →
  ∃ creds w' g,
    on p minio.get_download_credentials
         aws.get_download_credentials b o w = (Ok creds, w') ∧
    sts_grants w' = (sts_grants w ++ [g])%list ∧
    Policy g = download_policy_of p b o ∧
    store_at p w' = store_at p (ensured p b (warm p w)).
Proof.
  intros Hcon Hcr.
  destruct (get_download_credentials_issued p w b o Hcon Hcr)
    as (creds & w' & g & Hrun & Hg & Hp & _).
  destruct (assume_role_issues _ _ _ _ Hg) as (Hgs & _ & _ & Hm & Ha).
  rewrite ensured_grants in Hgs.
  destruct (warm_frame p w Hcon) as (_ & _ & _ & _ & Hgw). rewrite Hgw in Hgs.
  exists creds, w', g. repeat split; try done. by destruct p.
Qed.

Definition cloud_environ : gmap string string :=
  list_to_map
    [ ("S3_TARGET", "AWS"); ("S3_AWS_ENDPOINT", "s3.amazonaws.com");
      ("S3_AWS_REGION", "eu-west-1"); ("S3_AWS_ACCESS_KEY", "key");
      ("S3_AWS_SECRET_KEY", "secret") ].

(** A process configured for the cloud provider, before its first call. *)
Definition cloud_world : World :=
  {| environ := cloud_environ; files := ∅; stdout := [];
     minio_client := None; aws_client := None;
     minio_store := ∅;
     aws_store := {[ "proj" := example_bucket [("x", "X"); ("y", "Y")] ]};
     sts_grants := [] |}.

(** C3, as the code has it: on a connected adapter that can create
    buckets, [get_upload_credentials_and_id] makes one request to the token
    service and returns its answer: the block names that request and
    expires after the duration asked for.  The policy of the request allows
    nothing beyond put/get/delete/multipart actions on [bucket/*] and
    location/listing actions on [bucket]: the cloud policy allows all of
    these, the self-hosted one only [s3:PutObject] on [bucket/*].  The
    bucket exists afterwards and no other bucket is touched. *)
Theorem get_upload_credentials_scope (p : Site) (w : World) (b : string) :
  connected p w → can_create p w →
  ∃ creds w' g,
    on p minio.get_upload_credentials_and_id
         aws.get_upload_credentials_and_id b w = (Ok creds, w') ∧
    assume_role (sts g) (RoleArn g) (RoleSessionName g) (Policy g)
      (DurationSeconds g) (ensured p b (warm p w)) = (Ok creds, w') ∧
    sts_grants w' = (sts_grants w ++ [g])%list ∧
    sts_grants w' !! AccessKeyId creds = Some g ∧
    Expiration creds = DurationSeconds g ∧
    DurationSeconds g = on p 12000 3600 ∧
    (∀ a r, (a, r) ∈ allowed (Policy g) →
       (r = arn (b ++ "/*") ∧ a ∈ object_actions) ∨
       (r = arn b ∧ a ∈ bucket_actions)) ∧
    allowed (Policy g) =
      on p [ ("s3:PutObject", arn (b ++ "/*")) ]
           [ ("s3:AbortMultipartUpload", arn (b ++ "/*"));
             ("s3:DeleteObject", arn (b ++ "/*"));
             ("s3:ListMultipartUploadParts", arn (b ++ "/*"));
             ("s3:PutObject", arn (b ++ "/*"));
             ("s3:GetObject", arn (b ++ "/*"));
             ("s3:GetBucketLocation", arn b);
             ("s3:ListBucket", arn b);
             ("s3:ListBucketMultipartUploads", arn b) ] ∧
    is_Some (store_at p w' !! b) ∧
    (∀ b', b' ≠ b → store_at p w' !! b' = store_at p w !! b').
Proof.
  intros Hcon Hcr.
  destruct (get_upload_credentials_issued p w b Hcon Hcr)
    as (creds & w' & g & Hrun & Hg & Hp & Hd).
  destruct (assume_role_issues _ _ _ _ Hg) as (Hgs & Hi & Hx & Hm & Ha).
  assert (store_at p w' = store_at p (ensured p b (warm p w))) as Hs
    by (by destruct p).
  rewrite ensured_grants in Hgs.
  destruct (warm_frame p w Hcon) as (_ & _ & _ & _ & Hgw). rewrite Hgw in Hgs.
  exists creds, w', g. do 6 (split; [done|]).
  rewrite Hp, Hs. split; [|split; [|split]].
  - intros a r Hin. destruct p; simpl in Hin.
    + apply list_elem_of_singleton in Hin as [= -> ->]. left.
      split; [done|]. unfold object_actions. set_solver.
    + unfold object_actions, bucket_actions.
      repeat (apply elem_of_cons in Hin as [[= -> ->]|Hin];
              [first [left; split; [reflexivity|set_solver]
                     |right; split; [reflexivity|set_solver]]|]).
      by apply elem_of_nil in Hin.
  - by destruct p.
  - apply ensured_lookup.
  - intros b' Hne. rewrite (ensured_lookup_ne p b b' _ Hne).
    by rewrite (store_at_warm p p w Hcon).
Qed.

Lemma get_upload_credentials_scope_witness :
  ∃ creds w' g,
    aws.get_upload_credentials_and_id "fresh" cloud_world = (Ok creds, w') ∧
    assume_role (sts g) (RoleArn g) (RoleSessionName g) (Policy g)
      (DurationSeconds g) (ensured Cloud "fresh" (warm Cloud cloud_world)) =
      (Ok creds, w') ∧
    sts_grants w' = (sts_grants cloud_world ++ [g])%list ∧
    sts_grants w' !! AccessKeyId creds = Some g ∧
    Expiration creds = DurationSeconds g ∧
    DurationSeconds g = 3600 ∧
    (∀ a r, (a, r) ∈ allowed (Policy g) →
       (r = arn ("fresh" ++ "/*") ∧ a ∈ object_actions) ∨
       (r = arn "fresh" ∧ a ∈ bucket_actions)) ∧
    allowed (Policy g) =
      [ ("s3:AbortMultipartUpload", arn ("fresh" ++ "/*"));
        ("s3:DeleteObject", arn ("fresh" ++ "/*"));
        ("s3:ListMultipartUploadParts", arn ("fresh" ++ "/*"));
        ("s3:PutObject", arn ("fresh" ++ "/*"));
        ("s3:GetObject", arn ("fresh" ++ "/*"));
        ("s3:GetBucketLocation", arn "fresh");
        ("s3:ListBucket", arn "fresh");
        ("s3:ListBucketMultipartUploads", arn "fresh") ] ∧
    is_Some (aws_store w' !! "fresh") ∧
    (∀ b', b' ≠ "fresh" → aws_store w' !! b' = aws_store cloud_world !! b').
Proof.
  apply (get_upload_credentials_scope Cloud cloud_world "fresh").
  - right. reflexivity.
  - reflexivity.
Defined.

(** C3 as stated fails in the self-hosted variant: the one request made to
    the token service carries a policy that allows [s3:PutObject] on
    [proj/*] and nothing else; get, delete and multipart actions on
    [proj/*] and location and listing actions on [proj] are not allowed. *)
Lemma get_upload_credentials_scope_differs :
  ∃ creds w' g,
    minio.get_upload_credentials_and_id "proj" project_world = (Ok creds, w') ∧
    sts_grants w' = [g] ∧
    allowed (Policy g) = [ ("s3:PutObject", arn "proj/*") ] ∧
    (("s3:GetObject", arn "proj/*") ∉ allowed (Policy g)) ∧
    (("s3:DeleteObject", arn "proj/*") ∉ allowed (Policy g)) ∧
    (("s3:AbortMultipartUpload", arn "proj/*") ∉ allowed (Policy g)) ∧
    (("s3:ListMultipartUploadParts", arn "proj/*") ∉ allowed (Policy g)) ∧
    (("s3:GetBucketLocation", arn "proj") ∉ allowed (Policy g)) ∧
    (("s3:ListBucket", arn "proj") ∉ allowed (Policy g)) ∧
    (("s3:ListBucketMultipartUploads", arn "proj") ∉ allowed (Policy g)).
Proof.
  eexists _, _, _. split; [vm_compute; reflexivity|].
  split; [reflexivity|]. split; [reflexivity|].
  repeat split; intros [=]%list_elem_of_singleton.
Qed.

(** C2, as the code has it: on a connected adapter that can create buckets,
    [get_download_credentials] makes one request to the token service and
    returns its answer: the block names that request and expires after the
    duration asked for.  The policy of the request, in the self-hosted
    variant, allows [s3:GetObject] on the single object [bucket/object] and
    nothing else, and in the cloud variant allows get, put, delete and
    multipart actions on [bucket] and [bucket/*] together with
    bucket-location and multipart-listing on [bucket]. *)
Theorem get_download_credentials_scope (p : Site) (w : World) (b o : string) :
  connected p w → can_create p w →
  ∃ creds w' g,
    on p minio.get_download_credentials
         aws.get_download_credentials b o w = (Ok creds, w') ∧
    assume_role (sts g) (RoleArn g) (RoleSessionName g) (Policy g)
      (DurationSeconds g) (ensured p b (warm p w)) = (Ok creds, w') ∧
    sts_grants w' = (sts_grants w ++ [g])%list ∧
    sts_grants w' !! AccessKeyId creds = Some g ∧
    Expiration creds = DurationSeconds g ∧
    DurationSeconds g = on p 12000 3600 ∧
    allowed (Policy g) =
      on p [ ("s3:GetObject", arn (b ++ "/" ++ o)) ]
           [ ("s3:GetObject", arn b); ("s3:GetObject", arn (b ++ "/*"));
             ("s3:PutObject", arn b); ("s3:PutObject", arn (b ++ "/*"));
             ("s3:DeleteObject", arn b); ("s3:DeleteObject", arn (b ++ "/*"));
             ("s3:ListMultipartUploadParts", arn b);
             ("s3:ListMultipartUploadParts", arn (b ++ "/*"));
             ("s3:AbortMultipartUpload", arn b);
             ("s3:AbortMultipartUpload", arn (b ++ "/*"));
             ("s3:GetBucketLocation", arn b);
             ("s3:ListBucketMultipartUploads", arn b) ].
Proof.
  intros Hcon Hcr.
  destruct (get_download_credentials_issued p w b o Hcon Hcr)
    as (creds & w' & g & Hrun & Hg & Hp & Hd).
  destruct (assume_role_issues _ _ _ _ Hg) as (Hgs & Hi & Hx & _).
  rewrite ensured_grants in Hgs.
  destruct (warm_frame p w Hcon) as (_ & _ & _ & _ & Hgw). rewrite Hgw in Hgs.
  exists creds, w', g. do 6 (split; [done|]).
  rewrite Hp. by destruct p.
Qed.

Lemma get_download_credentials_scope_witness :
  ∃ creds w' g,
    minio.get_download_credentials "proj" "x" project_world = (Ok creds, w') ∧
    assume_role (sts g) (RoleArn g) (RoleSessionName g) (Policy g)
      (DurationSeconds g)
      (ensured SelfHosted "proj" (warm SelfHosted project_world)) =
      (Ok creds, w') ∧
    sts_grants w' = (sts_grants project_world ++ [g])%list ∧
    sts_grants w' !! AccessKeyId creds = Some g ∧
    Expiration creds = DurationSeconds g ∧
    DurationSeconds g = 12000 ∧
    allowed (Policy g) = [ ("s3:GetObject", arn ("proj" ++ "/" ++ "x")) ].
Proof.
  apply (get_download_credentials_scope SelfHosted project_world "proj" "x").
  - right. reflexivity.
  - exact I.
Defined.

(** C2 as stated fails in both variants: the cloud credentials are not
    confined to read-only actions on the single object (they allow
    [s3:PutObject] on the bucket), and the self-hosted credentials are
    scoped to the single object, not to the bucket. *)
Lemma get_download_credentials_scope_differs :
  ¬ (∀ g a r,
       g ∈ sts_grants (aws.get_download_credentials "proj" "x" cloud_world).2 →
       (a, r) ∈ allowed (Policy g) →
       read_only a = true ∧ r = arn "proj/x") ∧
  ¬ (∀ g a r,
       g ∈ sts_grants (minio.get_download_credentials "proj" "x" project_world).2 →
       (a, r) ∈ allowed (Policy g) →
       read_only a = true ∧ r = arn "proj").
Proof.
  split.
  - intros H.
    destruct (H
      {| sts := {| region_name := None; endpoint_url := None;
                   aws_access_key_id := None; aws_secret_access_key := None;
                   use_ssl := false |};
         RoleArn := "arn:aws:iam::151980777696:role/s3-download-files-role-for-minio";
         RoleSessionName := "S3DownloadFilesFromMinioSession";
         Policy := aws.download_policy "proj" "x";
         DurationSeconds := 3600 |}
      "s3:PutObject" (arn "proj")) as [Hro _].
    + vm_compute. apply list_elem_of_here.
    + vm_compute. repeat first [apply list_elem_of_here | apply list_elem_of_further].
    + vm_compute in Hro. discriminate.
  - intros H.
    destruct (H
      {| sts := {| region_name := Some "eu-west-1"; endpoint_url := None;
                   aws_access_key_id := Some "key";
                   aws_secret_access_key := Some "secret";
                   use_ssl := false |};
         RoleArn := "arn:x:ignored:by:minio:";
         RoleSessionName := "ignored-by-minio";
         Policy := minio.download_policy "proj" "x";
         DurationSeconds := 12000 |}
      "s3:GetObject" (arn "proj/x")) as [_ Hr].
    + vm_compute. apply list_elem_of_here.
    + vm_compute. repeat first [apply list_elem_of_here | apply list_elem_of_further].
    + vm_compute in Hr. discriminate.
Qed.

(** * The facade on a connected world *)

Lemma ready_warm w : connected (selected w) w → ready (selected w) (warm (selected w) w).
Proof.
  intros Hcon. destruct (connected_warm _ w Hcon) as [c Hc].
  destruct (warm_frame _ w Hcon) as (He & _).
  split; [eauto|]. unfold selected at 1. by rewrite He.
Qed.

Lemma facade_bucket_exists_connected w b :
  connected (selected w) w →
  controller.bucket_exists b w =
  (Ok (has_bucket (store_at (selected w) w) b), warm (selected w) w).
Proof.
  intros Hcon. destruct (connected_warm _ w Hcon) as [c Hc].
  unfold controller.bucket_exists.
  rewrite (bind_ok _ _ _ _ _ (get_current_target_run w)).
  pose proof (bucket_exists_warm _ w b Hcon) as Hw.
  pose proof (bucket_exists_cached _ _ c b Hc) as Hb.
  rewrite (store_at_warm _ _ w Hcon) in Hb.
  destruct (selected w); simpl in *; by rewrite Hw.
Qed.

Lemma facade_get_all_buckets_connected w :
  connected (selected w) w →
  controller.get_all_buckets w =
  (Ok (Some (map_to_list (store_at (selected w) w)).*1), warm (selected w) w).
Proof.
  intros Hcon. destruct (connected_warm _ w Hcon) as [c Hc].
  unfold controller.get_all_buckets.
  rewrite (bind_ok _ _ _ _ _ (get_current_target_run w)).
  pose proof (get_all_buckets_warm _ w Hcon) as Hw.
  pose proof (get_all_buckets_cached _ _ c Hc) as Hb.
  rewrite (store_at_warm _ _ w Hcon) in Hb.
  destruct (selected w); simpl in *; by rewrite fmap_run, Hw, Hb.
Qed.

(** * Emptying the storage *)

Lemma lookup_foldl_delete (l : list string) (m : gmap string string) k :
  foldl (λ m o, delete o m) m l !! k =
  if decide (k ∈ l) then None else m !! k.
Proof.
  revert m. induction l as [|x l IH]; intros m.
  - done.
  - cbn [foldl]. rewrite IH. destruct (decide (k ∈ l)) as [Hin|Hnin].
    + by rewrite decide_True by (by right).
    + destruct (decide (k = x)) as [->|Hne].
      * rewrite decide_True by left. apply lookup_delete_eq.
      * rewrite decide_False by (by intros [?|?]%elem_of_cons).
        by apply lookup_delete_ne.
Qed.

Lemma foldl_store_delete (b : string) (l : list string) s bk :
  s !! b = Some bk →
  foldl (λ s o, store_delete s b o) s l =
  <[b := set_objects (foldl (λ m o, delete o m) (objects bk) l) bk]> s.
Proof.
  revert s bk. induction l as [|x l IH]; intros s bk Hb; simpl.
  - rewrite set_objects_id. by rewrite insert_id.
  - rewrite (store_delete_lookup _ _ _ _ Hb).
    erewrite IH by apply lookup_insert_eq. simpl.
    by rewrite insert_insert_eq.
Qed.

(** Deleting every listed object of a bucket leaves the bucket empty. *)
Lemma foldl_store_delete_all (b : string) s bk :
  s !! b = Some bk →
  foldl (λ s o, store_delete s b o) s (names None bk) =
  <[b := set_objects ∅ bk]> s.
Proof.
  intros Hb. rewrite (foldl_store_delete b _ s bk Hb). do 2 f_equal.
  apply map_eq. intros k. rewrite lookup_foldl_delete, lookup_empty.
  case_decide as Hin; [done|].
  destruct (objects bk !! k) eqn:Hk; [|done].
  exfalso. apply Hin, names_elem. eauto.
Qed.

(** What one round of the outer loop of [empty_storage] does. *)
Definition wipe (only_uuid : bool) (s : gmap string Bucket) (b : string)
    : gmap string Bucket :=
  if only_uuid && negb (controller.__is_uuid b) then s else delete b s.

Lemma lookup_foldl_wipe only_uuid (l : list string) s k :
  foldl (wipe only_uuid) s l !! k =
  if decide (k ∈ l ∧ (only_uuid && negb (controller.__is_uuid k)) = false)
  then None else s !! k.
Proof.
  revert s. induction l as [|x l IH]; intros s.
  - cbn [foldl]. rewrite decide_False; [done|]. by intros [?%elem_of_nil _].
  - cbn [foldl]. rewrite IH. unfold wipe.
    destruct (decide (k ∈ l ∧ _)) as [[Hin Hd]|Hn].
    + rewrite decide_True; [done|]. split; [by right|done].
    + destruct (decide (k = x)) as [->|Hne].
      * destruct (only_uuid && negb (controller.__is_uuid x)) eqn:Hg.
        -- rewrite decide_False; [done|]. by intros [_ ?].
        -- rewrite decide_True; [|split; [left|done]]. apply lookup_delete_eq.
      * rewrite decide_False.
        2:{ intros [[?|?]%elem_of_cons ?]; [done|]. by apply Hn. }
        destruct (only_uuid && negb (controller.__is_uuid x)); [done|].
        by apply lookup_delete_ne.
Qed.

Lemma iter_run l w : controller.iter (Some l) w = (Ok l, w).
Proof. reflexivity. Qed.

Lemma call_run {A} (m : M A) w a w' : m w = (Ok a, w') → call m w = (Ok tt, w').
Proof. intros H. unfold call. by rewrite (bind_ok _ _ _ _ _ H). Qed.

(** The inner loop: every object the listing returned is deleted. *)
Lemma delete_objects_run p w b l :
  ready p w →
  for_each l (λ object, call (controller.delete_object b object)) w =
  (Ok tt, set_store_at p (foldl (λ s o, store_delete s b o) (store_at p w) l) w).
Proof.
  intros Hr.
  apply (for_each_fold p _ (λ s o, store_delete s b o) (λ _ _, True)); try done.
  intros x _ w1 Hr1 _. apply (call_run _ _ _ _ (facade_delete_object p w1 b x Hr1)).
Qed.

Lemma empty_storage_round p w only_uuid b :
  ready p w →
  is_Some (store_at p w !! b) →
  (if only_uuid && negb (controller.__is_uuid b) then mret tt
   else
     objs ← controller.get_bucket_objects b None;
     objs ← controller.iter objs;
     for_each objs (λ object, call (controller.delete_object b object));;
     call (controller.remove_bucket b false)) w =
  (Ok tt, set_store_at p (wipe only_uuid (store_at p w) b) w).
Proof.
  intros Hr [bk Hb]. unfold wipe.
  destruct (only_uuid && negb (controller.__is_uuid b)).
  { by rewrite set_store_at_id. }
  rewrite (bind_ok _ _ _ _ _ (facade_get_bucket_objects p w b bk None Hr Hb)).
  rewrite (bind_ok _ _ _ _ _ (iter_run _ w)).
  rewrite (bind_ok _ _ _ _ _ (delete_objects_run p w b _ Hr)).
  rewrite (foldl_store_delete_all b _ bk Hb).
  set (w1 := set_store_at p _ w).
  assert (ready p w1) as Hr1 by (by apply ready_set_store).
  assert (store_at p w1 !! b = Some (set_objects ∅ bk)) as Hb1.
  { unfold w1. by rewrite store_at_set_eq, lookup_insert_eq. }
  pose proof (facade_remove_bucket p w1 b _ Hr1 Hb1) as Hrm.
  rewrite decide_True in Hrm by done.
  rewrite (call_run _ _ _ _ Hrm). unfold w1.
  by rewrite store_at_set_eq, set_store_at_twice, delete_insert_eq.
Qed.

Lemma empty_storage_ready p w only_uuid :
  ready p w →
  controller.empty_storage true only_uuid w =
  (Ok true,
   set_store_at p
     (foldl (wipe only_uuid) (store_at p w) (map_to_list (store_at p w)).*1) w).
Proof.
  intros Hr. unfold controller.empty_storage. rewrite bind_run. simpl.
  rewrite (bind_ok _ _ _ _ _ (facade_get_all_buckets p w Hr)).
  rewrite (bind_ok _ _ _ _ _ (iter_run _ w)).
  rewrite (for_each_fold p _ (wipe only_uuid)
             (λ l s, NoDup l ∧ ∀ b, b ∈ l → is_Some (s !! b))); try done.
  - intros x l s [Hnd Hin]. apply NoDup_cons in Hnd as [Hx Hnd].
    split; [done|]. intros b Hb. unfold wipe.
    destruct (only_uuid && negb (controller.__is_uuid x)).
    + apply Hin. by right.
    + rewrite lookup_delete_ne by (by intros ->). apply Hin. by right.
  - intros x l w1 Hr1 [_ Hin].
    apply (empty_storage_round p w1 only_uuid x Hr1). apply Hin. left.
  - split; [apply NoDup_fst_map_to_list|].
    intros b ([k v] & -> & Hkv%elem_of_map_to_list)%list_elem_of_fmap. eauto.
Qed.

(** * Archiving a bucket *)

Definition archive_key (bucket name : string) : string :=
  String.concat "/" [bucket; name].

Lemma archive_key_app bucket name : archive_key bucket name = bucket ++ "/" ++ name.
Proof. reflexivity. Qed.

Lemma string_length_app (s1 s2 : string) :
  String.length (s1 ++ s2) = (String.length s1 + String.length s2)%nat.
Proof. induction s1 as [|a s1 IH]; simpl; [done|]. by rewrite IH. Qed.

Lemma archive_key_ne bucket name : archive_key bucket name ≠ name.
Proof.
  intros H%(f_equal String.length). rewrite archive_key_app in H.
  rewrite !string_length_app in H. simpl in H. lia.
Qed.

Lemma archive_key_inj bucket n1 n2 :
  archive_key bucket n1 = archive_key bucket n2 → n1 = n2.
Proof.
  rewrite !archive_key_app. intros H%String.app_inj. by injection H.
Qed.

(** What one round of the loop of [archive_bucket] does to the store. *)
Definition archive_step (bucket : string) (delete_existing : bool)
    (s : gmap string Bucket) (name : string) : gmap string Bucket :=
  let key := archive_key bucket name in
  let s1 := store_delete s controller.ARCHIVE_BUCKET key in
  match find_object s1 bucket name with
  | Some data =>
      let s2 := store_put s1 controller.ARCHIVE_BUCKET key data in
      if delete_existing then store_delete s2 bucket name else s2
  | None => s1
  end.

Lemma archive_step_lookup bucket de s name b :
  is_Some (archive_step bucket de s name !! b) ↔ is_Some (s !! b).
Proof.
  unfold archive_step. destruct (find_object _ bucket name); [destruct de|];
    by rewrite ?lookup_store_delete, ?lookup_store_put, ?lookup_store_delete.
Qed.

Lemma foldl_archive_step_lookup bucket de l s b :
  is_Some (foldl (archive_step bucket de) s l !! b) ↔ is_Some (s !! b).
Proof.
  revert s. induction l as [|x l IH]; intros s; [done|].
  cbn [foldl]. by rewrite IH, archive_step_lookup.
Qed.

(** The loop deletes nothing it still has to copy. *)
Definition archive_inv (bucket : string) (l : list string)
    (s : gmap string Bucket) : Prop :=
  NoDup l ∧ is_Some (s !! controller.ARCHIVE_BUCKET) ∧
  ∀ n, n ∈ l → is_Some (find_object s bucket n).

Lemma archive_inv_step bucket de x l s :
  archive_inv bucket (x :: l) s → archive_inv bucket l (archive_step bucket de s x).
Proof.
  intros (Hnd & Ha & Hin). apply NoDup_cons in Hnd as [Hx Hnd].
  split; [done|]. split; [by apply archive_step_lookup|].
  intros n Hn. assert (n ≠ x) as Hne by (by intros ->).
  destruct (Hin n) as [d Hd]; [by right|].
  destruct (Hin x) as [dx Hdx]; [left|].
  unfold archive_step.
  rewrite find_object_store_delete.
  rewrite decide_False by (intros [_ ?]; by eapply archive_key_ne).
  rewrite Hdx.
  assert (is_Some (find_object
            (store_put (store_delete s controller.ARCHIVE_BUCKET (archive_key bucket x))
               controller.ARCHIVE_BUCKET (archive_key bucket x) dx) bucket n)) as Hput.
  { rewrite find_object_store_put. case_decide.
    - rewrite (proj2 (has_bucket_true _ _)); [eauto|].
      by apply lookup_store_delete.
    - rewrite find_object_store_delete. case_decide as Hk; [|by rewrite Hd; eauto].
      exfalso. tauto. }
  destruct de; [|done].
  rewrite find_object_store_delete.
  by rewrite decide_False by (by intros [_ ?]).
Qed.

Lemma archive_round p w bucket de x l :
  ready p w →
  archive_inv bucket (x :: l) (store_at p w) →
  (let archive_object_name := String.concat "/" [bucket; x] in
   oe ← controller.object_exists controller.ARCHIVE_BUCKET archive_object_name;
   when oe (call (controller.delete_object controller.ARCHIVE_BUCKET
                    archive_object_name));;
   controller.copy_object bucket x controller.ARCHIVE_BUCKET archive_object_name;;
   when de (call (controller.delete_object bucket x))) w =
  (Ok tt, set_store_at p (archive_step bucket de (store_at p w) x) w).
Proof.
  intros Hr (_ & Ha & Hin). destruct (Hin x) as [d Hd]; [left|].
  cbv zeta. fold (archive_key bucket x).
  set (s := store_at p w) in *. set (key := archive_key bucket x).
  rewrite (bind_ok _ _ _ _ _ (facade_object_exists p w _ key Hr)). fold s.
  set (s1 := store_delete s controller.ARCHIVE_BUCKET key).
  set (w1 := set_store_at p s1 w).
  assert (when (has_object s controller.ARCHIVE_BUCKET key)
            (call (controller.delete_object controller.ARCHIVE_BUCKET key)) w
          = (Ok tt, w1)) as Hdel.
  { destruct (has_object s controller.ARCHIVE_BUCKET key) eqn:Ho; simpl.
    - by rewrite (call_run _ _ _ _ (facade_delete_object p w _ key Hr)).
    - unfold w1, s1. apply has_object_false in Ho.
      rewrite (store_delete_absent _ _ _ Ho). unfold s.
      by rewrite set_store_at_id. }
  rewrite (bind_ok _ _ _ _ _ Hdel).
  assert (ready p w1) as Hr1 by (by apply ready_set_store).
  assert (store_at p w1 = s1) as Hs1 by apply store_at_set_eq.
  assert (find_object s1 bucket x = Some d) as Hd1.
  { unfold s1. rewrite find_object_store_delete.
    by rewrite decide_False by (intros [_ ?]; by eapply archive_key_ne). }
  assert (is_Some (s1 !! controller.ARCHIVE_BUCKET)) as Ha1
    by (by apply lookup_store_delete).
  pose proof (facade_copy_object p w1 bucket x controller.ARCHIVE_BUCKET key d Hr1)
    as Hcp.
  rewrite Hs1 in Hcp. specialize (Hcp Hd1 Ha1).
  rewrite (bind_ok _ _ _ _ _ Hcp).
  unfold archive_step. fold key s1. rewrite Hd1. unfold w1.
  rewrite set_store_at_twice.
  destruct de; simpl; [|done].
  set (w2 := set_store_at p _ w).
  assert (ready p w2) as Hr2 by (by apply ready_set_store).
  rewrite (call_run _ _ _ _ (facade_delete_object p w2 bucket x Hr2)).
  unfold w2. by rewrite store_at_set_eq, set_store_at_twice.
Qed.

(** The store [archive_bucket] leaves behind when the bucket exists. *)
Definition archive_store (p : Site) (bucket : string) (prefix : option string)
    (delete_existing : bool) (s : gmap string Bucket) : gmap string Bucket :=
  let s0 :=
    if has_bucket s controller.ARCHIVE_BUCKET then s
    else <[controller.ARCHIVE_BUCKET := fresh_bucket p]> s in
  match s0 !! bucket with
  | Some bk =>
      let s1 := foldl (archive_step bucket delete_existing) s0 (names prefix bk) in
      if delete_existing then
        match s1 !! bucket with
        | Some bk1 => if decide (objects bk1 = ∅) then delete bucket s1 else s1
        | None => s1
        end
      else s1
  | None => s
  end.

Lemma archive_bucket_missing p w bucket prefix de :
  ready p w →
  store_at p w !! bucket = None →
  controller.archive_bucket bucket prefix de w = (Ok None, w).
Proof.
  intros Hr Hb. unfold controller.archive_bucket.
  rewrite (bind_ok _ _ _ _ _ (facade_bucket_exists p w bucket Hr)).
  by rewrite (proj2 (has_bucket_false _ _) Hb).
Qed.

Lemma archive_bucket_ready p w bucket prefix de :
  ready p w →
  can_create p w →
  is_Some (store_at p w !! bucket) →
  controller.archive_bucket bucket prefix de w =
  (Ok (Some true),
   set_store_at p (archive_store p bucket prefix de (store_at p w)) w).
Proof.
  intros Hr Hcr Hb. unfold controller.archive_bucket.
  rewrite (bind_ok _ _ _ _ _ (facade_bucket_exists p w bucket Hr)).
  rewrite (proj2 (has_bucket_true _ _) Hb). simpl.
  rewrite (bind_ok _ _ _ _ _ (facade_bucket_exists p w _ Hr)).
  unfold archive_store.
  set (s := store_at p w) in *.
  set (s0 := if has_bucket s controller.ARCHIVE_BUCKET then s
             else <[controller.ARCHIVE_BUCKET := fresh_bucket p]> s).
  set (w0 := set_store_at p s0 w).
  assert (when (negb (has_bucket s controller.ARCHIVE_BUCKET))
            (call (controller.create_bucket controller.ARCHIVE_BUCKET)) w
          = (Ok tt, w0)) as Hens.
  { unfold w0, s0. destruct (has_bucket s controller.ARCHIVE_BUCKET) eqn:Ha; simpl.
    - unfold s. by rewrite set_store_at_id.
    - apply has_bucket_false in Ha.
      by rewrite (call_run _ _ _ _ (facade_create_bucket p w _ Hr Hcr Ha)). }
  rewrite (bind_ok _ _ _ _ _ Hens).
  assert (ready p w0) as Hr0 by (by apply ready_set_store).
  assert (store_at p w0 = s0) as Hs0 by apply store_at_set_eq.
  assert (is_Some (s0 !! controller.ARCHIVE_BUCKET)) as Ha0.
  { unfold s0. destruct (has_bucket s controller.ARCHIVE_BUCKET) eqn:Ha.
    - by apply has_bucket_true.
    - rewrite lookup_insert_eq. eauto. }
  assert (is_Some (s0 !! bucket)) as [bk Hbk].
  { unfold s0. destruct (has_bucket s controller.ARCHIVE_BUCKET) eqn:Ha; [done|].
    apply has_bucket_false in Ha. rewrite lookup_insert_ne; [done|].
    intros <-. rewrite Ha in Hb. by destruct Hb. }
  rewrite Hbk.
  assert (store_at p w0 !! bucket = Some bk) as Hbk0 by (by rewrite Hs0).
  rewrite (bind_ok _ _ _ _ _ (facade_get_bucket_objects p w0 bucket bk prefix Hr0 Hbk0)).
  rewrite (bind_ok _ _ _ _ _ (iter_run _ w0)).
  assert (archive_inv bucket (names prefix bk) (store_at p w0)) as Hinv.
  { rewrite Hs0. split; [apply names_NoDup|]. split; [done|].
    intros n [[d Hd] _]%names_elem. exists d. apply find_object_Some. eauto. }
  rewrite (bind_ok _ _ _ _ _
             (for_each_fold p _ (archive_step bucket de) (archive_inv bucket)
                (archive_inv_step bucket de)
                (λ x l w1, archive_round p w1 bucket de x l)
                (names prefix bk) w0 Hr0 Hinv)).
  rewrite Hs0. unfold w0. rewrite set_store_at_twice.
  set (s1 := foldl _ s0 _). set (w1 := set_store_at p s1 w).
  destruct de; unfold when; [|done].
  assert (is_Some (s1 !! bucket)) as [bk1 Hbk1].
  { unfold s1. apply foldl_archive_step_lookup. eauto. }
  rewrite Hbk1.
  assert (ready p w1) as Hr1 by (by apply ready_set_store).
  assert (store_at p w1 !! bucket = Some bk1) as Hbk1'
    by (unfold w1; by rewrite store_at_set_eq).
  pose proof (facade_remove_bucket p w1 bucket bk1 Hr1 Hbk1') as Hrm.
  destruct (decide (objects bk1 = ∅)).
  - rewrite (bind_ok _ _ _ _ _ (call_run _ _ _ _ Hrm)). unfold w1.
    by rewrite store_at_set_eq, set_store_at_twice.
  - by rewrite (bind_ok _ _ _ _ _ (call_run _ _ _ _ Hrm)).
Qed.

Lemma archive_bucket_warm w bucket prefix de :
  connected (selected w) w →
  controller.archive_bucket bucket prefix de w =
  controller.archive_bucket bucket prefix de (warm (selected w) w).
Proof.
  intros Hcon. pose proof (ready_warm w Hcon) as Hr.
  unfold controller.archive_bucket. rewrite !bind_run.
  rewrite (facade_bucket_exists_connected w bucket Hcon).
  rewrite (facade_bucket_exists _ _ bucket Hr).
  by rewrite (store_at_warm _ _ w Hcon).
Qed.

(** One round with a source bucket other than the archive: the object
    leaves the source and lands under its archive key. *)
Lemma archive_step_other bucket s x d :
  bucket ≠ controller.ARCHIVE_BUCKET →
  is_Some (s !! controller.ARCHIVE_BUCKET) →
  find_object s bucket x = Some d →
  let s' := archive_step bucket true s x in
  (∀ n, find_object s' bucket n =
        if decide (n = x) then None else find_object s bucket n) ∧
  (∀ k, find_object s' controller.ARCHIVE_BUCKET k =
        if decide (k = archive_key bucket x) then Some d
        else find_object s controller.ARCHIVE_BUCKET k) ∧
  (∀ b, b ≠ bucket → b ≠ controller.ARCHIVE_BUCKET → s' !! b = s !! b).
Proof.
  intros Hne Ha Hd. unfold archive_step.
  assert (find_object (store_delete s controller.ARCHIVE_BUCKET
                         (archive_key bucket x)) bucket x = Some d) as ->.
  { rewrite find_object_store_delete.
    by rewrite decide_False by (by intros [? _]). }
  cbv zeta. split; [|split].
  - intros n. rewrite find_object_store_delete.
    destruct (decide (n = x)) as [->|Hn].
    + by rewrite decide_True.
    + rewrite decide_False by (by intros [_ ?]).
      rewrite find_object_store_put.
      rewrite decide_False by (by intros [? _]).
      rewrite find_object_store_delete.
      by rewrite decide_False by (by intros [? _]).
  - intros k. rewrite find_object_store_delete.
    rewrite decide_False by (by intros [? _]).
    rewrite find_object_store_put.
    destruct (decide (k = archive_key bucket x)) as [->|Hk].
    + rewrite decide_True by done.
      rewrite (proj2 (has_bucket_true _ _)); [done|].
      by apply lookup_store_delete.
    + rewrite decide_False by (by intros [_ ?]).
      rewrite find_object_store_delete.
      by rewrite decide_False by (by intros [_ ?]).
  - intros b Hb1 Hb2.
    rewrite lookup_store_delete_ne by done.
    rewrite lookup_store_put_ne by done.
    by rewrite lookup_store_delete_ne by done.
Qed.

(** The whole loop with a source bucket other than the archive. *)
Lemma foldl_archive_step_other bucket l s :
  bucket ≠ controller.ARCHIVE_BUCKET →
  archive_inv bucket l s →
  let s' := foldl (archive_step bucket true) s l in
  (∀ n, find_object s' bucket n =
        if decide (n ∈ l) then None else find_object s bucket n) ∧
  (∀ n, n ∈ l →
        find_object s' controller.ARCHIVE_BUCKET (archive_key bucket n) =
        find_object s bucket n) ∧
  (∀ k, (∀ n, n ∈ l → k ≠ archive_key bucket n) →
        find_object s' controller.ARCHIVE_BUCKET k =
        find_object s controller.ARCHIVE_BUCKET k) ∧
  (∀ b, b ≠ bucket → b ≠ controller.ARCHIVE_BUCKET → s' !! b = s !! b).
Proof.
  intros Hne. revert s. induction l as [|x l IH]; intros s Hinv.
  { cbn [foldl]. repeat split; try done.
    by intros n ?%elem_of_nil. }
  cbn [foldl].
  pose proof (archive_inv_step bucket true x l s Hinv) as Hinv'.
  destruct Hinv as (Hnd & Ha & Hin). apply NoDup_cons in Hnd as [Hx Hnd].
  destruct (Hin x) as [d Hd]; [left|].
  destruct (archive_step_other bucket s x d Hne Ha Hd) as (S1 & S2 & S3).
  destruct (IH _ Hinv') as (I1 & I2 & I3 & I4).
  split; [|split; [|split]].
  - intros n. rewrite I1, S1.
    destruct (decide (n ∈ l)) as [Hl|Hl].
    + by rewrite decide_True by (by right).
    + destruct (decide (n = x)) as [->|Hn].
      * by rewrite decide_True by left.
      * by rewrite decide_False by (by intros [?|?]%elem_of_cons).
  - intros n [->|Hn]%elem_of_cons.
    + rewrite I3.
      * rewrite S2. by rewrite decide_True.
      * intros n Hn E%archive_key_inj. by subst.
    + rewrite (I2 n Hn), S1.
      by rewrite decide_False by (by intros ->).
  - intros k Hk. rewrite I3.
    + rewrite S2. rewrite decide_False; [done|]. apply Hk. left.
    + intros n Hn. apply Hk. by right.
  - intros b Hb1 Hb2. by rewrite I4, S3.
Qed.

Lemma find_object_delete_bucket s b b' o :
  b ≠ b' → find_object (delete b s) b' o = find_object s b' o.
Proof. intros Hne. unfold find_object. by rewrite lookup_delete_ne. Qed.

(** The store left by archiving a whole bucket other than the archive. *)
Lemma archive_store_other p bucket s bk :
  bucket ≠ controller.ARCHIVE_BUCKET →
  s !! bucket = Some bk →
  let s' := archive_store p bucket None true s in
  s' !! bucket = None ∧
  (∀ name data, objects bk !! name = Some data →
     find_object s' controller.ARCHIVE_BUCKET (archive_key bucket name)
     = Some data) ∧
  (∀ b, b ≠ bucket → b ≠ controller.ARCHIVE_BUCKET → s' !! b = s !! b).
Proof.
  intros Hne Hb. unfold archive_store.
  set (s0 := if has_bucket s controller.ARCHIVE_BUCKET then s
             else <[controller.ARCHIVE_BUCKET := fresh_bucket p]> s).
  assert (is_Some (s0 !! controller.ARCHIVE_BUCKET)) as Ha0.
  { unfold s0. destruct (has_bucket s controller.ARCHIVE_BUCKET) eqn:Ha.
    - by apply has_bucket_true.
    - rewrite lookup_insert_eq. eauto. }
  assert (∀ b, b ≠ controller.ARCHIVE_BUCKET → s0 !! b = s !! b) as Hs0.
  { intros b Hb'. unfold s0. destruct (has_bucket s _); [done|].
    by rewrite lookup_insert_ne. }
  rewrite (Hs0 bucket Hne), Hb. cbv zeta.
  assert (∀ n, find_object s0 bucket n = objects bk !! n) as Hfind.
  { intros n. unfold find_object. by rewrite (Hs0 bucket Hne), Hb. }
  assert (archive_inv bucket (names None bk) s0) as Hinv.
  { split; [apply names_NoDup|]. split; [done|].
    intros n [Hn _]%names_elem. by rewrite Hfind. }
  destruct (foldl_archive_step_other bucket _ s0 Hne Hinv) as (F1 & F2 & F3 & F4).
  set (s1 := foldl _ s0 _) in *.
  assert (is_Some (s1 !! bucket)) as [bk1 Hbk1].
  { unfold s1. apply foldl_archive_step_lookup. rewrite (Hs0 bucket Hne). eauto. }
  rewrite Hbk1.
  assert (objects bk1 = ∅) as Hempty.
  { apply map_eq. intros n. rewrite lookup_empty.
    specialize (F1 n). unfold find_object in F1 at 1. rewrite Hbk1 in F1.
    simpl in F1. rewrite F1. case_decide as Hn; [done|].
    rewrite Hfind. destruct (objects bk !! n) eqn:Ho; [|done].
    exfalso. apply Hn, names_elem. rewrite Ho. eauto. }
  rewrite decide_True by done. split; [apply lookup_delete_eq|]. split.
  - intros name data Ho.
    rewrite find_object_delete_bucket by done.
    rewrite F2, Hfind; [done|]. apply names_elem. rewrite Ho. eauto.
  - intros b Hb1 Hb2. rewrite lookup_delete_ne by done.
    by rewrite F4, Hs0.
Qed.

(** C9: on a connected facade, [archive_bucket] on a bucket that does not
    exist returns [None] and touches no bucket and no object of either
    provider; on a bucket that exists, every run that returns returns
    [True], and the run does return when the archive bucket can be created. *)
Theorem archive_bucket_result (w : World) (bucket : string)
    (prefix : option string) (delete_existing : bool) :
  connected (selected w) w →
  (store_at (selected w) w !! bucket = None →
     controller.archive_bucket bucket prefix delete_existing w =
       (Ok None, warm (selected w) w) ∧
     minio_store (warm (selected w) w) = minio_store w ∧
     aws_store (warm (selected w) w) = aws_store w) ∧
  (is_Some (store_at (selected w) w !! bucket) →
     (∀ r w', controller.archive_bucket bucket prefix delete_existing w
              = (Ok r, w') → r = Some true) ∧
     (can_create (selected w) w →
      ∃ w', controller.archive_bucket bucket prefix delete_existing w
            = (Ok (Some true), w'))).
Proof.
  intros Hcon. pose proof (ready_warm w Hcon) as Hr.
  rewrite (archive_bucket_warm w bucket prefix delete_existing Hcon).
  split.
  - intros Hb. rewrite <- (store_at_warm _ _ w Hcon) in Hb.
    rewrite (archive_bucket_missing _ _ bucket prefix delete_existing Hr Hb).
    destruct (warm_frame _ w Hcon) as (_ & _ & ? & ? & _). done.
  - intros Hb. rewrite <- (store_at_warm (selected w) _ w Hcon) in Hb. split.
    + intros r w'. unfold controller.archive_bucket.
      rewrite (bind_ok _ _ _ _ _ (facade_bucket_exists _ _ bucket Hr)).
      rewrite (proj2 (has_bucket_true _ _) Hb). simpl.
      rewrite !bind_run.
      repeat (match goal with
              | |- context [match ?m ?x with _ => _ end] =>
                  destruct (m x) as [[?|?] ?]
              end; rewrite ?bind_run; try (by intros [=])).
    + intros Hcr.
      rewrite (archive_bucket_ready _ _ bucket prefix delete_existing Hr
                 (can_create_warm _ w Hcon Hcr) Hb).
      eauto.
Qed.

Lemma archive_bucket_result_witness :
  (minio_store project_world !! "nope" = None →
     controller.archive_bucket "nope" None true project_world =
       (Ok None, warm SelfHosted project_world) ∧
     minio_store (warm SelfHosted project_world) = minio_store project_world ∧
     aws_store (warm SelfHosted project_world) = aws_store project_world) ∧
  (is_Some (minio_store project_world !! "nope") →
     (∀ r w', controller.archive_bucket "nope" None true project_world
              = (Ok r, w') → r = Some true) ∧
     (True →
      ∃ w', controller.archive_bucket "nope" None true project_world
            = (Ok (Some true), w'))).
Proof.
  apply (archive_bucket_result project_world "nope" None true).
  right. reflexivity.
Defined.

(** C1, as the code has it: on a connected facade that can create the
    archive bucket, archiving an existing bucket other than the archive
    bucket itself, with no prefix and [delete_existing] true, returns
    [True]; afterwards every object the bucket held is in the archive bucket
    under ["{bucket}/{name}"] with its content, the bucket no longer exists,
    and no bucket other than these two has changed. *)
Theorem archive_bucket_moves (w : World) (bucket : string) (bk : Bucket) :
  connected (selected w) w →
  can_create (selected w) w →
  bucket ≠ controller.ARCHIVE_BUCKET →
  store_at (selected w) w !! bucket = Some bk →
  ∃ w',
    controller.archive_bucket bucket None true w = (Ok (Some true), w') ∧
    (∀ name data, objects bk !! name = Some data →
       find_object (store_at (selected w) w') controller.ARCHIVE_BUCKET
         (bucket ++ "/" ++ name) = Some data) ∧
    store_at (selected w) w' !! bucket = None ∧
    (∀ b, b ≠ bucket → b ≠ controller.ARCHIVE_BUCKET →
       store_at (selected w) w' !! b = store_at (selected w) w !! b).
Proof.
  intros Hcon Hcr Hne Hb. pose proof (ready_warm w Hcon) as Hr.
  rewrite (archive_bucket_warm w bucket None true Hcon).
  rewrite <- (store_at_warm (selected w) _ w Hcon) in Hb.
  rewrite (archive_bucket_ready _ _ bucket None true Hr
             (can_create_warm _ w Hcon Hcr) (ex_intro _ bk Hb)).
  eexists. split; [done|]. rewrite store_at_set_eq.
  destruct (archive_store_other (selected w) bucket _ bk Hne Hb) as (A1 & A2 & A3).
  split; [|split]; [|done|].
  - intros name data Ho. rewrite <- archive_key_app. by apply A2.
  - intros b Hb1 Hb2. rewrite (A3 b Hb1 Hb2).
    by rewrite (store_at_warm _ _ w Hcon).
Qed.

Lemma archive_bucket_moves_witness :
  ∃ w',
    controller.archive_bucket "proj" None true project_world = (Ok (Some true), w') ∧
    (∀ name data,
       objects (example_bucket [("x", "X"); ("y", "Y")]) !! name = Some data →
       find_object (minio_store w') controller.ARCHIVE_BUCKET
         ("proj" ++ "/" ++ name) = Some data) ∧
    minio_store w' !! "proj" = None ∧
    (∀ b, b ≠ "proj" → b ≠ controller.ARCHIVE_BUCKET →
       minio_store w' !! b = minio_store project_world !! b).
Proof.
  apply (archive_bucket_moves project_world "proj"
           (example_bucket [("x", "X"); ("y", "Y")])).
  - right. reflexivity.
  - exact I.
  - discriminate.
  - reflexivity.
Defined.

(** C1 as stated fails when the bucket to archive is the archive bucket
    itself: the call returns [True] and the bucket still exists. *)
Lemma archive_bucket_keeps_archive :
  is_Some (minio_store project_world !! "archive") ∧
  ∃ w',
    controller.archive_bucket "archive" None true project_world
      = (Ok (Some true), w') ∧
    is_Some (minio_store w' !! "archive").
Proof.
  split; [by eexists|].
  eexists. split; [vm_compute; reflexivity|]. by eexists.
Qed.

(** * Further behaviour of the adapters *)

(** Without a cached client and without the environment to build one, every
    adapter operation stops at its first step with "S3 not connected", and
    neither provider nor the local files are touched. *)
Theorem adapter_not_connected (p : Site) (w : World) (b o : string) :
  cached p w = None →
  configured p w = false →
  ∃ w',
    get_client p w = (Raise (Exception "S3 not connected"), w') ∧
    on p minio.bucket_exists aws.bucket_exists b w
      = (Raise (Exception "S3 not connected"), w') ∧
    on p minio.get_object aws.get_object b o w
      = (Raise (Exception "S3 not connected"), w') ∧
    on p minio.delete_object aws.delete_object b o w
      = (Raise (Exception "S3 not connected"), w') ∧
    cached p w' = None ∧
    minio_store w' = minio_store w ∧ aws_store w' = aws_store w ∧
    files w' = files w.
Proof.
  intros Hc Hcfg.
  assert (∃ w', get_client p w = (Raise (Exception "S3 not connected"), w') ∧
            cached p w' = None ∧
            minio_store w' = minio_store w ∧ aws_store w' = aws_store w ∧
            files w' = files w) as (w' & Hg & Hrest).
  { destruct p; simpl in *.
    - unfold minio.__get_client, mbind, M_bind, gets, getenv, gets, when.
      rewrite Hc. simpl. rewrite Hcfg. simpl. rewrite Hc. eauto 10.
    - unfold aws.__get_client, aws.__init_client, mbind, M_bind, gets,
        getenv, gets, when.
      rewrite Hc. simpl. rewrite Hc. simpl.
      case_bool_decide; simpl; rewrite Hcfg; simpl; rewrite Hc; eauto 10. }
  exists w'. split; [done|].
  destruct p; simpl in Hg |- *;
    unfold minio.bucket_exists, minio.get_object, minio.delete_object,
      minio.object_exists, aws.bucket_exists, aws.get_object,
      aws.delete_object, aws.object_exists;
    rewrite !bind_run, ?Hg; done.
Qed.

Definition unconfigured_world : World :=
  {| environ := ∅; files := ∅; stdout := [];
     minio_client := None; aws_client := None;
     minio_store := {[ "proj" := example_bucket [("x", "X")] ]};
     aws_store := ∅; sts_grants := [] |}.

Lemma adapter_not_connected_witness :
  ∃ w',
    minio.__get_client unconfigured_world
      = (Raise (Exception "S3 not connected"), w') ∧
    minio.bucket_exists "proj" unconfigured_world
      = (Raise (Exception "S3 not connected"), w') ∧
    minio.get_object "proj" "x" unconfigured_world
      = (Raise (Exception "S3 not connected"), w') ∧
    minio.delete_object "proj" "x" unconfigured_world
      = (Raise (Exception "S3 not connected"), w') ∧
    minio_client w' = None ∧
    minio_store w' = minio_store unconfigured_world ∧
    aws_store w' = aws_store unconfigured_world ∧
    files w' = files unconfigured_world.
Proof.
  apply (adapter_not_connected SelfHosted unconfigured_world "proj" "x");
    reflexivity.
Defined.

(** * Writing and reading back *)

Lemma ensured_cached p q b w : cached q (ensured p b w) = cached q w.
Proof.
  unfold ensured. destruct (has_bucket _ _); [done|]. apply cached_set_store.
Qed.

Lemma ensured_selected p b w : selected (ensured p b w) = selected w.
Proof.
  unfold ensured. destruct (has_bucket _ _); [done|]. apply selected_set_store.
Qed.

(** The store once bucket [b] is made sure to exist. *)
Definition store_ensure (p : Site) (s : gmap string Bucket) (b : string)
    : gmap string Bucket :=
  if has_bucket s b then s else <[b := fresh_bucket p]> s.

Lemma ensured_store p b w :
  ensured p b w = set_store_at p (store_ensure p (store_at p w) b) w.
Proof.
  unfold ensured, store_ensure. destruct (has_bucket _ _); [|done].
  by rewrite set_store_at_id.
Qed.

Lemma store_ensure_lookup p s b : is_Some (store_ensure p s b !! b).
Proof.
  unfold store_ensure. destruct (has_bucket s b) eqn:Hb.
  - by apply has_bucket_true.
  - rewrite lookup_insert_eq. eauto.
Qed.

Lemma find_object_store_ensure p s b b' o :
  find_object (store_ensure p s b) b' o = find_object s b' o.
Proof.
  unfold store_ensure. destruct (has_bucket s b) eqn:Hb; [done|].
  apply has_bucket_false in Hb. unfold find_object.
  destruct (decide (b = b')) as [<-|Hne].
  - rewrite lookup_insert_eq, Hb. by destruct p.
  - by rewrite lookup_insert_ne.
Qed.

Lemma put_object_cached p w c b o data :
  cached p w = Some c →
  can_create p w →
  on p (minio.put_object b o data)
       (aws.put_object b o data "application/json" true) w =
  (Ok true,
   set_store_at p (store_put (store_ensure p (store_at p w) b) b o data) w).
Proof.
  intros Hc Hcr.
  pose proof (ensure_bucket_cached p w c b Hc Hcr) as He.
  rewrite ensured_store in He.
  destruct (store_ensure_lookup p (store_at p w) b) as [bk Hbk].
  rewrite (store_put_lookup _ _ _ _ _ Hbk).
  pose proof (get_client_cached p w c Hc) as Hg.
  destruct p; simpl in *;
    [unfold minio.put_object | unfold aws.put_object];
    rewrite (bind_ok _ _ _ _ _ Hg);
    rewrite bind_run in He; rewrite bind_run;
    (destruct (_ b w) as [[be|e] w1]; [|done]);
    rewrite (bind_ok _ _ _ _ _ He);
    rewrite bind_run; unfold Minio.put_object;
    rewrite ?store_at_set_eq; simpl; rewrite Hbk; simpl;
    by rewrite ?insert_insert_eq.
Qed.

Lemma facade_put_object p w b o data :
  ready p w →
  can_create p w →
  controller.put_object b o data w =
  (Ok true,
   set_store_at p (store_put (store_ensure p (store_at p w) b) b o data) w).
Proof.
  intros [[c Hc] Hs] Hcr. unfold controller.put_object.
  rewrite (bind_ok _ _ _ _ _ (get_current_target_run w)), Hs.
  rewrite <- (put_object_cached p w c b o data Hc Hcr). by destruct p.
Qed.

Lemma facade_get_object p w b o :
  ready p w →
  controller.get_object b o w =
  match store_at p w !! b with
  | None => (Ok (Some ""), w)
  | Some bk =>
      match objects bk !! o with
      | Some data => (Ok (Some data), w)
      | None => (Raise (S3Error "NoSuchKey"), w)
      end
  end.
Proof.
  intros [[c Hc] Hs]. unfold controller.get_object.
  rewrite (bind_ok _ _ _ _ _ (get_current_target_run w)), Hs.
  pose proof (get_object_cached p w c b o Hc) as H.
  destruct p; simpl in *; rewrite fmap_run, H;
    destruct (_ !! b) as [bk|]; try done; by destruct (objects bk !! o).
Qed.

Lemma put_object_warm p w b o data :
  connected p w →
  on p (minio.put_object b o data)
       (aws.put_object b o data "application/json" true) w =
  on p (minio.put_object b o data)
       (aws.put_object b o data "application/json" true) (warm p w).
Proof.
  intros H. pose proof (get_client_warm p w H) as Hw.
  unfold on, minio.put_object, aws.put_object.
  destruct p; simpl in Hw; rewrite !bind_run; rewrite ?Hw; reflexivity.
Qed.

(** What [put_object] leaves in the store. *)
Lemma find_object_put p s b o data b' o' :
  find_object (store_put (store_ensure p s b) b o data) b' o' =
  if decide (b = b' ∧ o = o') then Some data else find_object s b' o'.
Proof.
  rewrite find_object_store_put.
  rewrite (proj2 (has_bucket_true _ _)) by apply store_ensure_lookup.
  by rewrite find_object_store_ensure.
Qed.

(** On a connected facade that can create buckets, [put_object] returns
    [True], creating the bucket if need be; [get_object] then returns exactly
    the data written, and every other object is as before. *)
Theorem put_object_get_object (w : World) (b o data : string) :
  connected (selected w) w →
  can_create (selected w) w →
  ∃ w1,
    controller.put_object b o data w = (Ok true, w1) ∧
    controller.get_object b o w1 = (Ok (Some data), w1) ∧
    (∀ b' o', ¬ (b = b' ∧ o = o') →
       find_object (store_at (selected w) w1) b' o' =
       find_object (store_at (selected w) w) b' o') ∧
    (∀ q, q ≠ selected w → store_at q w1 = store_at q w).
Proof.
  intros Hcon Hcr. pose proof (ready_warm w Hcon) as Hr.
  assert (controller.put_object b o data w =
          controller.put_object b o data (warm (selected w) w)) as ->.
  { unfold controller.put_object.
    rewrite (bind_ok _ _ _ _ _ (get_current_target_run w)).
    rewrite (bind_ok _ _ _ _ _ (get_current_target_run _)).
    destruct Hr as [_ ->].
    pose proof (put_object_warm _ w b o data Hcon) as H.
    by destruct (selected w). }
  rewrite (facade_put_object _ _ b o data Hr (can_create_warm _ w Hcon Hcr)).
  rewrite (store_at_warm _ _ w Hcon).
  eexists. split; [done|].
  set (s1 := store_put _ b o data).
  assert (find_object s1 b o = Some data) as Hf.
  { unfold s1. rewrite find_object_put. by rewrite decide_True. }
  split; [|split].
  - rewrite (facade_get_object (selected w)) by (by apply ready_set_store).
    rewrite store_at_set_eq.
    apply find_object_Some in Hf as (bk & -> & ->). done.
  - intros b' o' Hne. rewrite store_at_set_eq. unfold s1.
    rewrite find_object_put. by rewrite decide_False.
  - intros q Hq. rewrite store_at_set_ne by done. by apply store_at_warm.
Qed.

Lemma put_object_get_object_witness :
  ∃ w1,
    controller.put_object "fresh" "p1/docbin_full" "{}" project_world = (Ok true, w1) ∧
    controller.get_object "fresh" "p1/docbin_full" w1 = (Ok (Some "{}"), w1) ∧
    (∀ b' o', ¬ ("fresh" = b' ∧ "p1/docbin_full" = o') →
       find_object (minio_store w1) b' o' =
       find_object (minio_store project_world) b' o') ∧
    (∀ q, q ≠ SelfHosted → store_at q w1 = store_at q project_world).
Proof.
  apply (put_object_get_object project_world "fresh" "p1/docbin_full" "{}").
  - right. reflexivity.
  - exact I.
Defined.

Lemma can_create_set_store p q s w :
  can_create p w → can_create p (set_store_at q s w).
Proof. destruct p; simpl; [done|]. by rewrite environ_set_store. Qed.

(** The object name [upload_tokenizer_data] writes to. *)
Definition docbin_name (project_id : string) : string :=
  (if negb (String.eqb project_id "") then project_id ++ "/" else "")
  ++ "docbin_full".

(** On a connected facade that can create buckets, [upload_tokenizer_data]
    returns [True] and leaves the data under ["{project_id}/docbin_full"], or
    under ["docbin_full"] when the project id is empty, whatever was stored
    there before; a following [get_object] returns exactly that data. *)
Theorem upload_tokenizer_data_stores (w : World) (b project_id data : string) :
  connected (selected w) w →
  can_create (selected w) w →
  ∃ w1,
    controller.upload_tokenizer_data b project_id data w = (Ok true, w1) ∧
    find_object (store_at (selected w) w1) b (docbin_name project_id)
      = Some data ∧
    controller.get_object b (docbin_name project_id) w1 = (Ok (Some data), w1) ∧
    (∀ b' o', ¬ (b = b' ∧ docbin_name project_id = o') →
       find_object (store_at (selected w) w1) b' o' =
       find_object (store_at (selected w) w) b' o').
Proof.
  intros Hcon Hcr. pose proof (ready_warm w Hcon) as Hr.
  pose proof (can_create_warm _ w Hcon Hcr) as Hcr'.
  unfold controller.upload_tokenizer_data. fold (docbin_name project_id).
  cbv zeta. set (o := docbin_name project_id).
  rewrite (bind_ok _ _ _ _ _ (facade_bucket_exists_connected w b Hcon)).
  set (p := selected w) in *. set (w0 := warm p w) in *.
  assert (store_at p w0 = store_at p w) as Hs0 by (by apply store_at_warm).
  set (s := store_at p w) in *.
  (* the bucket is made sure to exist *)
  assert (when (negb (has_bucket s b)) (call (controller.create_bucket b)) w0
          = (Ok tt, set_store_at p (store_ensure p s b) w0)) as Hens.
  { unfold store_ensure. destruct (has_bucket s b) eqn:Hb; simpl.
    - by rewrite <- Hs0, set_store_at_id.
    - apply has_bucket_false in Hb. rewrite <- Hs0 in Hb.
      rewrite (call_run _ _ _ _ (facade_create_bucket p w0 b Hr Hcr' Hb)).
      by rewrite Hs0. }
  rewrite (bind_ok _ _ _ _ _ Hens).
  set (s1 := store_ensure p s b). set (w1 := set_store_at p s1 w0).
  assert (ready p w1) as Hr1 by (by apply ready_set_store).
  assert (store_at p w1 = s1) as Hs1 by apply store_at_set_eq.
  (* an object already under that name is deleted *)
  rewrite (bind_ok _ _ _ _ _ (facade_object_exists p w1 b o Hr1)). rewrite Hs1.
  assert (when (has_object s1 b o) (call (controller.delete_object b o)) w1
          = (Ok tt, set_store_at p (store_delete s1 b o) w0)) as Hdel.
  { destruct (has_object s1 b o) eqn:Ho; simpl.
    - rewrite (call_run _ _ _ _ (facade_delete_object p w1 b o Hr1)).
      unfold w1. by rewrite store_at_set_eq, set_store_at_twice.
    - apply has_object_false in Ho. by rewrite (store_delete_absent _ _ _ Ho). }
  rewrite (bind_ok _ _ _ _ _ Hdel).
  set (s2 := store_delete s1 b o). set (w2 := set_store_at p s2 w0).
  assert (ready p w2) as Hr2 by (by apply ready_set_store).
  assert (can_create p w2) as Hcr2 by (by apply can_create_set_store).
  rewrite (bind_ok _ _ _ _ _ (facade_put_object p w2 b o data Hr2 Hcr2)).
  unfold w2. rewrite store_at_set_eq, set_store_at_twice.
  set (s3 := store_put _ b o data).
  assert (∀ b' o', find_object s3 b' o' =
            if decide (b = b' ∧ o = o') then Some data else find_object s b' o')
    as Hfind.
  { intros b' o'. unfold s3. rewrite find_object_put. case_decide; [done|].
    unfold s2. rewrite find_object_store_delete. rewrite decide_False by done.
    unfold s1. apply find_object_store_ensure. }
  eexists. split; [done|]. rewrite store_at_set_eq.
  split; [by rewrite Hfind, decide_True|]. split.
  - rewrite (facade_get_object p) by (by apply ready_set_store).
    rewrite store_at_set_eq.
    pose proof (Hfind b o) as Hf. rewrite decide_True in Hf by done.
    apply find_object_Some in Hf as (bk & -> & ->). done.
  - intros b' o' Hne. by rewrite Hfind, decide_False.
Qed.

Lemma upload_tokenizer_data_stores_witness :
  ∃ w1,
    controller.upload_tokenizer_data "proj" "x" "NEW" project_world = (Ok true, w1) ∧
    find_object (minio_store w1) "proj" (docbin_name "x") = Some "NEW" ∧
    controller.get_object "proj" (docbin_name "x") w1 = (Ok (Some "NEW"), w1) ∧
    (∀ b' o', ¬ ("proj" = b' ∧ docbin_name "x" = o') →
       find_object (minio_store w1) b' o' =
       find_object (minio_store project_world) b' o').
Proof.
  apply (upload_tokenizer_data_stores project_world "proj" "x" "NEW").
  - right. reflexivity.
  - exact I.
Defined.

(** On a connected adapter, [upload_object] to a bucket that does not exist
    returns [False] and creates nothing, whether or not the local file
    exists; to an existing bucket that lacks the object, with the local file
    present, it returns [True] and the object holds the file's content. *)
Theorem upload_object_plain (p : Site) (w : World)
    (b o path : string) (force : bool) :
  connected p w →
  (store_at p w !! b = None →
     on p minio.upload_object aws.upload_object b o path force w
       = (Ok false, warm p w) ∧
     store_at p (warm p w) = store_at p w) ∧
  (∀ data, is_Some (store_at p w !! b) →
     find_object (store_at p w) b o = None →
     files w !! path = Some data →
     ∃ w',
       on p minio.upload_object aws.upload_object b o path force w
         = (Ok true, w') ∧
       find_object (store_at p w') b o = Some data ∧
       files w' = files w).
Proof.
  intros Hcon. rewrite (upload_object_connected p w b o path force Hcon).
  split.
  - intros Hb. rewrite (proj2 (has_bucket_false _ _) Hb). simpl.
    split; [done|]. by apply store_at_warm.
  - intros data Hb Ho Hf.
    rewrite (proj2 (has_bucket_true _ _) Hb).
    rewrite (proj2 (has_object_false _ _ _) Ho), Hf. simpl.
    eexists. split; [done|]. rewrite store_at_set_eq, files_set_store.
    split.
    + rewrite find_object_store_put. rewrite decide_True by done.
      rewrite (proj2 (has_bucket_true _ _)); [done|].
      by apply lookup_store_delete.
    + by destruct (warm_frame p w Hcon) as (_ & ? & _).
Qed.

Lemma upload_object_plain_witness :
  (minio_store upload_world !! "nope" = None →
     minio.upload_object "nope" "x" "/tmp/new" false upload_world
       = (Ok false, warm SelfHosted upload_world) ∧
     minio_store (warm SelfHosted upload_world) = minio_store upload_world) ∧
  (∀ data, is_Some (minio_store upload_world !! "proj") →
     find_object (minio_store upload_world) "proj" "y" = None →
     files upload_world !! "/tmp/new" = Some data →
     ∃ w',
       minio.upload_object "proj" "y" "/tmp/new" false upload_world
         = (Ok true, w') ∧
       find_object (minio_store w') "proj" "y" = Some data ∧
       files w' = files upload_world).
Proof.
  split.
  - apply (upload_object_plain SelfHosted upload_world "nope" "x" "/tmp/new" false).
    right. reflexivity.
  - apply (upload_object_plain SelfHosted upload_world "proj" "y" "/tmp/new" false).
    right. reflexivity.
Defined.

(** * Removing buckets *)

Lemma get_bucket_objects_warm p w b prefix :
  connected p w →
  on p minio.get_bucket_objects aws.get_bucket_objects b prefix w =
  on p minio.get_bucket_objects aws.get_bucket_objects b prefix (warm p w).
Proof.
  intros H. pose proof (get_client_warm p w H) as Hw.
  unfold on, minio.get_bucket_objects, aws.get_bucket_objects.
  destruct p; simpl in Hw; rewrite !bind_run; rewrite ?Hw; reflexivity.
Qed.

Lemma facade_get_bucket_objects_warm w b prefix :
  connected (selected w) w →
  controller.get_bucket_objects b prefix w =
  controller.get_bucket_objects b prefix (warm (selected w) w).
Proof.
  intros Hcon. destruct (ready_warm w Hcon) as [_ Hs].
  unfold controller.get_bucket_objects.
  rewrite (bind_ok _ _ _ _ _ (get_current_target_run w)).
  rewrite (bind_ok _ _ _ _ _ (get_current_target_run _)), Hs.
  pose proof (get_bucket_objects_warm _ w b prefix Hcon) as H.
  destruct (selected w); simpl in *; by rewrite !fmap_run, H.
Qed.

Lemma remove_bucket_warm w b recursive :
  connected (selected w) w →
  controller.remove_bucket b recursive w =
  controller.remove_bucket b recursive (warm (selected w) w).
Proof.
  intros Hcon. unfold controller.remove_bucket.
  by rewrite !bind_run, (facade_get_bucket_objects_warm w b None Hcon).
Qed.

Lemma facade_get_bucket_objects_missing p w b prefix :
  ready p w →
  store_at p w !! b = None →
  controller.get_bucket_objects b prefix w = (Raise (S3Error "NoSuchBucket"), w).
Proof.
  intros [[c Hc] Hs] Hb. unfold controller.get_bucket_objects.
  rewrite (bind_ok _ _ _ _ _ (get_current_target_run w)), Hs.
  pose proof (get_client_cached p w c Hc) as Hg.
  destruct p; simpl in *; rewrite fmap_run;
    [unfold minio.get_bucket_objects | unfold aws.get_bucket_objects];
    rewrite (bind_ok _ _ _ _ _ Hg); unfold Minio.list_objects; simpl;
    by rewrite Hb.
Qed.

Lemma facade_remove_bucket_any p w b bk recursive :
  ready p w →
  store_at p w !! b = Some bk →
  controller.remove_bucket b recursive w =
  if decide (objects bk = ∅ ∨ recursive = true)
  then (Ok true, set_store_at p (delete b (store_at p w)) w)
  else (Ok false, w).
Proof.
  intros Hr Hb. destruct recursive.
  2:{ rewrite (facade_remove_bucket p w b bk Hr Hb).
      destruct (decide (objects bk = ∅)).
      - by rewrite decide_True by (by left).
      - by rewrite decide_False by (by intros [?|?]). }
  rewrite decide_True by (by right).
  pose proof Hr as [[c Hc] Hs].
  unfold controller.remove_bucket.
  rewrite (bind_ok _ _ _ _ _ (facade_get_bucket_objects p w b bk None Hr Hb)).
  rewrite (bind_ok _ _ _ _ _ (iter_run _ w)). cbv zeta.
  assert (∀ w1 bk1, ready p w1 → store_at p w1 !! b = Some bk1 →
            objects bk1 = ∅ →
            (target ← controller.get_current_target;
             match target with
             | AWS => aws.remove_bucket b
             | MINIO => minio.remove_bucket b
             | UNKNOWN => mret false
             end) w1 = (Ok true, set_store_at p (delete b (store_at p w1)) w1))
    as Hdispatch.
  { intros w1 bk1 [[c1 Hc1] Hs1] Hb1 He1.
    rewrite (bind_ok _ _ _ _ _ (get_current_target_run w1)), Hs1.
    rewrite <- (remove_bucket_cached p w1 c1 b bk1 Hc1 Hb1 He1). by destruct p. }
  destruct (names None bk) as [|x l] eqn:Hn.
  - simpl. apply (Hdispatch w bk Hr Hb). by apply names_all_nil.
  - rewrite bool_decide_eq_true_2 by done.
    rewrite <- Hn.
    rewrite (bind_ok _ _ _ _ _ (delete_objects_run p w b _ Hr)).
    rewrite (foldl_store_delete_all b _ bk Hb).
    rewrite (Hdispatch _ (set_objects ∅ bk)).
    + by rewrite store_at_set_eq, set_store_at_twice, delete_insert_eq.
    + by apply ready_set_store.
    + by rewrite store_at_set_eq, lookup_insert_eq.
    + done.
Qed.

(** On a connected facade, [remove_bucket] on an existing bucket removes it
    and returns [True] when the bucket is empty or [recursive] is true, all
    its objects going with it; on a non-empty bucket without [recursive] it
    returns [False] and changes no bucket.  No other bucket is touched. *)
Theorem remove_bucket_modes (w : World) (b : string) (bk : Bucket)
    (recursive : bool) :
  connected (selected w) w →
  store_at (selected w) w !! b = Some bk →
  ∃ r w',
    controller.remove_bucket b recursive w = (Ok r, w') ∧
    (r = true ↔ objects bk = ∅ ∨ recursive = true) ∧
    store_at (selected w) w' =
      (if r then delete b (store_at (selected w) w)
       else store_at (selected w) w) ∧
    (∀ q, q ≠ selected w → store_at q w' = store_at q w).
Proof.
  intros Hcon Hb. pose proof (ready_warm w Hcon) as Hr.
  rewrite (remove_bucket_warm w b recursive Hcon).
  rewrite <- (store_at_warm (selected w) _ w Hcon) in Hb.
  rewrite (facade_remove_bucket_any _ _ b bk recursive Hr Hb).
  rewrite (store_at_warm _ _ w Hcon).
  destruct (decide (objects bk = ∅ ∨ recursive = true)) as [Hd|Hd];
    eexists _, _; (split; [done|]); (split; [|split]).
  - done.
  - by rewrite store_at_set_eq.
  - intros q Hq. rewrite store_at_set_ne by done. by apply store_at_warm.
  - split; [done|]. intros ?. by destruct Hd.
  - by apply store_at_warm.
  - intros q Hq. by apply store_at_warm.
Qed.

Lemma remove_bucket_modes_witness :
  ∃ r w',
    controller.remove_bucket "proj" true project_world = (Ok r, w') ∧
    (r = true ↔
       objects (example_bucket [("x", "X"); ("y", "Y")]) = ∅ ∨ true = true) ∧
    minio_store w' =
      (if r then delete "proj" (minio_store project_world)
       else minio_store project_world) ∧
    (∀ q, q ≠ SelfHosted → store_at q w' = store_at q project_world).
Proof.
  apply (remove_bucket_modes project_world "proj"
           (example_bucket [("x", "X"); ("y", "Y")]) true).
  - right. reflexivity.
  - reflexivity.
Defined.

(** On a connected facade, [remove_bucket] on a bucket that does not exist
    does not return [False]: listing its objects fails and the provider's
    [NoSuchBucket] error reaches the caller, in either mode. *)
Theorem remove_bucket_missing (w : World) (b : string) (recursive : bool) :
  connected (selected w) w →
  store_at (selected w) w !! b = None →
  controller.remove_bucket b recursive w =
  (Raise (S3Error "NoSuchBucket"), warm (selected w) w).
Proof.
  intros Hcon Hb. pose proof (ready_warm w Hcon) as Hr.
  rewrite (remove_bucket_warm w b recursive Hcon).
  rewrite <- (store_at_warm (selected w) _ w Hcon) in Hb.
  unfold controller.remove_bucket.
  by rewrite (bind_raise _ _ _ _ _ (facade_get_bucket_objects_missing _ _ b None Hr Hb)).
Qed.

Lemma remove_bucket_missing_witness :
  controller.remove_bucket "nope" false project_world =
  (Raise (S3Error "NoSuchBucket"), warm SelfHosted project_world).
Proof.
  apply (remove_bucket_missing project_world "nope" false).
  - right. reflexivity.
  - reflexivity.
Defined.

(** On a connected facade, [empty_storage] with [force] true and
    [only_uuid] false removes every bucket of the selected provider,
    whatever its name, and leaves the other provider alone. *)
Theorem empty_storage_all (w : World) :
  connected (selected w) w →
  ∃ w', controller.empty_storage true false w = (Ok true, w') ∧
    store_at (selected w) w' = ∅ ∧
    (∀ q, q ≠ selected w → store_at q w' = store_at q w).
Proof.
  intros Hcon. pose proof (ready_warm w Hcon) as Hr.
  assert (controller.empty_storage true false w =
          controller.empty_storage true false (warm (selected w) w)) as ->.
  { unfold controller.empty_storage. rewrite !bind_run. simpl.
    rewrite !bind_run.
    rewrite (facade_get_all_buckets_connected w Hcon).
    rewrite (facade_get_all_buckets _ _ Hr).
    by rewrite (store_at_warm _ _ w Hcon). }
  rewrite (empty_storage_ready _ _ false Hr).
  rewrite (store_at_warm _ _ w Hcon).
  eexists. split; [done|]. split.
  - rewrite store_at_set_eq. apply map_eq. intros b.
    rewrite lookup_foldl_wipe, lookup_empty. simpl.
    case_decide as Hd; [done|].
    destruct (store_at (selected w) w !! b) as [bk|] eqn:Hb; [|done].
    exfalso. apply Hd. split; [|done].
    apply list_elem_of_fmap. exists (b, bk). split; [done|].
    by apply elem_of_map_to_list.
  - intros q Hq. rewrite store_at_set_ne by done. by apply store_at_warm.
Qed.

Lemma empty_storage_all_witness :
  ∃ w', controller.empty_storage true false project_world = (Ok true, w') ∧
    minio_store w' = ∅ ∧
    (∀ q, q ≠ SelfHosted → store_at q w' = store_at q project_world).
Proof.
  apply (empty_storage_all project_world). right. reflexivity.
Defined.

(** * Downloading objects *)

Lemma store_at_set_files p fs w : store_at p (set_files fs w) = store_at p w.
Proof. by destruct p. Qed.

Lemma set_files_id w : set_files (files w) w = w.
Proof. by destruct w. Qed.

(** The local path [download_object] writes to. *)
Definition download_name (file_type : string) (file_name : option string) : string :=
  if negb (truthy file_name) then "tmpfile." ++ file_type else py_str file_name.

Lemma download_object_cached p w c b o file_type file_name :
  cached p w = Some c →
  on p minio.download_object aws.download_object b o file_type file_name w =
  if negb (has_bucket (store_at p w) b) then (Ok "", w)
  else
    match find_object (store_at p w) b o with
    | Some data =>
        (Ok (download_name file_type file_name),
         set_files (<[download_name file_type file_name := data]> (files w)) w)
    | None =>
        (Raise (S3Error "NoSuchKey"),
         set_files (delete (download_name file_type file_name) (files w)) w)
    end.
Proof.
  intros Hc.
  pose proof (get_client_cached p w c Hc) as Hg.
  pose proof (bucket_exists_cached p w c b Hc) as Hb.
  set (name := download_name file_type file_name).
  assert (∀ w1, store_at p w1 = store_at p w →
            has_bucket (store_at p w) b = true →
            (Minio.fget_object p c b o name;; mret name) w1 =
            match find_object (store_at p w) b o with
            | Some data => (Ok name, set_files (<[name := data]> (files w1)) w1)
            | None => (Raise (S3Error "NoSuchKey"), w1)
            end) as Hget.
  { intros w1 Hs [bk Hbk]%has_bucket_true.
    rewrite bind_run. unfold Minio.fget_object, find_object.
    rewrite Hs, Hbk. simpl. by destruct (objects bk !! o). }
  destruct (has_bucket (store_at p w) b) eqn:Hhb; simpl.
  2:{ destruct p; simpl in *;
        [unfold minio.download_object | unfold aws.download_object];
        by rewrite (bind_ok _ _ _ _ _ Hg), (bind_ok _ _ _ _ _ Hb). }
  assert ((pe ← path_exists name;
           when pe (os_remove name);;
           Minio.fget_object p c b o name;; mret name) w =
          match find_object (store_at p w) b o with
          | Some data => (Ok name, set_files (<[name := data]> (files w)) w)
          | None =>
              (Raise (S3Error "NoSuchKey"), set_files (delete name (files w)) w)
          end) as Hrest.
  { rewrite bind_run. unfold path_exists, gets.
    destruct (files w !! name) as [old|] eqn:Hf; simpl.
    - rewrite bind_run. unfold os_remove. rewrite Hf.
      rewrite (Hget _ (store_at_set_files p _ w) eq_refl).
      destruct (find_object (store_at p w) b o); [|done].
      simpl. by rewrite insert_delete_eq.
    - rewrite bind_run. simpl.
      rewrite (Hget w eq_refl eq_refl).
      destruct (find_object (store_at p w) b o); [done|].
      by rewrite delete_id, set_files_id. }
  destruct p; simpl in Hg, Hb |- *;
    [unfold minio.download_object | unfold aws.download_object];
    rewrite (bind_ok _ _ _ _ _ Hg), (bind_ok _ _ _ _ _ Hb);
    exact Hrest.
Qed.

Lemma download_object_warm p w b o file_type file_name :
  connected p w →
  on p minio.download_object aws.download_object b o file_type file_name w =
  on p minio.download_object aws.download_object b o file_type file_name (warm p w).
Proof.
  intros H. pose proof (get_client_warm p w H) as Hw.
  unfold on, minio.download_object, aws.download_object.
  destruct p; simpl in Hw; rewrite !bind_run; rewrite ?Hw; reflexivity.
Qed.

(** On a connected adapter, [download_object] from a bucket that does not
    exist returns the empty string and writes no file; when the object
    exists it returns the local path, which is the given file name or
    ["tmpfile.{file_type}"] when none (or an empty one) is given, and that
    file then holds the object's content, any earlier content being
    replaced; the providers are unchanged. *)
Theorem download_object_writes (p : Site) (w : World)
    (b o file_type : string) (file_name : option string) :
  connected p w →
  (store_at p w !! b = None →
     on p minio.download_object aws.download_object b o file_type file_name w
       = (Ok "", warm p w) ∧
     files (warm p w) = files w) ∧
  (∀ data, find_object (store_at p w) b o = Some data →
     ∃ w',
       on p minio.download_object aws.download_object b o file_type file_name w
         = (Ok (download_name file_type file_name), w') ∧
       files w' = <[download_name file_type file_name := data]> (files w) ∧
       minio_store w' = minio_store w ∧ aws_store w' = aws_store w).
Proof.
  intros Hcon. destruct (connected_warm p w Hcon) as [c Hc].
  rewrite (download_object_warm p w b o file_type file_name Hcon).
  rewrite (download_object_cached _ _ _ b o file_type file_name Hc).
  rewrite (store_at_warm p p w Hcon).
  destruct (warm_frame p w Hcon) as (_ & Hf & Hm & Ha & _).
  split.
  - intros Hb. by rewrite (proj2 (has_bucket_false _ _) Hb).
  - intros data Hd. rewrite Hd.
    pose proof Hd as (bk & Hbk & _)%find_object_Some.
    rewrite (proj2 (has_bucket_true _ _)) by eauto. simpl.
    eexists. split; [done|]. simpl. by rewrite Hf.
Qed.

Lemma download_object_writes_witness :
  (minio_store project_world !! "nope" = None →
     minio.download_object "nope" "x" "json" None project_world
       = (Ok "", warm SelfHosted project_world) ∧
     files (warm SelfHosted project_world) = files project_world) ∧
  (∀ data, find_object (minio_store project_world) "proj" "x" = Some data →
     ∃ w',
       minio.download_object "proj" "x" "json" None project_world
         = (Ok (download_name "json" None), w') ∧
       files w' = <[download_name "json" None := data]> (files project_world) ∧
       minio_store w' = minio_store project_world ∧
       aws_store w' = aws_store project_world).
Proof.
  split.
  - apply (download_object_writes SelfHosted project_world "nope" "x" "json" None).
    right. reflexivity.
  - apply (download_object_writes SelfHosted project_world "proj" "x" "json" None).
    right. reflexivity.
Defined.

(** On a connected adapter, [download_object] of an object that is missing
    from an existing bucket raises the provider's [NoSuchKey] error, and by
    then a local file that was at the target path has already been removed. *)
Theorem download_object_missing_object (p : Site) (w : World)
    (b o file_type : string) (file_name : option string) :
  connected p w →
  is_Some (store_at p w !! b) →
  find_object (store_at p w) b o = None →
  ∃ w',
    on p minio.download_object aws.download_object b o file_type file_name w
      = (Raise (S3Error "NoSuchKey"), w') ∧
    files w' = delete (download_name file_type file_name) (files w).
Proof.
  intros Hcon Hb Ho. destruct (connected_warm p w Hcon) as [c Hc].
  rewrite (download_object_warm p w b o file_type file_name Hcon).
  rewrite (download_object_cached _ _ _ b o file_type file_name Hc).
  rewrite (store_at_warm p p w Hcon).
  destruct (warm_frame p w Hcon) as (_ & Hf & _).
  rewrite (proj2 (has_bucket_true _ _) Hb), Ho. simpl.
  eexists. split; [done|]. simpl. by rewrite Hf.
Qed.

Definition download_world : World :=
  {| environ := example_environ;
     files := {[ "report.json" := "OLD" ]};
     stdout := []; minio_client := None; aws_client := None;
     minio_store := {[ "proj" := example_bucket [("x", "X")] ]};
     aws_store := ∅; sts_grants := [] |}.

Lemma download_object_missing_object_witness :
  ∃ w',
    minio.download_object "proj" "gone" "json" (Some "report.json") download_world
      = (Raise (S3Error "NoSuchKey"), w') ∧
    files w' = delete (download_name "json" (Some "report.json"))
                 (files download_world).
Proof.
  apply (download_object_missing_object SelfHosted download_world
           "proj" "gone" "json" (Some "report.json")).
  - right. reflexivity.
  - by eexists.
  - reflexivity.
Defined.

(** * Presigned links *)

Lemma create_access_link_cached p w c b o :
  cached p w = Some c →
  on p minio.create_access_link aws.create_access_link b o w =
  if has_object (store_at p w) b o then
    (Ok {| url_host := endpoint c; url_method := "GET";
           url_bucket := b; url_object := o; url_expires := 3600;
           url_response_headers :=
             [("response-content-type", "application/json")] |}, w)
  else
    (Raise (FileNotFoundError
       ("Object " ++ o ++ " couldn't be found in bucket " ++ b)), w).
Proof.
  intros Hc.
  pose proof (get_client_cached p w c Hc) as Hg.
  pose proof (object_exists_cached p w c b o Hc) as Ho.
  destruct p; simpl in *;
    [unfold minio.create_access_link | unfold aws.create_access_link];
    rewrite (bind_ok _ _ _ _ _ Hg), (bind_ok _ _ _ _ _ Ho);
    by destruct (has_object _ b o).
Qed.

Lemma create_access_link_warm p w b o :
  connected p w →
  on p minio.create_access_link aws.create_access_link b o w =
  on p minio.create_access_link aws.create_access_link b o (warm p w).
Proof.
  intros H. pose proof (get_client_warm p w H) as Hw.
  unfold on, minio.create_access_link, aws.create_access_link.
  destruct p; simpl in Hw; rewrite !bind_run; rewrite ?Hw; reflexivity.
Qed.

(** On a connected adapter, [create_access_link] for an object that does
    not exist raises [FileNotFoundError] naming the object and the bucket;
    for an existing object it returns a link bound to GET on that object,
    valid for one hour, that forces the response content type to
    [application/json].  Neither provider changes in either case. *)
Theorem create_access_link_checks (p : Site) (w : World) (b o : string) :
  connected p w →
  (find_object (store_at p w) b o = None →
     on p minio.create_access_link aws.create_access_link b o w =
     (Raise (FileNotFoundError
        ("Object " ++ o ++ " couldn't be found in bucket " ++ b)),
      warm p w)) ∧
  (is_Some (find_object (store_at p w) b o) →
     ∃ url,
       on p minio.create_access_link aws.create_access_link b o w
         = (Ok url, warm p w) ∧
       url_method url = "GET" ∧ url_bucket url = b ∧ url_object url = o ∧
       url_expires url = 3600 ∧
       url_response_headers url =
         [("response-content-type", "application/json")]) ∧
  minio_store (warm p w) = minio_store w ∧ aws_store (warm p w) = aws_store w.
Proof.
  intros Hcon. destruct (connected_warm p w Hcon) as [c Hc].
  rewrite (create_access_link_warm p w b o Hcon).
  rewrite (create_access_link_cached _ _ _ b o Hc).
  rewrite (store_at_warm p p w Hcon).
  destruct (warm_frame p w Hcon) as (_ & _ & Hm & Ha & _).
  split; [|split; [|done]].
  - intros Ho. by rewrite (proj2 (has_object_false _ _ _) Ho).
  - intros Ho. rewrite (proj2 (has_object_true _ _ _) Ho). eauto 10.
Qed.

Lemma create_access_link_checks_witness :
  (find_object (minio_store project_world) "proj" "gone" = None →
     minio.create_access_link "proj" "gone" project_world =
     (Raise (FileNotFoundError
        ("Object " ++ "gone" ++ " couldn't be found in bucket " ++ "proj")),
      warm SelfHosted project_world)) ∧
  (is_Some (find_object (minio_store project_world) "proj" "gone") →
     ∃ url,
       minio.create_access_link "proj" "gone" project_world
         = (Ok url, warm SelfHosted project_world) ∧
       url_method url = "GET" ∧ url_bucket url = "proj" ∧
       url_object url = "gone" ∧ url_expires url = 3600 ∧
       url_response_headers url =
         [("response-content-type", "application/json")]) ∧
  minio_store (warm SelfHosted project_world) = minio_store project_world ∧
  aws_store (warm SelfHosted project_world) = aws_store project_world.
Proof.
  apply (create_access_link_checks SelfHosted project_world "proj" "gone").
  right. reflexivity.
Defined.

Lemma upload_links_cached p w c b o :
  cached p w = Some c →
  can_create p w →
  on p minio.create_file_upload_link aws.create_file_upload_link b o w =
    (Ok {| url_host := endpoint c; url_method := "PUT";
           url_bucket := b; url_object := o; url_expires := 43200;
           url_response_headers := [] |}, ensured p b w) ∧
  on p minio.create_data_upload_link aws.create_data_upload_link b o w =
    (Ok {| url_host := endpoint c; url_method := "POST";
           url_bucket := b; url_object := o; url_expires := 43200;
           url_response_headers := [] |}, ensured p b w).
Proof.
  intros Hc Hcr.
  pose proof (get_client_cached p w c Hc) as Hg.
  pose proof (ensure_bucket_cached p w c b Hc Hcr) as He.
  rewrite bind_run in He.
  destruct p; simpl in *;
    unfold minio.create_file_upload_link, minio.create_data_upload_link,
      aws.create_file_upload_link, aws.create_data_upload_link;
    rewrite !(bind_ok _ _ _ _ _ Hg); rewrite !bind_run;
    (destruct (_ b w) as [[be|e] w1]; [|done]);
    by rewrite !(bind_ok _ _ _ _ _ He).
Qed.

Lemma upload_links_warm p w b o :
  connected p w →
  on p minio.create_file_upload_link aws.create_file_upload_link b o w =
  on p minio.create_file_upload_link aws.create_file_upload_link b o (warm p w) ∧
  on p minio.create_data_upload_link aws.create_data_upload_link b o w =
  on p minio.create_data_upload_link aws.create_data_upload_link b o (warm p w).
Proof.
  intros H. pose proof (get_client_warm p w H) as Hw.
  unfold on, minio.create_file_upload_link, minio.create_data_upload_link,
    aws.create_file_upload_link, aws.create_data_upload_link.
  split; destruct p; simpl in Hw; rewrite !bind_run; rewrite ?Hw; reflexivity.
Qed.

(** On a connected adapter that can create buckets, both upload-link
    functions return a link valid for twelve hours on the named object, PUT
    for [create_file_upload_link] and POST for [create_data_upload_link],
    whether or not the object exists; the bucket exists afterwards (it is
    created when absent) and no other bucket is touched. *)
Theorem upload_links_create_bucket (p : Site) (w : World) (b o : string) :
  connected p w → can_create p w →
  ∃ put post w',
    on p minio.create_file_upload_link aws.create_file_upload_link b o w
      = (Ok put, w') ∧
    on p minio.create_data_upload_link aws.create_data_upload_link b o w
      = (Ok post, w') ∧
    url_method put = "PUT" ∧ url_method post = "POST" ∧
    url_expires put = 43200 ∧ url_expires post = 43200 ∧
    url_bucket put = b ∧ url_object put = o ∧
    url_bucket post = b ∧ url_object post = o ∧
    is_Some (store_at p w' !! b) ∧
    (∀ b', b' ≠ b → store_at p w' !! b' = store_at p w !! b').
Proof.
  intros Hcon Hcr. destruct (connected_warm p w Hcon) as [c Hc].
  destruct (upload_links_warm p w b o Hcon) as [-> ->].
  destruct (upload_links_cached _ _ c b o Hc (can_create_warm p w Hcon Hcr))
    as [-> ->].
  eexists _, _, _. repeat (split; [done|]). split.
  - apply ensured_lookup.
  - intros b' Hne. rewrite (ensured_lookup_ne p b b' _ Hne).
    by rewrite (store_at_warm p p w Hcon).
Qed.

Lemma upload_links_create_bucket_witness :
  ∃ put post w',
    minio.create_file_upload_link "fresh" "x" project_world = (Ok put, w') ∧
    minio.create_data_upload_link "fresh" "x" project_world = (Ok post, w') ∧
    url_method put = "PUT" ∧ url_method post = "POST" ∧
    url_expires put = 43200 ∧ url_expires post = 43200 ∧
    url_bucket put = "fresh" ∧ url_object put = "x" ∧
    url_bucket post = "fresh" ∧ url_object post = "x" ∧
    is_Some (minio_store w' !! "fresh") ∧
    (∀ b', b' ≠ "fresh" → minio_store w' !! b' = minio_store project_world !! b').
Proof.
  apply (upload_links_create_bucket SelfHosted project_world "fresh" "x").
  - right. reflexivity.
  - exact I.
Defined.

(** * Archiving under a prefix, and archiving without deleting *)

Lemma store_ensure_archive_lookup p s b :
  b ≠ controller.ARCHIVE_BUCKET →
  store_ensure p s controller.ARCHIVE_BUCKET !! b = s !! b.
Proof.
  intros Hne. unfold store_ensure. destruct (has_bucket _ _); [done|].
  by rewrite lookup_insert_ne.
Qed.

Lemma archive_store_unfold p bucket prefix de s bk :
  bucket ≠ controller.ARCHIVE_BUCKET →
  s !! bucket = Some bk →
  archive_store p bucket prefix de s =
  let s1 := foldl (archive_step bucket de)
              (store_ensure p s controller.ARCHIVE_BUCKET) (names prefix bk) in
  if de then
    match s1 !! bucket with
    | Some bk1 => if decide (objects bk1 = ∅) then delete bucket s1 else s1
    | None => s1
    end
  else s1.
Proof.
  intros Hne Hb. unfold archive_store. fold (store_ensure p s controller.ARCHIVE_BUCKET).
  by rewrite (store_ensure_archive_lookup p s bucket Hne), Hb.
Qed.

Lemma archive_inv_start p bucket prefix s bk :
  bucket ≠ controller.ARCHIVE_BUCKET →
  s !! bucket = Some bk →
  archive_inv bucket (names prefix bk) (store_ensure p s controller.ARCHIVE_BUCKET).
Proof.
  intros Hne Hb. split; [apply names_NoDup|]. split; [apply store_ensure_lookup|].
  intros n [Hn _]%names_elem. rewrite find_object_store_ensure.
  unfold find_object. by rewrite Hb.
Qed.

(** One round that keeps the source object. *)
Lemma archive_step_keep bucket s x d :
  bucket ≠ controller.ARCHIVE_BUCKET →
  is_Some (s !! controller.ARCHIVE_BUCKET) →
  find_object s bucket x = Some d →
  let s' := archive_step bucket false s x in
  (∀ k, find_object s' controller.ARCHIVE_BUCKET k =
        if decide (k = archive_key bucket x) then Some d
        else find_object s controller.ARCHIVE_BUCKET k) ∧
  (∀ b, b ≠ controller.ARCHIVE_BUCKET → s' !! b = s !! b).
Proof.
  intros Hne Ha Hd. unfold archive_step.
  assert (find_object (store_delete s controller.ARCHIVE_BUCKET
                         (archive_key bucket x)) bucket x = Some d) as ->.
  { rewrite find_object_store_delete.
    by rewrite decide_False by (by intros [? _]). }
  cbv zeta. split.
  - intros k. rewrite find_object_store_put.
    destruct (decide (k = archive_key bucket x)) as [->|Hk].
    + rewrite decide_True by done.
      rewrite (proj2 (has_bucket_true _ _)); [done|].
      by apply lookup_store_delete.
    + rewrite decide_False by (by intros [_ ?]).
      rewrite find_object_store_delete.
      by rewrite decide_False by (by intros [_ ?]).
  - intros b Hb.
    rewrite lookup_store_put_ne by done.
    by rewrite lookup_store_delete_ne by done.
Qed.

Lemma foldl_archive_step_keep bucket l s :
  bucket ≠ controller.ARCHIVE_BUCKET →
  archive_inv bucket l s →
  let s' := foldl (archive_step bucket false) s l in
  (∀ n, n ∈ l →
        find_object s' controller.ARCHIVE_BUCKET (archive_key bucket n) =
        find_object s bucket n) ∧
  (∀ k, (∀ n, n ∈ l → k ≠ archive_key bucket n) →
        find_object s' controller.ARCHIVE_BUCKET k =
        find_object s controller.ARCHIVE_BUCKET k) ∧
  (∀ b, b ≠ controller.ARCHIVE_BUCKET → s' !! b = s !! b).
Proof.
  intros Hne. revert s. induction l as [|x l IH]; intros s Hinv.
  { cbn [foldl]. repeat split; try done. by intros n ?%elem_of_nil. }
  cbn [foldl].
  pose proof (archive_inv_step bucket false x l s Hinv) as Hinv'.
  destruct Hinv as (Hnd & Ha & Hin). apply NoDup_cons in Hnd as [Hx Hnd].
  destruct (Hin x) as [d Hd]; [left|].
  destruct (archive_step_keep bucket s x d Hne Ha Hd) as (S2 & S3).
  destruct (IH _ Hinv') as (I2 & I3 & I4).
  assert (∀ n, find_object (archive_step bucket false s x) bucket n
               = find_object s bucket n) as Hsame.
  { intros n. unfold find_object. by rewrite S3. }
  split; [|split].
  - intros n [->|Hn]%elem_of_cons.
    + rewrite I3.
      * rewrite S2. by rewrite decide_True.
      * intros n Hn E%archive_key_inj. by subst.
    + by rewrite (I2 n Hn), Hsame.
  - intros k Hk. rewrite I3.
    + rewrite S2. rewrite decide_False; [done|]. apply Hk. left.
    + intros n Hn. apply Hk. by right.
  - intros b Hb. by rewrite I4, S3.
Qed.

(** On a connected facade that can create the archive bucket, archiving an
    existing bucket other than the archive bucket with [delete_existing]
    false returns [True] and copies every object under the prefix to
    ["{bucket}/{name}"] in the archive bucket; the source bucket and every
    bucket other than the archive are exactly as before. *)
Theorem archive_bucket_copies (w : World) (bucket : string)
    (prefix : option string) (bk : Bucket) :
  connected (selected w) w →
  can_create (selected w) w →
  bucket ≠ controller.ARCHIVE_BUCKET →
  store_at (selected w) w !! bucket = Some bk →
  ∃ w',
    controller.archive_bucket bucket prefix false w = (Ok (Some true), w') ∧
    (∀ name data, objects bk !! name = Some data →
       Minio.has_prefix prefix name = true →
       find_object (store_at (selected w) w') controller.ARCHIVE_BUCKET
         (bucket ++ "/" ++ name) = Some data) ∧
    (∀ b, b ≠ controller.ARCHIVE_BUCKET →
       store_at (selected w) w' !! b = store_at (selected w) w !! b).
Proof.
  intros Hcon Hcr Hne Hb. pose proof (ready_warm w Hcon) as Hr.
  rewrite (archive_bucket_warm w bucket prefix false Hcon).
  rewrite <- (store_at_warm (selected w) _ w Hcon) in Hb.
  rewrite (archive_bucket_ready _ _ bucket prefix false Hr
             (can_create_warm _ w Hcon Hcr) (ex_intro _ bk Hb)).
  eexists. split; [done|]. rewrite store_at_set_eq.
  rewrite (archive_store_unfold _ bucket prefix false _ bk Hne Hb). cbv zeta.
  destruct (foldl_archive_step_keep bucket _ _ Hne
              (archive_inv_start (selected w) bucket prefix _ bk Hne Hb))
    as (F2 & F3 & F4).
  split.
  - intros name data Ho Hp. rewrite <- archive_key_app.
    rewrite F2 by (apply names_elem; rewrite Ho; eauto).
    rewrite find_object_store_ensure. unfold find_object. by rewrite Hb.
  - intros b Hb'. rewrite (F4 b Hb').
    rewrite (store_ensure_archive_lookup _ _ b Hb').
    by rewrite (store_at_warm _ _ w Hcon).
Qed.

Lemma archive_bucket_copies_witness :
  ∃ w',
    controller.archive_bucket "proj" (Some "x") false project_world
      = (Ok (Some true), w') ∧
    (∀ name data,
       objects (example_bucket [("x", "X"); ("y", "Y")]) !! name = Some data →
       Minio.has_prefix (Some "x") name = true →
       find_object (minio_store w') controller.ARCHIVE_BUCKET
         ("proj" ++ "/" ++ name) = Some data) ∧
    (∀ b, b ≠ controller.ARCHIVE_BUCKET →
       minio_store w' !! b = minio_store project_world !! b).
Proof.
  apply (archive_bucket_copies project_world "proj" (Some "x")
           (example_bucket [("x", "X"); ("y", "Y")])).
  - right. reflexivity.
  - exact I.
  - discriminate.
  - reflexivity.
Defined.

(** On a connected facade that can create the archive bucket, archiving an
    existing bucket other than the archive bucket under a prefix with
    [delete_existing] true moves exactly the objects under the prefix: each
    of them is in the archive bucket under ["{bucket}/{name}"] and gone from
    the source, while every object outside the prefix is still in the source
    bucket, which is therefore removed only when nothing is left in it. *)
Theorem archive_bucket_prefix (w : World) (bucket : string)
    (prefix : option string) (bk : Bucket) :
  connected (selected w) w →
  can_create (selected w) w →
  bucket ≠ controller.ARCHIVE_BUCKET →
  store_at (selected w) w !! bucket = Some bk →
  ∃ w',
    controller.archive_bucket bucket prefix true w = (Ok (Some true), w') ∧
    (∀ name data, objects bk !! name = Some data →
       if Minio.has_prefix prefix name then
         find_object (store_at (selected w) w') controller.ARCHIVE_BUCKET
           (bucket ++ "/" ++ name) = Some data ∧
         find_object (store_at (selected w) w') bucket name = None
       else
         find_object (store_at (selected w) w') bucket name = Some data) ∧
    (is_Some (store_at (selected w) w' !! bucket) ↔
       ∃ name, is_Some (objects bk !! name) ∧
               Minio.has_prefix prefix name = false).
Proof.
  intros Hcon Hcr Hne Hb. pose proof (ready_warm w Hcon) as Hr.
  rewrite (archive_bucket_warm w bucket prefix true Hcon).
  rewrite <- (store_at_warm (selected w) _ w Hcon) in Hb.
  rewrite (archive_bucket_ready _ _ bucket prefix true Hr
             (can_create_warm _ w Hcon Hcr) (ex_intro _ bk Hb)).
  eexists. split; [done|]. rewrite store_at_set_eq.
  rewrite (archive_store_unfold _ bucket prefix true _ bk Hne Hb). cbv zeta.
  set (s0 := store_ensure _ _ _).
  pose proof (archive_inv_start (selected w) bucket prefix _ bk Hne Hb) as Hinv.
  fold s0 in Hinv.
  destruct (foldl_archive_step_other bucket _ s0 Hne Hinv) as (F1 & F2 & F3 & F4).
  set (s1 := foldl _ s0 _) in *.
  assert (∀ n, find_object s0 bucket n = objects bk !! n) as Hfind.
  { intros n. unfold s0. rewrite find_object_store_ensure.
    unfold find_object. by rewrite Hb. }
  assert (is_Some (s1 !! bucket)) as [bk1 Hbk1].
  { unfold s1. apply foldl_archive_step_lookup. unfold s0.
    rewrite (store_ensure_archive_lookup _ _ bucket Hne). eauto. }
  assert (∀ n, objects bk1 !! n =
            if decide (n ∈ names prefix bk) then None else objects bk !! n)
    as Hbk1'.
  { intros n. specialize (F1 n). unfold find_object in F1 at 1.
    rewrite Hbk1 in F1. simpl in F1. by rewrite F1, Hfind. }
  assert (∀ n d, objects bk !! n = Some d →
            (n ∈ names prefix bk ↔ Minio.has_prefix prefix n = true)) as Hmem.
  { intros n d Ho. rewrite names_elem, Ho. split; [by intros [_ ?]|eauto]. }
  rewrite Hbk1.
  assert (objects bk1 = ∅ ↔
          ¬ ∃ name, is_Some (objects bk !! name) ∧
                    Minio.has_prefix prefix name = false) as Hempty.
  { split.
    - intros He (n & [d Hd] & Hp).
      pose proof (Hbk1' n) as Hn. rewrite He, lookup_empty in Hn.
      rewrite decide_False in Hn.
      + by rewrite Hd in Hn.
      + intros Hin%(Hmem n d Hd). by rewrite Hin in Hp.
    - intros Hno. apply map_eq. intros n. rewrite lookup_empty, Hbk1'.
      case_decide as Hin; [done|].
      destruct (objects bk !! n) as [d|] eqn:Hd; [|done].
      exfalso. apply Hno. exists n. split; [by rewrite Hd|].
      destruct (Minio.has_prefix prefix n) eqn:Hp; [|done].
      exfalso. by apply Hin, (Hmem n d Hd). }
  destruct (decide (objects bk1 = ∅)) as [He|Hn].
  - split.
    + intros name data Ho.
      destruct (Minio.has_prefix prefix name) eqn:Hp.
      * split.
        -- rewrite find_object_delete_bucket by done.
           rewrite <- archive_key_app, F2, Hfind; [done|].
           by apply (Hmem name data Ho).
        -- unfold find_object. by rewrite lookup_delete_eq.
      * exfalso. apply (proj1 Hempty He). exists name. by rewrite Ho.
    + rewrite lookup_delete_eq. split; [by intros [? ?]|].
      intros Hex. by apply (proj1 Hempty He) in Hex.
  - split.
    + intros name data Ho.
      destruct (Minio.has_prefix prefix name) eqn:Hp.
      * split.
        -- rewrite <- archive_key_app, F2, Hfind; [done|].
           by apply (Hmem name data Ho).
        -- rewrite F1. rewrite decide_True; [done|].
           by apply (Hmem name data Ho).
      * rewrite F1, decide_False, Hfind; [done|].
        intros Hin%(Hmem name data Ho). by rewrite Hin in Hp.
    + rewrite Hbk1. split; [|eauto]. intros _.
      destruct (map_choose _ Hn) as (n & d & Hd).
      rewrite Hbk1' in Hd. case_decide as Hin; [done|].
      exists n. split; [by rewrite Hd|].
      destruct (Minio.has_prefix prefix n) eqn:Hp; [|done].
      exfalso. by apply Hin, (Hmem n d Hd).
Qed.

Lemma archive_bucket_prefix_witness :
  ∃ w',
    controller.archive_bucket "proj" (Some "x") true project_world
      = (Ok (Some true), w') ∧
    (∀ name data,
       objects (example_bucket [("x", "X"); ("y", "Y")]) !! name = Some data →
       if Minio.has_prefix (Some "x") name then
         find_object (minio_store w') controller.ARCHIVE_BUCKET
           ("proj" ++ "/" ++ name) = Some data ∧
         find_object (minio_store w') "proj" name = None
       else
         find_object (minio_store w') "proj" name = Some data) ∧
    (is_Some (minio_store w' !! "proj") ↔
       ∃ name,
         is_Some (objects (example_bucket [("x", "X"); ("y", "Y")]) !! name) ∧
         Minio.has_prefix (Some "x") name = false).
Proof.
  apply (archive_bucket_prefix project_world "proj" (Some "x")
           (example_bucket [("x", "X"); ("y", "Y")])).
  - right. reflexivity.
  - exact I.
  - discriminate.
  - reflexivity.
Defined.

(** * More on credentials and clients *)

(** On a connected adapter that can create buckets, asking for download
    credentials for a bucket that does not exist creates that bucket, empty,
    as a side effect (with the webhook queue registered in the self-hosted
    variant); no other bucket changes. *)
Theorem get_download_credentials_creates_bucket (p : Site) (w : World)
    (b o : string) :
  connected p w → can_create p w →
  store_at p w !! b = None →
  ∃ creds w',
    on p minio.get_download_credentials aws.get_download_credentials b o w
      = (Ok creds, w') ∧
    store_at p w' = <[b := fresh_bucket p]> (store_at p w) ∧
    objects (fresh_bucket p) = ∅.
Proof.
  intros Hcon Hcr Hb.
  destruct (get_download_credentials_run p w b o Hcon Hcr)
    as (creds & w' & g & Hrun & _ & _ & Hs).
  exists creds, w'. split; [done|]. split; [|by destruct p].
  rewrite Hs, ensured_store, store_at_set_eq, (store_at_warm p p w Hcon).
  unfold store_ensure. by rewrite (proj2 (has_bucket_false _ _) Hb).
Qed.

Lemma get_download_credentials_creates_bucket_witness :
  ∃ creds w',
    minio.get_download_credentials "fresh" "x" project_world = (Ok creds, w') ∧
    minio_store w' = <["fresh" := fresh_bucket SelfHosted]> (minio_store project_world) ∧
    objects (fresh_bucket SelfHosted) = ∅.
Proof.
  apply (get_download_credentials_creates_bucket SelfHosted project_world "fresh" "x").
  - right. reflexivity.
  - exact I.
  - reflexivity.
Defined.

(** On a connected self-hosted adapter, handing
    [get_upload_credentials_and_id_with_endpoint] the endpoint that
    [S3_ENDPOINT] holds gives exactly what [get_upload_credentials_and_id]
    gives: the same credentials, the same request to the token service and
    the same world. *)
Theorem get_upload_credentials_with_endpoint_same (w : World)
    (b endpoint : string) :
  connected SelfHosted w →
  environ w !! "S3_ENDPOINT" = Some endpoint →
  minio.get_upload_credentials_and_id_with_endpoint b endpoint w =
  minio.get_upload_credentials_and_id b w.
Proof.
  intros Hcon He. destruct (connected_warm SelfHosted w Hcon) as [c Hc].
  pose proof (ensure_bucket_cached SelfHosted _ c b Hc I) as Hens.
  pose proof (bucket_exists_warm SelfHosted w b Hcon) as Hw.
  simpl in Hens, Hw. rewrite bind_run in Hens.
  unfold minio.get_upload_credentials_and_id_with_endpoint,
    minio.get_upload_credentials_and_id.
  rewrite !bind_run, Hw.
  destruct (minio.bucket_exists b (warm SelfHosted w)) as [[be|e] w1]; [|done].
  rewrite !(bind_ok _ _ _ _ _ Hens).
  assert (environ (ensured SelfHosted b (warm SelfHosted w)) !! "S3_ENDPOINT"
          = Some endpoint) as Henv.
  { destruct (warm_frame SelfHosted w Hcon) as (Hev & _).
    unfold ensured. destruct (has_bucket _ _); [by rewrite Hev|].
    by rewrite environ_set_store, Hev. }
  generalize dependent (ensured SelfHosted b (warm SelfHosted w)).
  intros w2 _ Henv.
  unfold minio.new_sts_client, getenv, gets.
  rewrite !bind_run. simpl. by rewrite Henv.
Qed.

Definition endpoint_world : World :=
  {| environ := <["S3_ENDPOINT" := "http://minio:9000"]> example_environ;
     files := ∅; stdout := []; minio_client := None; aws_client := None;
     minio_store := ∅; aws_store := ∅; sts_grants := [] |}.

Lemma get_upload_credentials_with_endpoint_same_witness :
  minio.get_upload_credentials_and_id_with_endpoint "proj" "http://minio:9000"
    endpoint_world =
  minio.get_upload_credentials_and_id "proj" endpoint_world.
Proof.
  apply (get_upload_credentials_with_endpoint_same endpoint_world
           "proj" "http://minio:9000").
  - right. reflexivity.
  - reflexivity.
Defined.

(** A forced [__init_client] of the cloud adapter replaces the cached client
    by one built from the environment when the environment is complete;
    when it is not, the call returns normally and the client cached before,
    if any, stays in place.  Either way it only adds the diagnostic line when
    [S3_TARGET] is not ["AWS"], and touches neither provider. *)
Theorem aws_init_client_forced (w : World) :
  ∃ w',
    aws.__init_client true w = (Ok tt, w') ∧
    aws_client w' =
      (if configured Cloud w then
         Some (Minio.new (environ w !! "S3_AWS_ENDPOINT")
                 (environ w !! "S3_AWS_ACCESS_KEY")
                 (environ w !! "S3_AWS_SECRET_KEY") true)
       else aws_client w) ∧
    stdout w' =
      (if bool_decide (environ w !! "S3_TARGET" = Some "AWS") then stdout w
       else (stdout w ++
               [("os target != AWS (" ++ py_str (environ w !! "S3_TARGET") ++ ")")%string])%list) ∧
    minio_store w' = minio_store w ∧ aws_store w' = aws_store w ∧
    minio_client w' = minio_client w.
Proof.
  unfold aws.__init_client, mbind, M_bind, gets, getenv, gets, when.
  rewrite andb_false_r. simpl.
  destruct (bool_decide (environ w !! "S3_TARGET" = Some "AWS")) eqn:Ht.
  - apply bool_decide_eq_true in Ht.
    rewrite bool_decide_eq_false_2 by (by intros ?).
    simpl. destruct (_ && _ && _ && _); simpl; eauto 10.
  - apply bool_decide_eq_false in Ht.
    rewrite bool_decide_eq_true_2 by done.
    simpl. destruct (_ && _ && _ && _); simpl; eauto 10.
Qed.

(** * The shape of a UUID bucket name *)






(** * Which buckets [empty_storage] removes *)






(** * Transferring a bucket from the self-hosted to the cloud provider *)

(** A loop whose body is a function of the world runs as a fold. *)
Lemma for_each_world {A} (body : A → M unit) (step : World → A → World)
    (Inv : list A → World → Prop) :
  (∀ x l w, Inv (x :: l) w → Inv l (step w x)) →
  (∀ x l w, Inv (x :: l) w → body x w = (Ok tt, step w x)) →
  ∀ l w, Inv l w → for_each l body w = (Ok tt, foldl step w l).
Proof.
  intros Hinv Hbody l. induction l as [|x l IH]; intros w HI; [done|].
  cbn [for_each foldl]. rewrite (bind_ok _ _ _ _ _ (Hbody x l w HI)).
  apply IH. by eapply Hinv.
Qed.

(** The temporary file every object passes through. *)
Definition transfer_file : string := "tmpfile.".

(** What one round of the loop of the transfer does to the world. *)
Definition transfer_step (b : string) (remove_from_minio : bool)
    (w : World) (x : string) : World :=
  match find_object (minio_store w) b x with
  | Some data =>
      let w1 :=
        set_store_at Cloud
          (store_put (store_delete (aws_store w) b x) b x data) w in
      let w2 := set_files (delete transfer_file (files w)) w1 in
      if remove_from_minio
      then set_store_at SelfHosted (store_delete (minio_store w) b x) w2
      else w2
  | None => w
  end.

Lemma transfer_round b rm force w c1 c2 x data :
  minio_client w = Some c1 →
  aws_client w = Some c2 →
  find_object (minio_store w) b x = Some data →
  is_Some (aws_store w !! b) →
  force = true ∨ find_object (aws_store w) b x = None →
  (local_file_name ← minio.download_object b x "" None;
   aws.upload_object b x local_file_name force;;
   os_remove local_file_name;;
   when rm (call (minio.delete_object b x))) w =
  (Ok tt, transfer_step b rm w x).
Proof.
  intros Hc1 Hc2 Hd Ha Hf.
  pose proof Hd as (bk & Hbk & _)%find_object_Some.
  (* download *)
  pose proof (download_object_cached SelfHosted w c1 b x "" None Hc1) as Hdl.
  simpl in Hdl. rewrite Hd in Hdl.
  rewrite (proj2 (has_bucket_true _ _)) in Hdl by eauto. simpl in Hdl.
  rewrite (bind_ok _ _ _ _ _ Hdl).
  (* upload *)
  set (wa := set_files _ w).
  pose proof (upload_object_cached Cloud wa c2 b x "tmpfile." force Hc2) as Hup.
  simpl in Hup.
  rewrite (proj2 (has_bucket_true _ _) Ha) in Hup. simpl in Hup.
  assert (has_object (aws_store w) b x && negb force = false) as Hnc.
  { destruct Hf as [->|Hf]; [apply andb_false_r|].
    by rewrite (proj2 (has_object_false _ _ _) Hf). }
  rewrite Hnc in Hup.
  unfold download_name in Hup. simpl in Hup.
  rewrite lookup_insert_eq in Hup.
  rewrite (bind_ok _ _ _ _ _ Hup).
  (* os.remove *)
  rewrite bind_run. unfold os_remove. simpl. rewrite lookup_insert_eq.
  rewrite delete_insert_eq.
  unfold transfer_step. rewrite Hd. cbv zeta.
  destruct rm; simpl.
  - unfold call. rewrite bind_run.
    match goal with |- context [minio.delete_object b x ?w0] =>
      pose proof (delete_object_cached SelfHosted w0 c1 b x Hc1) as Hdel
    end.
    simpl in Hdel. rewrite Hdel. by destruct w.
  - by destruct w.
Qed.

Section transfer.
Context (b : string) (rm force : bool) (c1 c2 : client).

(** What the loop of the transfer relies on from round to round. *)
Definition transfer_inv (l : list string) (w : World) : Prop :=
  minio_client w = Some c1 ∧ aws_client w = Some c2 ∧ NoDup l ∧
  is_Some (aws_store w !! b) ∧
  (∀ n, n ∈ l → is_Some (find_object (minio_store w) b n)) ∧
  (force = true ∨ ∀ n, n ∈ l → find_object (aws_store w) b n = None).

Lemma transfer_step_frame w x data :
  find_object (minio_store w) b x = Some data →
  minio_client (transfer_step b rm w x) = minio_client w ∧
  aws_client (transfer_step b rm w x) = aws_client w ∧
  minio_store (transfer_step b rm w x) =
    (if rm then store_delete (minio_store w) b x else minio_store w) ∧
  aws_store (transfer_step b rm w x) =
    store_put (store_delete (aws_store w) b x) b x data ∧
  files (transfer_step b rm w x) = delete transfer_file (files w).
Proof. intros Hd. unfold transfer_step. rewrite Hd. by destruct rm. Qed.

Lemma find_object_put_delete s x data b' n :
  is_Some (s !! b) →
  find_object (store_put (store_delete s b x) b x data) b' n =
  if decide (b = b' ∧ x = n) then Some data else find_object s b' n.
Proof.
  intros Hs. rewrite find_object_store_put.
  rewrite (proj2 (has_bucket_true _ _)) by (by apply lookup_store_delete).
  case_decide; [done|]. rewrite find_object_store_delete.
  by rewrite decide_False.
Qed.

Lemma transfer_inv_step x l w :
  transfer_inv (x :: l) w → transfer_inv l (transfer_step b rm w x).
Proof.
  intros (Hc1 & Hc2 & Hnd & Ha & Hin & Hf).
  apply NoDup_cons in Hnd as [Hx Hnd].
  destruct (Hin x) as [data Hd]; [left|].
  destruct (transfer_step_frame w x data Hd) as (S1 & S2 & S3 & S4 & _).
  unfold transfer_inv. rewrite S1, S2, S3, S4.
  split; [done|]. split; [done|]. split; [done|]. split; [|split].
  - by apply lookup_store_put, lookup_store_delete.
  - intros n Hn. assert (x ≠ n) by (by intros ->).
    destruct rm; [|apply Hin; by right].
    rewrite find_object_store_delete.
    rewrite decide_False by (by intros [_ ?]). apply Hin. by right.
  - destruct Hf as [?|Hf]; [by left|right].
    intros n Hn. assert (x ≠ n) by (by intros ->).
    rewrite (find_object_put_delete _ _ _ _ _ Ha).
    rewrite decide_False by (by intros [_ ?]). apply Hf. by right.
Qed.

Lemma transfer_loop l w :
  transfer_inv l w →
  for_each l (λ obj,
    local_file_name ← minio.download_object b obj "" None;
    aws.upload_object b obj local_file_name force;;
    os_remove local_file_name;;
    when rm (call (minio.delete_object b obj))) w =
  (Ok tt, foldl (transfer_step b rm) w l).
Proof.
  apply (for_each_world _ (transfer_step b rm) transfer_inv).
  - apply transfer_inv_step.
  - intros x l' w1 (Hc1 & Hc2 & _ & Ha & Hin & Hf).
    destruct (Hin x) as [data Hd]; [left|].
    apply (transfer_round b rm force w1 c1 c2 x data Hc1 Hc2 Hd Ha).
    destruct Hf as [?|Hf]; [by left|right]. apply Hf. left.
Qed.

(** What the whole loop leaves behind. *)
Lemma transfer_fold l w :
  transfer_inv l w →
  let w' := foldl (transfer_step b rm) w l in
  minio_client w' = Some c1 ∧ aws_client w' = Some c2 ∧
  minio_store w' =
    (if rm then foldl (λ s o, store_delete s b o) (minio_store w) l
     else minio_store w) ∧
  (∀ n, n ∈ l →
     find_object (aws_store w') b n = find_object (minio_store w) b n) ∧
  (∀ b' n, ¬ (b' = b ∧ n ∈ l) →
     find_object (aws_store w') b' n = find_object (aws_store w) b' n) ∧
  files w' = (if l is [] then files w else delete transfer_file (files w)).
Proof.
  revert w. induction l as [|x l IH]; intros w Hinv; cbn [foldl].
  { destruct Hinv as (? & ? & _). repeat split; try done.
    - by destruct rm.
    - by intros n ?%elem_of_nil. }
  pose proof (transfer_inv_step x l w Hinv) as Hinv'.
  destruct Hinv as (Hc1 & Hc2 & Hnd & Ha & Hin & Hf).
  apply NoDup_cons in Hnd as [Hx Hnd].
  destruct (Hin x) as [data Hd]; [left|].
  destruct (transfer_step_frame w x data Hd) as (S1 & S2 & S3 & S4 & S5).
  destruct (IH _ Hinv') as (I1 & I2 & I3 & I4 & I5 & I6).
  split; [done|]. split; [done|]. split; [|split; [|split]].
  - rewrite I3, S3. by destruct rm.
  - intros n [->|Hn]%elem_of_cons.
    + rewrite I5 by (by intros [_ ?]).
      rewrite S4, (find_object_put_delete _ _ _ _ _ Ha).
      by rewrite decide_True.
    + rewrite (I4 n Hn), S3. destruct rm; [|done].
      rewrite find_object_store_delete.
      by rewrite decide_False by (intros [_ ->]; done).
  - intros b' n Hn. rewrite I5.
    + rewrite S4, (find_object_put_delete _ _ _ _ _ Ha).
      rewrite decide_False; [done|]. intros [<- <-]. apply Hn. split; [done|left].
    + intros [-> ?]. apply Hn. split; [done|by right].
  - rewrite I6, S5. destruct l; [done|]. by rewrite delete_delete_eq.
Qed.

End transfer.

Lemma cached_warm_other p q w :
  p ≠ q → connected p w → cached q (warm p w) = cached q w.
Proof.
  intros Hne [[c Hc]|Hcfg].
  - by rewrite (warm_cached _ _ _ Hc).
  - destruct (cached p w) as [c|] eqn:Hc.
    { by rewrite (warm_cached _ _ _ Hc). }
    unfold warm. destruct p, q; try done; simpl in *.
    + unfold minio.__get_client, mbind, M_bind, gets, getenv, gets, when.
      rewrite Hc. simpl. rewrite Hcfg. simpl. done.
    + unfold aws.__get_client, aws.__init_client, mbind, M_bind, gets,
        getenv, gets, when.
      rewrite Hc. simpl. rewrite Hc. simpl.
      case_bool_decide; simpl; rewrite Hcfg; simpl; done.
Qed.

Lemma connected_warm_other p q w :
  p ≠ q → connected p w → connected q w → connected q (warm p w).
Proof.
  intros Hne Hp [Hq|Hq].
  - left. by rewrite (cached_warm_other p q w Hne Hp).
  - right. destruct (warm_frame p w Hp) as (He & _).
    destruct q; simpl in *; by rewrite He.
Qed.

(** On a connected self-hosted adapter, transferring a bucket that the
    self-hosted provider does not have returns [False] and changes no
    bucket, no object and no local file; the cloud adapter is not even
    asked. *)
Theorem transfer_missing_source (w : World) (b : string)
    (remove_from_minio force_overwrite : bool) :
  connected SelfHosted w →
  minio_store w !! b = None →
  controller.transfer_bucket_from_minio_to_aws b remove_from_minio
    force_overwrite w = (Ok false, warm SelfHosted w) ∧
  minio_store (warm SelfHosted w) = minio_store w ∧
  aws_store (warm SelfHosted w) = aws_store w ∧
  files (warm SelfHosted w) = files w ∧
  aws_client (warm SelfHosted w) = aws_client w.
Proof.
  intros Hcon Hb. destruct (connected_warm SelfHosted w Hcon) as [c Hc].
  pose proof (bucket_exists_warm SelfHosted w b Hcon) as Hw.
  pose proof (bucket_exists_cached SelfHosted _ c b Hc) as Hbe.
  simpl in Hw, Hbe. rewrite <- Hw in Hbe.
  destruct (warm_frame SelfHosted w Hcon) as (_ & Hf & Hm & Ha & _).
  rewrite Hm in Hbe. rewrite (proj2 (has_bucket_false _ _) Hb) in Hbe.
  unfold controller.transfer_bucket_from_minio_to_aws.
  rewrite (bind_ok _ _ _ _ _ Hbe). simpl.
  repeat split; try done.
  apply (cached_warm_other SelfHosted Cloud w); done.
Qed.

Lemma transfer_missing_source_witness :
  controller.transfer_bucket_from_minio_to_aws "nope" true false project_world
    = (Ok false, warm SelfHosted project_world) ∧
  minio_store (warm SelfHosted project_world) = minio_store project_world ∧
  aws_store (warm SelfHosted project_world) = aws_store project_world ∧
  files (warm SelfHosted project_world) = files project_world ∧
  aws_client (warm SelfHosted project_world) = aws_client project_world.
Proof.
  apply (transfer_missing_source project_world "nope" true false).
  - right. reflexivity.
  - reflexivity.
Defined.

(** With both adapters connected and the cloud one able to create buckets,
    transferring a bucket of the self-hosted provider returns [True]
    provided no object of it is already on the cloud side or
    [force_overwrite] is true.  Afterwards every object of the bucket is in
    the cloud bucket of the same name with the same content, and no other
    cloud bucket has changed; the self-hosted provider has lost the bucket
    when [remove_from_minio] is true and is unchanged otherwise; and if the
    bucket held any object, the local file ["tmpfile."] is gone, every other
    local file being as before. *)
Theorem transfer_moves_objects (w : World) (b : string) (bk : Bucket)
    (remove_from_minio force_overwrite : bool) :
  connected SelfHosted w →
  connected Cloud w →
  can_create Cloud w →
  minio_store w !! b = Some bk →
  (force_overwrite = true ∨
   ∀ n, is_Some (objects bk !! n) → find_object (aws_store w) b n = None) →
  ∃ w',
    controller.transfer_bucket_from_minio_to_aws b remove_from_minio
      force_overwrite w = (Ok true, w') ∧
    (∀ n data, objects bk !! n = Some data →
       find_object (aws_store w') b n = Some data) ∧
    (∀ b' n, b' ≠ b →
       find_object (aws_store w') b' n = find_object (aws_store w) b' n) ∧
    minio_store w' =
      (if remove_from_minio then delete b (minio_store w) else minio_store w) ∧
    files w' =
      (if decide (objects bk = ∅) then files w
       else delete transfer_file (files w)).
Proof.
  intros Hcon1 Hcon2 Hcr Hb Hf.
  (* the self-hosted adapter warms up *)
  destruct (connected_warm SelfHosted w Hcon1) as [c1 Hc1].
  pose proof (bucket_exists_warm SelfHosted w b Hcon1) as Hw1.
  pose proof (bucket_exists_cached SelfHosted _ c1 b Hc1) as Hbe.
  simpl in Hw1, Hbe. rewrite <- Hw1 in Hbe.
  destruct (warm_frame SelfHosted w Hcon1) as (He1 & Hf1 & Hm1 & Ha1 & _).
  rewrite Hm1 in Hbe.
  rewrite (proj2 (has_bucket_true _ _)) in Hbe by eauto.
  unfold controller.transfer_bucket_from_minio_to_aws.
  rewrite (bind_ok _ _ _ _ _ Hbe). cbn [negb].
  set (w1 := warm SelfHosted w) in *.
  (* the cloud adapter warms up and makes sure the bucket exists *)
  assert (connected Cloud w1) as Hcon2'
    by (by apply connected_warm_other).
  assert (can_create Cloud w1) as Hcr1 by (simpl in *; by rewrite He1).
  destruct (connected_warm Cloud w1 Hcon2') as [c2 Hc2].
  pose proof (bucket_exists_warm Cloud w1 b Hcon2') as Hw2.
  pose proof (ensure_bucket_cached Cloud _ c2 b Hc2
                (can_create_warm Cloud w1 Hcon2' Hcr1)) as Hens.
  destruct (warm_frame Cloud w1 Hcon2') as (He2 & Hf2 & Hm2 & Ha2 & _).
  pose proof (cached_warm_other Cloud SelfHosted w1 ltac:(done) Hcon2') as Hc1'.
  simpl in Hw2, Hens, Hc1', Hc1, Hc2. rewrite bind_run in Hens.
  rewrite bind_run, Hw2.
  destruct (aws.bucket_exists b (warm Cloud w1)) as [[ae|e] w2']; [|done].
  rewrite (bind_ok _ _ _ _ _ Hens).
  set (w3 := ensured Cloud b (warm Cloud w1)).
  assert (minio_client w3 = Some c1) as H3c1.
  { unfold w3. rewrite (ensured_cached Cloud SelfHosted). simpl. congruence. }
  assert (aws_client w3 = Some c2) as H3c2.
  { unfold w3. by rewrite (ensured_cached Cloud Cloud). }
  assert (minio_store w3 = minio_store w) as H3m.
  { unfold w3. rewrite ensured_store. simpl. congruence. }
  assert (aws_store w3 = store_ensure Cloud (aws_store w) b) as H3a.
  { unfold w3. rewrite ensured_store. simpl. congruence. }
  assert (files w3 = files w) as H3f.
  { unfold w3. rewrite ensured_store. simpl. congruence. }
  (* the listing *)
  pose proof (get_bucket_objects_cached SelfHosted w3 c1 b bk None H3c1) as Hls.
  simpl in Hls. rewrite H3m in Hls. specialize (Hls Hb).
  rewrite (bind_ok _ _ _ _ _ Hls).
  (* the loop *)
  assert (transfer_inv b force_overwrite c1 c2 (names None bk) w3) as Hinv.
  { split; [done|]. split; [done|]. split; [apply names_NoDup|].
    rewrite H3m, H3a. split; [apply store_ensure_lookup|]. split.
    - intros n [Hn _]%names_elem. unfold find_object. by rewrite Hb.
    - destruct Hf as [?|Hf]; [by left|right].
      intros n [Hn _]%names_elem. rewrite find_object_store_ensure. by apply Hf. }
  rewrite (bind_ok _ _ _ _ _
             (transfer_loop b remove_from_minio force_overwrite c1 c2 _ w3 Hinv)).
  destruct (transfer_fold b remove_from_minio force_overwrite c1 c2 _ w3 Hinv)
    as (F1 & F2 & F3 & F4 & F5 & F6).
  set (w4 := foldl _ w3 _) in *.
  rewrite H3m in F3, F4. rewrite H3a in F5. rewrite H3f in F6.
  assert (files w4 = if decide (objects bk = ∅) then files w
                     else delete transfer_file (files w)) as Hfiles.
  { rewrite F6. destruct (names None bk) as [|x l] eqn:Hn.
    - by rewrite decide_True by (by apply names_all_nil).
    - rewrite decide_False; [done|]. intros He%names_all_nil. by rewrite He in Hn. }
  assert (∀ n data, objects bk !! n = Some data →
            find_object (aws_store w4) b n = Some data) as Hcopied.
  { intros n data Ho. rewrite F4 by (apply names_elem; rewrite Ho; eauto).
    unfold find_object. by rewrite Hb. }
  assert (∀ b' n, b' ≠ b →
            find_object (aws_store w4) b' n = find_object (aws_store w) b' n)
    as Hframe.
  { intros b' n Hne. rewrite F5 by (by intros [? _]).
    apply find_object_store_ensure. }
  destruct remove_from_minio; simpl.
  - rewrite (foldl_store_delete_all b _ bk Hb) in F3.
    pose proof (remove_bucket_cached SelfHosted w4 c1 b (set_objects ∅ bk) F1)
      as Hrm.
    simpl in Hrm. rewrite F3 in Hrm. rewrite lookup_insert_eq in Hrm.
    specialize (Hrm eq_refl eq_refl). rewrite delete_insert_eq in Hrm.
    unfold call. rewrite (bind_ok _ _ _ _ _ (bind_ok _ _ _ _ _ Hrm)).
    eexists. split; [done|]. simpl. done.
  - eexists. split; [done|]. rewrite F3. done.
Qed.

(** A process with both adapters configured, as during a migration. *)
Definition migration_world : World :=
  {| environ :=
       list_to_map
         [ ("S3_ENDPOINT_LOCAL", "minio:9000"); ("S3_ACCESS_KEY", "key");
           ("S3_SECRET_KEY", "secret");
           ("S3_AWS_ENDPOINT", "s3.amazonaws.com");
           ("S3_AWS_REGION", "eu-west-1"); ("S3_AWS_ACCESS_KEY", "key");
           ("S3_AWS_SECRET_KEY", "secret") ];
     files := {[ "tmpfile." := "left over" ]};
     stdout := []; minio_client := None; aws_client := None;
     minio_store := {[ "proj" := example_bucket [("x", "X"); ("y", "Y")] ]};
     aws_store := ∅; sts_grants := [] |}.

Lemma transfer_moves_objects_witness :
  ∃ w',
    controller.transfer_bucket_from_minio_to_aws "proj" true false
      migration_world = (Ok true, w') ∧
    (∀ n data,
       objects (example_bucket [("x", "X"); ("y", "Y")]) !! n = Some data →
       find_object (aws_store w') "proj" n = Some data) ∧
    (∀ b' n, b' ≠ "proj" →
       find_object (aws_store w') b' n =
       find_object (aws_store migration_world) b' n) ∧
    minio_store w' = delete "proj" (minio_store migration_world) ∧
    files w' =
      (if decide (objects (example_bucket [("x", "X"); ("y", "Y")]) = ∅)
       then files migration_world
       else delete transfer_file (files migration_world)).
Proof.
  apply (transfer_moves_objects migration_world "proj"
           (example_bucket [("x", "X"); ("y", "Y")]) true false).
  - right. reflexivity.
  - right. reflexivity.
  - reflexivity.
  - reflexivity.
  - right. intros n _. reflexivity.
Defined.

(** The transfer does not skip what is already on the cloud side: without
    [force_overwrite], an object that exists there under the same name makes
    the upload raise the conflict error, leaving the downloaded copy in the
    local file ["tmpfile."] and the source untouched. *)
Lemma transfer_round_conflict b rm w c1 c2 x data old :
  minio_client w = Some c1 →
  aws_client w = Some c2 →
  find_object (minio_store w) b x = Some data →
  find_object (aws_store w) b x = Some old →
  (local_file_name ← minio.download_object b x "" None;
   aws.upload_object b x local_file_name false;;
   os_remove local_file_name;;
   when rm (call (minio.delete_object b x))) w =
  (Raise (ValueError conflict_message),
   set_files (<[transfer_file := data]> (files w)) w).
Proof.
  intros Hc1 Hc2 Hd Ho.
  pose proof Hd as (bk & Hbk & _)%find_object_Some.
  pose proof (download_object_cached SelfHosted w c1 b x "" None Hc1) as Hdl.
  simpl in Hdl. rewrite Hd in Hdl.
  rewrite (proj2 (has_bucket_true _ _)) in Hdl by eauto. simpl in Hdl.
  rewrite (bind_ok _ _ _ _ _ Hdl).
  set (wa := set_files _ w).
  pose proof (upload_object_cached Cloud wa c2 b x "tmpfile." false Hc2) as Hup.
  simpl in Hup.
  assert (has_object (aws_store w) b x = true) as Hho
    by (apply has_object_true; rewrite Ho; eauto).
  rewrite (has_object_has_bucket _ _ _ Hho), Hho in Hup. simpl in Hup.
  by rewrite (bind_raise _ _ _ _ _ Hup).
Qed.

Lemma find_object_is_Some_bucket s b o :
  is_Some (find_object s b o) → is_Some (s !! b).
Proof. intros [d (bk & Hb & _)%find_object_Some]. eauto. Qed.

Lemma lookup_store_ensure_any p s b b' :
  is_Some (s !! b') → is_Some (store_ensure p s b !! b').
Proof.
  intros Hs. unfold store_ensure. destruct (has_bucket s b) eqn:Hb; [done|].
  destruct (decide (b = b')) as [<-|Hne].
  - rewrite lookup_insert_eq. eauto.
  - by rewrite lookup_insert_ne.
Qed.

Lemma transfer_loop_conflict b rm c1 c2 l w :
  minio_client w = Some c1 →
  aws_client w = Some c2 →
  NoDup l →
  is_Some (aws_store w !! b) →
  (∀ n, n ∈ l → is_Some (find_object (minio_store w) b n)) →
  (∃ n, n ∈ l ∧ is_Some (find_object (aws_store w) b n)) →
  ∃ w',
    for_each l (λ obj,
      local_file_name ← minio.download_object b obj "" None;
      aws.upload_object b obj local_file_name false;;
      os_remove local_file_name;;
      when rm (call (minio.delete_object b obj))) w =
    (Raise (ValueError conflict_message), w') ∧
    is_Some (minio_store w' !! b).
Proof.
  revert w. induction l as [|x l IH]; intros w Hc1 Hc2 Hnd Ha Hin Hex.
  { destruct Hex as (n & ?%elem_of_nil & _). done. }
  apply NoDup_cons in Hnd as [Hx Hnd].
  destruct (Hin x) as [data Hd]; [left|].
  cbn [for_each].
  destruct (find_object (aws_store w) b x) as [old|] eqn:Hox.
  - rewrite (bind_raise _ _ _ _ _
               (transfer_round_conflict b rm w c1 c2 x data old Hc1 Hc2 Hd Hox)).
    eexists. split; [done|]. simpl.
    apply find_object_Some in Hd as (bk & -> & _). eauto.
  - rewrite (bind_ok _ _ _ _ _
               (transfer_round b rm false w c1 c2 x data Hc1 Hc2 Hd Ha
                  (or_intror Hox))).
    destruct (transfer_step_frame b rm w x data Hd) as (S1 & S2 & S3 & S4 & _).
    apply IH.
    + by rewrite S1.
    + by rewrite S2.
    + done.
    + rewrite S4. by apply lookup_store_put, lookup_store_delete.
    + intros n Hn. assert (x ≠ n) by (by intros ->). rewrite S3.
      destruct rm; [|apply Hin; by right].
      rewrite find_object_store_delete.
      rewrite decide_False by (by intros [_ ?]). apply Hin. by right.
    + destruct Hex as (n & [->|Hn]%elem_of_cons & Hon).
      { rewrite Hox in Hon. by destruct Hon. }
      exists n. split; [done|]. assert (x ≠ n) by (by intros ->).
      rewrite S4, (find_object_put_delete _ _ _ _ _ _ Ha).
      by rewrite decide_False by (by intros [_ ?]).
Qed.

(** How the transfer reaches its loop. *)
Lemma transfer_start (w : World) (b : string) (bk : Bucket) (rm force : bool) :
  connected SelfHosted w →
  connected Cloud w →
  can_create Cloud w →
  minio_store w !! b = Some bk →
  ∃ w3 c1 c2,
    controller.transfer_bucket_from_minio_to_aws b rm force w =
      (for_each (names None bk) (λ obj,
         local_file_name ← minio.download_object b obj "" None;
         aws.upload_object b obj local_file_name force;;
         os_remove local_file_name;;
         when rm (call (minio.delete_object b obj)));;
       when rm (call (minio.remove_bucket b));;
       mret true) w3 ∧
    minio_client w3 = Some c1 ∧ aws_client w3 = Some c2 ∧
    minio_store w3 = minio_store w ∧
    aws_store w3 = store_ensure Cloud (aws_store w) b ∧
    files w3 = files w.
Proof.
  intros Hcon1 Hcon2 Hcr Hb.
  destruct (connected_warm SelfHosted w Hcon1) as [c1 Hc1].
  pose proof (bucket_exists_warm SelfHosted w b Hcon1) as Hw1.
  pose proof (bucket_exists_cached SelfHosted _ c1 b Hc1) as Hbe.
  simpl in Hw1, Hbe. rewrite <- Hw1 in Hbe.
  destruct (warm_frame SelfHosted w Hcon1) as (He1 & Hf1 & Hm1 & Ha1 & _).
  rewrite Hm1 in Hbe.
  rewrite (proj2 (has_bucket_true _ _)) in Hbe by eauto.
  unfold controller.transfer_bucket_from_minio_to_aws.
  rewrite (bind_ok _ _ _ _ _ Hbe). cbn [negb].
  set (w1 := warm SelfHosted w) in *.
  assert (connected Cloud w1) as Hcon2'
    by (by apply connected_warm_other).
  assert (can_create Cloud w1) as Hcr1 by (simpl in *; by rewrite He1).
  destruct (connected_warm Cloud w1 Hcon2') as [c2 Hc2].
  pose proof (bucket_exists_warm Cloud w1 b Hcon2') as Hw2.
  pose proof (ensure_bucket_cached Cloud _ c2 b Hc2
                (can_create_warm Cloud w1 Hcon2' Hcr1)) as Hens.
  destruct (warm_frame Cloud w1 Hcon2') as (He2 & Hf2 & Hm2 & Ha2 & _).
  pose proof (cached_warm_other Cloud SelfHosted w1 ltac:(done) Hcon2') as Hc1'.
  simpl in Hw2, Hens, Hc1', Hc1, Hc2. rewrite bind_run in Hens.
  rewrite bind_run, Hw2.
  destruct (aws.bucket_exists b (warm Cloud w1)) as [[ae|e] w2']; [|done].
  rewrite (bind_ok _ _ _ _ _ Hens).
  set (w3 := ensured Cloud b (warm Cloud w1)).
  assert (minio_client w3 = Some c1) as H3c1.
  { unfold w3. rewrite (ensured_cached Cloud SelfHosted). simpl. congruence. }
  assert (aws_client w3 = Some c2) as H3c2.
  { unfold w3. by rewrite (ensured_cached Cloud Cloud). }
  assert (minio_store w3 = minio_store w) as H3m.
  { unfold w3. rewrite ensured_store. simpl. congruence. }
  assert (aws_store w3 = store_ensure Cloud (aws_store w) b) as H3a.
  { unfold w3. rewrite ensured_store. simpl. congruence. }
  assert (files w3 = files w) as H3f.
  { unfold w3. rewrite ensured_store. simpl. congruence. }
  pose proof (get_bucket_objects_cached SelfHosted w3 c1 b bk None H3c1) as Hls.
  simpl in Hls. rewrite H3m in Hls. specialize (Hls Hb).
  rewrite (bind_ok _ _ _ _ _ Hls).
  exists w3, c1, c2. done.
Qed.

(** With both adapters connected, transferring a bucket without
    [force_overwrite] while one of its objects already exists on the cloud
    side under the same name does not skip that object: the transfer stops
    with the conflict error (objects listed before it have been transferred
    by then), and the source bucket is still there. *)
Theorem transfer_conflict (w : World) (b : string) (bk : Bucket)
    (remove_from_minio : bool) :
  connected SelfHosted w →
  connected Cloud w →
  can_create Cloud w →
  minio_store w !! b = Some bk →
  (∃ n, is_Some (objects bk !! n) ∧ is_Some (find_object (aws_store w) b n)) →
  ∃ w',
    controller.transfer_bucket_from_minio_to_aws b remove_from_minio false w
      = (Raise (ValueError conflict_message), w') ∧
    is_Some (minio_store w' !! b).
Proof.
  intros Hcon1 Hcon2 Hcr Hb (n & Hn & Hon).
  destruct (transfer_start w b bk remove_from_minio false Hcon1 Hcon2 Hcr Hb)
    as (w3 & c1 & c2 & -> & H3c1 & H3c2 & H3m & H3a & H3f).
  destruct (transfer_loop_conflict b remove_from_minio c1 c2 (names None bk) w3
              H3c1 H3c2 (names_NoDup _ _)) as (w' & Hloop & Hstill).
  - rewrite H3a. apply lookup_store_ensure_any.
    apply find_object_is_Some_bucket in Hon. done.
  - intros m [Hm _]%names_elem. rewrite H3m. unfold find_object. by rewrite Hb.
  - exists n. split; [by apply names_elem|].
    by rewrite H3a, find_object_store_ensure.
  - exists w'. split; [|done]. by rewrite (bind_raise _ _ _ _ _ Hloop).
Qed.

Definition conflict_world : World :=
  {| environ := environ migration_world; files := ∅;
     stdout := []; minio_client := None; aws_client := None;
     minio_store := {[ "proj" := example_bucket [("x", "X"); ("y", "Y")] ]};
     aws_store := {[ "proj" := example_bucket [("y", "already there")] ]};
     sts_grants := [] |}.

Lemma transfer_conflict_witness :
  ∃ w',
    controller.transfer_bucket_from_minio_to_aws "proj" true false conflict_world
      = (Raise (ValueError conflict_message), w') ∧
    is_Some (minio_store w' !! "proj").
Proof.
  apply (transfer_conflict conflict_world "proj"
           (example_bucket [("x", "X"); ("y", "Y")]) true).
  - right. reflexivity.
  - right. reflexivity.
  - reflexivity.
  - reflexivity.
  - exists "y". split; by eexists.
Defined.

(** * Creating buckets on the cloud side *)

(** With a client at hand but [S3_AWS_REGION] unset or empty, the cloud
    adapter cannot create buckets: [create_bucket] raises [ValueError], and so
    does [put_object] into a bucket that does not exist, in both cases
    without creating or storing anything. *)
Theorem aws_create_bucket_needs_region (w : World) (c : client)
    (b o data : string) :
  aws_client w = Some c →
  truthy (environ w !! "S3_AWS_REGION") = false →
  aws.create_bucket b w =
    (Raise (ValueError "target region is not set for bucket creation on aws"), w) ∧
  (aws_store w !! b = None →
   aws.put_object b o data "application/json" true w =
     (Raise (ValueError "target region is not set for bucket creation on aws"), w)).
Proof.
  intros Hc Hr.
  pose proof (get_client_cached Cloud w c Hc) as Hg. simpl in Hg.
  assert (aws.create_bucket b w =
          (Raise (ValueError "target region is not set for bucket creation on aws"), w))
    as Hcreate.
  { unfold aws.create_bucket. rewrite (bind_ok _ _ _ _ _ Hg).
    rewrite bind_run. unfold getenv, gets. by rewrite Hr. }
  split; [done|]. intros Hb.
  pose proof (bucket_exists_cached Cloud w c b Hc) as Hbe. simpl in Hbe.
  rewrite (proj2 (has_bucket_false _ _) Hb) in Hbe.
  unfold aws.put_object.
  rewrite (bind_ok _ _ _ _ _ Hg), (bind_ok _ _ _ _ _ Hbe). simpl.
  unfold call. by rewrite !bind_run, Hcreate.
Qed.

Definition no_region_world : World :=
  {| environ := {[ "S3_TARGET" := "AWS" ]}; files := ∅; stdout := [];
     minio_client := None;
     aws_client := Some (Minio.new (Some "s3.amazonaws.com") (Some "key")
                           (Some "secret") true);
     minio_store := ∅; aws_store := ∅; sts_grants := [] |}.

Lemma aws_create_bucket_needs_region_witness :
  aws.create_bucket "proj" no_region_world =
    (Raise (ValueError "target region is not set for bucket creation on aws"),
     no_region_world) ∧
  (aws_store no_region_world !! "proj" = None →
   aws.put_object "proj" "x" "{}" "application/json" true no_region_world =
     (Raise (ValueError "target region is not set for bucket creation on aws"),
      no_region_world)).
Proof.
  apply (aws_create_bucket_needs_region no_region_world
           (Minio.new (Some "s3.amazonaws.com") (Some "key") (Some "secret") true)
           "proj" "x" "{}"); reflexivity.
Defined.
